(** * sse.ts: a shallow embedding of the SSE client and its properties

    The development follows [src/lib/sse.ts] and [src/lib/types/index.ts].

    Conventions of the embedding.
    - A JavaScript string is a [string]; its characters stand for code units
      below 256, so the white space that [trim] removes is TAB, LF, VT, FF,
      CR, SPACE and NBSP.
    - JavaScript numbers that the class uses ([readyState], [progress],
      [status], the result of [indexOf]) are integers in [Z].
    - [this.listeners] is an object used as a dictionary from event type to
      an array of callbacks: a [gmap string (list Listener)].
    - A callback is identified by a number; what it does to the event it
      receives is what it does to the [defaultPrevented] flag.
    - The XMLHttpRequest is an external collaborator.  The calls the session
      makes on it and the events the session dispatches are recorded, in
      order, in the ghost field [out].

    The methods are embedded twice.  The first embedding, under the names
    of the methods, takes three conditions under which a method is a plain
    function of the session: the event types are no member names of
    [Object.prototype]; a callback does nothing but act on the flag of its
    event; the transport fires nothing inside [abort], as is the case for a
    request that is DONE.  Module [Live] embeds the same methods without
    the three: a callback may call [this.close()], a type may be an
    inherited name, on which [dispatchEvent] throws, and [abort] on a
    request in flight fires readystatechange and abort before it returns.
    In both, a callback does not throw and calls no other method of the
    session. *)

From Stdlib Require Import ZArith Ascii String List Bool Lia.
From stdpp Require Import base strings gmap list relations.

Local Open Scope Z_scope.

(** ** JavaScript strings *)

Module Js.

Definition LF : string := String (ascii_of_nat 10) EmptyString.
Definition CR : string := String (ascii_of_nat 13) EmptyString.
Definition CRLF : string := CR +:+ LF.

(** WhiteSpace and LineTerminator code units below 256. *)
Definition isWhiteSpace (c : ascii) : bool :=
  match N_of_ascii c with
  | 9 | 10 | 11 | 12 | 13 | 32 | 160 => true
  | _ => false
  end%N.

(** [String.prototype.trimLeft] *)
Fixpoint trimLeft (s : string) : string :=
  match s with
  | EmptyString => EmptyString
  | String c r => if isWhiteSpace c then trimLeft r else s
  end.

(** [String.prototype.trimRight] *)
Fixpoint trimRight (s : string) : string :=
  match s with
  | EmptyString => EmptyString
  | String c r =>
      match trimRight r with
      | EmptyString => if isWhiteSpace c then EmptyString else String c EmptyString
      | r' => String c r'
      end
  end.

(** [String.prototype.trim] *)
Definition trim (s : string) : string := trimRight (trimLeft s).

(** [s.length] *)
Definition length (s : string) : Z := Z.of_nat (String.length s).

Fixpoint indexOf_from (sep s : string) (i : Z) : Z :=
  if String.prefix sep s then i
  else match s with
       | EmptyString => -1
       | String _ r => indexOf_from sep r (i + 1)
       end.

(** [s.indexOf(sep)]: the first position where [sep] occurs, or -1. *)
Definition indexOf (s sep : string) : Z := indexOf_from sep s 0.

Fixpoint drop_chars (n : nat) (s : string) : string :=
  match n, s with
  | S k, String _ r => drop_chars k r
  | _, _ => s
  end.

Fixpoint take_chars (n : nat) (s : string) : string :=
  match n, s with
  | S k, String c r => String c (take_chars k r)
  | _, _ => EmptyString
  end.

(** [s.substring(start, stop)] and, with [stop = None], [s.substring(start)]:
    both indices are clamped to [0 .. s.length] and swapped when out of
    order. *)
Definition substring (s : string) (start : Z) (stop : option Z) : string :=
  let len := length s in
  let clamp i := Z.max 0 (Z.min i len) in
  let a := clamp start in
  let b := match stop with Some e => clamp e | None => len end in
  take_chars (Z.to_nat (Z.max a b - Z.min a b)) (drop_chars (Z.to_nat (Z.min a b)) s).

(** *** The two regular expressions of the class

    A matcher is applied to the text that starts at the current position.
    On success it gives the number of code units matched (at least one for
    both expressions) and the values of the capture groups. *)

Definition Matcher : Type := string -> option (nat * list string).

Fixpoint strip_prefix (p s : string) : option string :=
  match p, s with
  | EmptyString, _ => Some s
  | String a p', String b s' => if Ascii.eqb a b then strip_prefix p' s' else None
  | String _ _, EmptyString => None
  end.

(** An alternation [p1|p2|...]: every alternative that matches at the head
    of [s], in the order the backtracking matcher tries them, with the text
    that follows it. *)
Definition alternation (alts : list string) (s : string) : list (string * string) :=
  omap (fun p => (fun r => (p, r)) <$> strip_prefix p s) alts.

(** [/(\r\n|\r|\n){2}/]: two iterations of the group; the capture is what
    the last iteration matched. *)
Definition record_separator : Matcher := fun s =>
  head (flat_map (fun m1 =>
          map (fun m2 => (String.length (fst m1) + String.length (fst m2), [fst m2])%nat)
              (alternation [CRLF; CR; LF] (snd m1)))
        (alternation [CRLF; CR; LF] s)).

(** [/\n|\r\n|\r/]: no capture group. *)
Definition line_break : Matcher := fun s =>
  head (map (fun m => (String.length (fst m), @nil string))
            (alternation [LF; CRLF; CR] s)).

(** [String.prototype.split] with a regular expression that never matches
    the empty string.  [skip] counts the code units of the current match
    that are still to be passed over; [piece] is the text gathered since the
    end of the last match.  The captures of each match are spliced into the
    result after the piece that precedes it. *)
Fixpoint split_from (m : Matcher) (skip : nat) (piece : string) (s : string)
  : list string :=
  match s with
  | EmptyString => [piece]
  | String c r =>
      match skip with
      | S k => split_from m k piece r
      | O =>
          match m s with
          | Some (n, captures) => piece :: captures ++ split_from m (Nat.pred n) EmptyString r
          | None => split_from m O (piece +:+ String c EmptyString) r
          end
      end
  end.

Definition split (m : Matcher) (s : string) : list string :=
  split_from m O EmptyString s.

End Js.

(** ** Events ([src/lib/types/index.ts]) *)

(** The values the class stores in [event.data]: the empty object that the
    constructor of [CustomSSEEvent] puts there, or a string. *)
Inductive Data : Type :=
  | EmptyObject
  | Text (s : string).

Record CustomSSEEvent : Type := {
  ev_id : option string;        (* [None] is null *)
  ev_type : string;
  ev_data : Data;
  ev_readyState : option Z;     (* [None] is undefined *)
  ev_defaultPrevented : bool    (* undefined counts as false *)
}.

(** [new CustomSSEEvent(type)] *)
Definition new_CustomSSEEvent (type : string) : CustomSSEEvent :=
  {| ev_id := Some ""; ev_type := type; ev_data := EmptyObject;
     ev_readyState := None; ev_defaultPrevented := false |}.

Definition with_data (d : Data) (e : CustomSSEEvent) : CustomSSEEvent :=
  {| ev_id := ev_id e; ev_type := ev_type e; ev_data := d;
     ev_readyState := ev_readyState e; ev_defaultPrevented := ev_defaultPrevented e |}.

Definition with_id (i : option string) (e : CustomSSEEvent) : CustomSSEEvent :=
  {| ev_id := i; ev_type := ev_type e; ev_data := ev_data e;
     ev_readyState := ev_readyState e; ev_defaultPrevented := ev_defaultPrevented e |}.

Definition with_readyState (st : Z) (e : CustomSSEEvent) : CustomSSEEvent :=
  {| ev_id := ev_id e; ev_type := ev_type e; ev_data := ev_data e;
     ev_readyState := Some st; ev_defaultPrevented := ev_defaultPrevented e |}.

Definition with_defaultPrevented (b : bool) (e : CustomSSEEvent) : CustomSSEEvent :=
  {| ev_id := ev_id e; ev_type := ev_type e; ev_data := ev_data e;
     ev_readyState := ev_readyState e; ev_defaultPrevented := b |}.

(** ** Callbacks *)

(** What a callback does to [e.defaultPrevented]. *)
Inductive FlagAction : Type := Leave | Prevent | Allow | Toggle.

Record Listener : Type := { lid : nat; on_event : FlagAction }.

#[global] Instance FlagAction_eq_dec : EqDecision FlagAction.
Proof. solve_decision. Defined.

#[global] Instance Listener_eq_dec : EqDecision Listener.
Proof. solve_decision. Defined.

(** [callback(e)]: the event after the call.  ([Live.call] below adds the
    callbacks that call close().) *)
Definition invoke (l : Listener) (e : CustomSSEEvent) : CustomSSEEvent :=
  match on_event l with
  | Leave => e
  | Prevent => with_defaultPrevented true e
  | Allow => with_defaultPrevented false e
  | Toggle => with_defaultPrevented (negb (ev_defaultPrevented e)) e
  end.

(** ** Options and transport *)

Inductive Method : Type := GET | POST.

(** [payload: any] *)
Inductive Payload : Type :=
  | PNull
  | PBoolean (b : bool)
  | PNumber (z : Z)
  | PString (s : string)
  | PObject (body : string).

(** ToBoolean on a payload. *)
Definition truthy (p : Payload) : bool :=
  match p with
  | PNull => false
  | PBoolean b => b
  | PNumber z => negb (z =? 0)
  | PString s => negb (String.eqb s "")
  | PObject _ => true
  end.

(** [SSEOptions]: every member is optional; [None] is undefined. *)
Record SSEOptions : Type := {
  opt_headers : option (list (string * string));
  opt_payload : option Payload;
  opt_method : option Method;
  opt_withCredentials : option bool
}.

(** The second argument of the constructor. *)
Inductive OptionsArg : Type :=
  | Omitted
  | Null
  | Given (o : SSEOptions).

(** What the session reads from the XMLHttpRequest. *)
Record Xhr : Type := {
  status : Z;
  responseText : string;
  response : string;
  xhr_readyState : Z
}.

(** [XMLHttpRequest.DONE] *)
Definition DONE : Z := 4.

(** [new XMLHttpRequest()] after [open]: state OPENED, nothing received. *)
Definition new_XMLHttpRequest : Xhr :=
  {| status := 0; responseText := ""; response := ""; xhr_readyState := 1 |}.

(** ** The session ([src/lib/sse.ts]) *)

(** Where in the class [dispatchEvent] is called from. *)
Inductive Site : Type :=
  | AtOpen            (* _onStreamProgress: new CustomSSEEvent('open') *)
  | AtSetOpen         (* _onStreamProgress: _setReadyState(OPEN) *)
  | AtRecord          (* _onStreamProgress: a record boundary *)
  | AtLastChunk       (* _onStreamLoaded: the last chunk *)
  | AtError           (* _onStreamFailure *)
  | AtAbort           (* _onStreamAbort *)
  | AtCheckClosed     (* _checkStreamClosed: _setReadyState(CLOSED) *)
  | AtStream          (* stream: _setReadyState(CONNECTING) *)
  | AtClose           (* close: _setReadyState(CLOSED) *)
  | AtCaller.         (* dispatchEvent called from outside the class *)

#[global] Instance Site_eq_dec : EqDecision Site.
Proof. solve_decision. Defined.

(** What the session does that can be observed from outside. *)
Inductive Effect : Type :=
  | Dispatch (site : Site) (e : CustomSSEEvent)  (* dispatchEvent(e), e not null *)
  | Call (l : Listener) (e : CustomSSEEvent)     (* a handler or listener is called *)
  | XhrOpen (m : Method) (u : string)
  | XhrSetRequestHeader (name value : string)
  | XhrSetWithCredentials (b : bool)
  | XhrSend (p : Payload)
  | XhrAbort.

Record SSE : Type := {
  url : string;
  options : SSEOptions;
  headers : list (string * string);
  payload : Payload;
  method : Method;
  withCredentials : bool;
  listeners : gmap string (list Listener);
  handlers : gmap string Listener;   (* own properties named 'on' + type *)
  xhr : option Xhr;                  (* [None] is null *)
  readyState : Z;
  progress : Z;
  chunk : string;
  out : list Effect                  (* ghost: the effects so far, oldest first *)
}.

(** [this.FIELD_SEPARATOR], set once in the constructor. *)
Definition FIELD_SEPARATOR : string := ":".

Definition INITIALIZING : Z := -1.
Definition CONNECTING : Z := 0.
Definition OPEN : Z := 1.
Definition CLOSED : Z := 2.

Definition set_listeners (v : gmap string (list Listener)) (s : SSE) : SSE :=
  {| url := url s; options := options s; headers := headers s; payload := payload s;
     method := method s; withCredentials := withCredentials s;
     listeners := v; handlers := handlers s;
     xhr := xhr s; readyState := readyState s; progress := progress s;
     chunk := chunk s; out := out s |}.

Definition set_handlers (v : gmap string Listener) (s : SSE) : SSE :=
  {| url := url s; options := options s; headers := headers s; payload := payload s;
     method := method s; withCredentials := withCredentials s;
     listeners := listeners s; handlers := v;
     xhr := xhr s; readyState := readyState s; progress := progress s;
     chunk := chunk s; out := out s |}.

Definition set_xhr (v : option Xhr) (s : SSE) : SSE :=
  {| url := url s; options := options s; headers := headers s; payload := payload s;
     method := method s; withCredentials := withCredentials s;
     listeners := listeners s; handlers := handlers s;
     xhr := v; readyState := readyState s; progress := progress s;
     chunk := chunk s; out := out s |}.

Definition set_readyState (v : Z) (s : SSE) : SSE :=
  {| url := url s; options := options s; headers := headers s; payload := payload s;
     method := method s; withCredentials := withCredentials s;
     listeners := listeners s; handlers := handlers s;
     xhr := xhr s; readyState := v; progress := progress s;
     chunk := chunk s; out := out s |}.

Definition set_progress (v : Z) (s : SSE) : SSE :=
  {| url := url s; options := options s; headers := headers s; payload := payload s;
     method := method s; withCredentials := withCredentials s;
     listeners := listeners s; handlers := handlers s;
     xhr := xhr s; readyState := readyState s; progress := v;
     chunk := chunk s; out := out s |}.

Definition set_chunk (v : string) (s : SSE) : SSE :=
  {| url := url s; options := options s; headers := headers s; payload := payload s;
     method := method s; withCredentials := withCredentials s;
     listeners := listeners s; handlers := handlers s;
     xhr := xhr s; readyState := readyState s; progress := progress s;
     chunk := v; out := out s |}.

(** Record effects [t] after those already in [out]. *)
Definition emit (t : list Effect) (s : SSE) : SSE :=
  {| url := url s; options := options s; headers := headers s; payload := payload s;
     method := method s; withCredentials := withCredentials s;
     listeners := listeners s; handlers := handlers s;
     xhr := xhr s; readyState := readyState s; progress := progress s;
     chunk := chunk s; out := out s ++ t |}.

(** A call either returns or throws (the only throw of the class itself is
    the TypeError of a member access on null or undefined); both carry the
    session as it is at that point. *)
Inductive Completion : Type :=
  | Returns (s : SSE)
  | Throws (s : SSE).

Definition state_of (c : Completion) : SSE :=
  match c with Returns s | Throws s => s end.

Definition and_then (c : Completion) (k : SSE -> Completion) : Completion :=
  match c with
  | Returns s => k s
  | Throws s => Throws s
  end.

(** *** constructor *)

(** The object the constructor builds from an options object. *)
Definition construct (u : string) (o : SSEOptions) : SSE :=
  let p := match opt_payload o with Some p => p | None => PString "" end in
  {| url := u;
     options := o;
     headers := match opt_headers o with Some h => h | None => [] end;
     payload := p;
     method := match opt_method o with
               | Some m => m
               | None => if truthy p then POST else GET
               end;
     withCredentials := match opt_withCredentials o with Some b => b | None => false end;
     listeners := ∅;
     handlers := ∅;
     xhr := None;
     readyState := INITIALIZING;
     progress := 0;
     chunk := "";
     out := [] |}.

(** The outcome of [new SSE(url, options)]. *)
Inductive Construction : Type :=
  | Constructed (s : SSE)
  | TypeError.

(** [new SSE(url, options)]: after the two assignments of [url] and
    [options], [options.headers] is read whatever [options] is, which throws
    on undefined and on null. *)
Definition new_SSE (u : string) (a : OptionsArg) : Construction :=
  match a with
  | Omitted | Null => TypeError
  | Given o => Constructed (construct u o)
  end.

(** *** addEventListener, removeEventListener *)

Definition addEventListener (type : string) (listener : Listener) (s : SSE) : SSE :=
  let s := match listeners s !! type with
           | None => set_listeners (<[type := []]> (listeners s)) s
           | Some _ => s
           end in
  let ls := default [] (listeners s !! type) in
  if bool_decide (listener ∈ ls) then s
  else set_listeners (<[type := ls ++ [listener]]> (listeners s)) s.

Definition removeEventListener (type : string) (listener : Listener) (s : SSE) : SSE :=
  match listeners s !! type with
  | None => s
  | Some ls =>
      let filtered := filter (fun element => element ≠ listener) ls in
      match filtered with
      | [] => set_listeners (delete type (listeners s)) s
      | _ => set_listeners (<[type := filtered]> (listeners s)) s
      end
  end.

(** *** dispatchEvent *)

(** [array.every(function(callback) { callback(e); return !e.defaultPrevented; })]:
    the calls made, the event afterwards and the result of [every], which
    stops at the first callback that returns false. *)
Fixpoint every_callback (ls : list Listener) (e : CustomSSEEvent)
  : list Effect * CustomSSEEvent * bool :=
  match ls with
  | [] => ([], e, true)
  | callback :: rest =>
      let e' := invoke callback e in
      if ev_defaultPrevented e' then ([Call callback e], e', false)
      else
        let '(t, e'', b) := every_callback rest e' in
        (Call callback e :: t, e'', b)
  end.

(** The calls that [dispatchEvent(e)] makes for an event that is not null,
    and its result: first the handler in the own property 'on' + type, if
    there is one, then the listeners of the type.  The type is taken to be
    no inherited name; [Live.dispatchEvent] below has the other case. *)
Definition dispatchEvent_calls (s : SSE) (e : CustomSSEEvent) : list Effect * bool :=
  let '(t1, e1, handled) :=
    match handlers s !! ev_type e with
    | Some h => ([Call h e], invoke h e, true)
    | None => ([], e, false)
    end in
  if handled && ev_defaultPrevented e1 then (t1, false)
  else
    match listeners s !! ev_type e1 with
    | Some ls =>
        let '(t2, _, b) := every_callback ls e1 in
        (t1 ++ t2, b)
    | None => (t1, true)
    end.

(** [dispatchEvent(e)]; [site] only labels the record in [out].  The
    assignment [e.source = this] is not modelled. *)
Definition dispatchEvent (site : Site) (e : option CustomSSEEvent) (s : SSE) : SSE * bool :=
  match e with
  | None => (s, true)
  | Some e =>
      let '(t, b) := dispatchEvent_calls s e in
      (emit (Dispatch site e :: t) s, b)
  end.

(** [this.dispatchEvent(e);] as a statement. *)
Definition dispatch (site : Site) (e : option CustomSSEEvent) (s : SSE) : SSE :=
  fst (dispatchEvent site e s).

(** *** _setReadyState *)

Definition _setReadyState (site : Site) (state : Z) (s : SSE) : SSE :=
  let event := with_readyState state (new_CustomSSEEvent "readystatechange") in
  let s := set_readyState state s in
  dispatch site (Some event) s.

(** *** close

    Here [abort] is recorded and fires nothing before it returns, as on a
    request that is DONE; [Live.close] below has the request in flight. *)

Definition close (s : SSE) : Completion :=
  if readyState s =? CLOSED then Returns s
  else
    match xhr s with
    | None => Throws s                       (* this.xhr.abort() on null *)
    | Some _ =>
        let s := emit [XhrAbort] s in
        let s := set_xhr None s in
        Returns (_setReadyState AtClose CLOSED s)
    end.

(** *** _onStreamFailure, _onStreamAbort

    [e] is the state of [e.currentTarget], the XMLHttpRequest. *)

Definition _onStreamFailure (e : Xhr) (s : SSE) : Completion :=
  let event := with_data (Text (response e)) (new_CustomSSEEvent "error") in
  let s := dispatch AtError (Some event) s in
  close s.

Definition _onStreamAbort (e : Xhr) (s : SSE) : Completion :=
  let s := dispatch AtAbort (Some (new_CustomSSEEvent "abort")) s in
  close s.

(** *** _parseEventChunk *)

(** The object [e] of _parseEventChunk. *)
Record Fields : Type := {
  f_id : option string;
  f_retry : option string;
  f_data : string;
  f_event : string
}.

(** [{'id': null, 'retry': null, 'data': '', 'event': 'message'}] *)
Definition initial_fields : Fields :=
  {| f_id := None; f_retry := None; f_data := ""; f_event := "message" |}.

(** The names an object literal inherits from [Object.prototype]. *)
Definition Object_prototype_names : list string :=
  ["constructor"; "__defineGetter__"; "__defineSetter__"; "hasOwnProperty";
   "__lookupGetter__"; "__lookupSetter__"; "isPrototypeOf"; "propertyIsEnumerable";
   "toString"; "valueOf"; "__proto__"; "toLocaleString"].

(** [field in e]: own and inherited names. *)
Definition in_fields (field : string) : bool :=
  bool_decide (field ∈ ["id"; "retry"; "data"; "event"] ++ Object_prototype_names).

(** [e[field] = value].  On an inherited name the assignment makes an own
    property that nothing reads (and does nothing at all for '__proto__'),
    so the four members are unchanged. *)
Definition assign_field (field value : string) (e : Fields) : Fields :=
  if String.eqb field "id" then
    {| f_id := Some value; f_retry := f_retry e; f_data := f_data e; f_event := f_event e |}
  else if String.eqb field "retry" then
    {| f_id := f_id e; f_retry := Some value; f_data := f_data e; f_event := f_event e |}
  else if String.eqb field "data" then
    {| f_id := f_id e; f_retry := f_retry e; f_data := value; f_event := f_event e |}
  else if String.eqb field "event" then
    {| f_id := f_id e; f_retry := f_retry e; f_data := f_data e; f_event := value |}
  else e.

(** The body of the [forEach] over the lines. *)
Definition parse_line (sep : string) (e : Fields) (line : string) : Fields :=
  let line := Js.trimRight line in
  let index := Js.indexOf line sep in
  if index <=? 0 then e
  else
    let field := Js.substring line 0 (Some index) in
    if negb (in_fields field) then e
    else
      let value := Js.trimLeft (Js.substring line (index + 1) None) in
      if String.eqb field "data" then assign_field field (f_data e +:+ value) e
      else assign_field field value e.

Definition _parseEventChunk (chunk : string) : option CustomSSEEvent :=
  if String.eqb chunk "" then None
  else
    let e := fold_left (parse_line FIELD_SEPARATOR)
                       (Js.split Js.line_break chunk) initial_fields in
    let event := new_CustomSSEEvent (f_event e) in
    let event := with_data (Text (f_data e)) event in
    let event := with_id (f_id e) event in
    Some event.

(** *** _onStreamProgress, _onStreamLoaded *)

(** The body of the [forEach] over the parts of the new data. *)
Definition on_part (s : SSE) (part : string) : SSE :=
  if Js.length (Js.trim part) =? 0 then
    let s := dispatch AtRecord (_parseEventChunk (Js.trim (chunk s))) s in
    set_chunk "" s
  else set_chunk (chunk s +:+ part) s.

Definition _onStreamProgress (e : Xhr) (s : SSE) : Completion :=
  match xhr s with
  | None => Returns s
  | Some x =>
      if negb (status x =? 200) then _onStreamFailure e s
      else
        let s := if readyState s =? CONNECTING then
                   let s := dispatch AtOpen (Some (new_CustomSSEEvent "open")) s in
                   _setReadyState AtSetOpen OPEN s
                 else s in
        let data := Js.substring (responseText x) (progress s) None in
        let s := set_progress (progress s + Js.length data) s in
        Returns (fold_left on_part (Js.split Js.record_separator data) s)
  end.

Definition _onStreamLoaded (e : Xhr) (s : SSE) : Completion :=
  and_then (_onStreamProgress e s) (fun s =>
    let s := dispatch AtLastChunk (_parseEventChunk (chunk s)) s in
    Returns (set_chunk "" s)).

(** *** _checkStreamClosed *)

Definition _checkStreamClosed (s : SSE) : SSE :=
  match xhr s with
  | None => s
  | Some x =>
      if xhr_readyState x =? DONE then _setReadyState AtCheckClosed CLOSED s
      else s
  end.

(** *** stream

    The five [xhr.addEventListener] calls are what makes the transport
    deliver the notifications below.  [xhr.open] already fires a
    readystatechange at the transport, with [xhr.readyState] OPENED, on
    which _checkStreamClosed does nothing. *)

Definition stream (s : SSE) : SSE :=
  let s := _setReadyState AtStream CONNECTING s in
  let s := set_xhr (Some new_XMLHttpRequest) s in
  let s := emit [XhrOpen (method s) (url s)] s in
  let s := fold_left (fun s header => emit [XhrSetRequestHeader (fst header) (snd header)] s)
                     (headers s) s in
  let s := emit [XhrSetWithCredentials (withCredentials s)] s in
  emit [XhrSend (payload s)] s.

(** ** Runs of a session *)

(** The notifications of the transport, as registered in [stream]. *)
Inductive Notification : Type :=
  | NProgress | NLoad | NReadyStateChange | NError | NAbort.

(** A notification comes with the state [x] of the XMLHttpRequest at that
    time.  While the session holds the transport ([this.xhr] not null),
    [this.xhr] is that same object. *)
Definition observe (x : Xhr) (s : SSE) : SSE :=
  match xhr s with
  | None => s
  | Some _ => set_xhr (Some x) s
  end.

Definition notify (n : Notification) (x : Xhr) (s : SSE) : Completion :=
  let s := observe x s in
  match n with
  | NProgress => _onStreamProgress x s
  | NLoad => _onStreamLoaded x s
  | NReadyStateChange => Returns (_checkStreamClosed s)
  | NError => _onStreamFailure x s
  | NAbort => _onStreamAbort x s
  end.

(** What a caller and the transport can do to a session. *)
Inductive Op : Type :=
  | OAddEventListener (type : string) (l : Listener)
  | ORemoveEventListener (type : string) (l : Listener)
  | OSetHandler (type : string) (h : option Listener)  (* sse['on' + type] = h, or delete *)
  | ODispatchEvent (e : option CustomSSEEvent)
  | OStream
  | OClose
  | ONotify (n : Notification) (x : Xhr).

Definition step (op : Op) (s : SSE) : Completion :=
  match op with
  | OAddEventListener type l => Returns (addEventListener type l s)
  | ORemoveEventListener type l => Returns (removeEventListener type l s)
  | OSetHandler type (Some h) => Returns (set_handlers (<[type := h]> (handlers s)) s)
  | OSetHandler type None => Returns (set_handlers (delete type (handlers s)) s)
  | ODispatchEvent e => Returns (dispatch AtCaller e s)
  | OStream => Returns (stream s)
  | OClose => close s
  | ONotify n x => notify n x s
  end.

(** A run: the operations one after the other.  An operation that throws
    leaves the session as it was at the throw, and the run goes on (the
    caller caught the exception). *)
Definition run (ops : list Op) (s : SSE) : SSE :=
  fold_left (fun s op => state_of (step op s)) ops s.

(** ** Delivery of a response body in pieces *)

(** The transport while the body is arriving, with status 200. *)
Definition receiving (text : string) : Xhr :=
  {| status := 200; responseText := text; response := text; xhr_readyState := 3 |}.

(** The transport once the whole body has arrived. *)
Definition received (text : string) : Xhr :=
  {| status := 200; responseText := text; response := text; xhr_readyState := DONE |}.

(** One progress notification per piece; [responseText] is cumulative. *)
Fixpoint progress_notifications (so_far : string) (pieces : list string) : list Op :=
  match pieces with
  | [] => []
  | piece :: rest =>
      ONotify NProgress (receiving (so_far +:+ piece))
        :: progress_notifications (so_far +:+ piece) rest
  end.

Definition whole (pieces : list string) : string :=
  fold_right String.append "" pieces.

(** stream(), the pieces, and, when [load] is set, the load notification. *)
Definition deliver (load : bool) (pieces : list string) : list Op :=
  OStream :: progress_notifications "" pieces
    ++ (if load then [ONotify NLoad (received (whole pieces))] else []).

(** ** Reading the effects *)

(** The calls of [dispatchEvent] among the effects, in order. *)
Definition dispatched (t : list Effect) : list (Site * CustomSSEEvent) :=
  omap (fun eff => match eff with
                   | Dispatch site e => Some (site, e)
                   | _ => None
                   end) t.

(** The callbacks called, in order. *)
Definition called (t : list Effect) : list Listener :=
  omap (fun eff => match eff with
                   | Call l _ => Some l
                   | _ => None
                   end) t.

(** The sites of the dispatches so far, in order. *)
Definition sites (s : SSE) : list Site := map fst (dispatched (out s)).

(** The dispatches of parsed records. *)
Definition is_record_site (x : Site) : bool :=
  match x with
  | AtRecord | AtLastChunk => true
  | _ => false
  end.

(** The events dispatched from the parser, in order. *)
Definition record_events (s : SSE) : list CustomSSEEvent :=
  map snd (List.filter (fun d => is_record_site (fst d)) (dispatched (out s))).

(** What one [dispatchEvent] adds to [out]. *)
Definition dispatch_effects (site : Site) (e : option CustomSSEEvent) (s : SSE)
  : list Effect :=
  match e with
  | None => []
  | Some e => Dispatch site e :: fst (dispatchEvent_calls s e)
  end.

(** Every dispatch of a parsed record comes after a dispatch of 'open'. *)
Definition records_after_open (l : list Site) : Prop :=
  forall (before after : list Site) (x : Site),
    l = before ++ x :: after -> is_record_site x = true -> AtOpen ∈ before.

(** How often a site occurs. *)
Definition count (x : Site) (l : list Site) : nat :=
  List.length (filter (fun y => y = x) l).

Definition no_options : SSEOptions :=
  {| opt_headers := None; opt_payload := None; opt_method := None;
     opt_withCredentials := None |}.

Definition message (type : string) (i : option string) (d : string) : CustomSSEEvent :=
  {| ev_id := i; ev_type := type; ev_data := Text d;
     ev_readyState := None; ev_defaultPrevented := false |}.

(** ** The record parser as the specification words it *)

Module Spec.

(** A line by the rules of the specification: the recognised field and
    its value, or nothing when the line is ignored. *)
Definition field_of_line (line : string) : option (string * string) :=
  let line := Js.trimRight line in
  let index := Js.indexOf line ":" in
  if bool_decide (index < 0 ∨ index = 0) then None
  else
    let name := Js.substring line 0 (Some index) in
    let value := Js.trimLeft (Js.substring line (index + 1) None) in
    if bool_decide (name ∈ ["id"; "retry"; "data"; "event"]) then Some (name, value)
    else None.

(** The values of the lines of one field, in order. *)
Definition values_of (name : string) (fields : list (string * string)) : list string :=
  map snd (filter (fun f => fst f = name) fields).

Definition fields_of_record (text : string) : list (string * string) :=
  omap field_of_line (Js.split Js.line_break text).

(** Type: the last 'event' value, "message" without one.  Data: the values
    of the 'data' lines, concatenated.  Id: the last 'id' value, null
    without one. *)
Definition event_of_record (text : string) : CustomSSEEvent :=
  let fields := fields_of_record text in
  message (default "message" (last (values_of "event" fields)))
          (last (values_of "id" fields))
          (fold_right String.append "" (values_of "data" fields)).

End Spec.

(** ** Conditions on runs *)

Definition is_stream (op : Op) : bool :=
  match op with
  | OStream => true
  | _ => false
  end.

(** The number of calls of stream() in a run. *)
Definition streams (ops : list Op) : nat := List.length (List.filter is_stream ops).

(** A readystatechange notification on which the transport is DONE. *)
Definition reports_done (op : Op) : bool :=
  match op with
  | ONotify NReadyStateChange x => xhr_readyState x =? DONE
  | _ => false
  end.

(** The transport does not report DONE while the session is CONNECTING,
    that is, before the first data notification that the session accepts. *)
Fixpoint data_before_done (ops : list Op) (s : SSE) : bool :=
  match ops with
  | [] => true
  | op :: rest =>
      negb (reports_done op && (readyState s =? CONNECTING))
      && data_before_done rest (state_of (step op s))
  end.

(** ** The moves of a session

    What an operation other than stream() and other than a readystatechange
    notification does to [readyState], [xhr], [chunk] and the dispatches is
    a sequence of moves of four kinds. *)

(** The session holds a transport. *)
Definition live (s : SSE) : bool :=
  match xhr s with
  | Some _ => true
  | None => false
  end.

(** Dispatches that come with no change of state. *)
Definition is_quiet_site (x : Site) : bool :=
  match x with
  | AtCaller | AtError | AtAbort => true
  | _ => false
  end.

Inductive move (s s' : SSE) : Prop :=
  | move_quiet (l : list Site) :
      readyState s' = readyState s -> live s' = live s -> chunk s' = chunk s ->
      sites s' = sites s ++ l -> forallb is_quiet_site l = true ->
      move s s'
  | move_close :
      readyState s <> CLOSED -> live s = true ->
      readyState s' = CLOSED -> live s' = false -> chunk s' = chunk s ->
      sites s' = sites s ++ [AtClose] ->
      move s s'
  | move_data (n : nat) :
      live s = true -> live s' = true ->
      readyState s' = (if readyState s =? CONNECTING then OPEN else readyState s) ->
      sites s' = sites s
                 ++ (if readyState s =? CONNECTING then [AtOpen; AtSetOpen] else [])
                 ++ replicate n AtRecord ->
      move s s'
  | move_flush :
      readyState s' = readyState s -> live s' = live s -> chunk s' = "" ->
      sites s' = sites s ++ (if String.eqb (chunk s) "" then [] else [AtLastChunk]) ->
      move s s'.

(** Bounds on the dispatches of 'open' and on the dispatches from close()
    still to come: a session that is CONNECTING has one 'open' to dispatch,
    a session that holds a transport has one close() that takes effect. *)
Definition open_budget (s : SSE) : nat :=
  (count AtOpen (sites s) + (if (readyState s =? CONNECTING)%Z then 1 else 0))%nat.

Definition close_budget (s : SSE) : nat :=
  (count AtClose (sites s) + (if live s then 1 else 0))%nat.

(** The invariant behind the order of 'open' and the records. *)
Definition opened_before_data (s : SSE) : Prop :=
  records_after_open (sites s)
  /\ (live s = true -> readyState s = CONNECTING \/ AtOpen ∈ sites s)
  /\ (chunk s <> "" -> AtOpen ∈ sites s).

(** ** Delivery to the listeners, up to the first that prevents *)

(** The event after each listener of [ls] in turn, were all of them called. *)
Fixpoint events_after (ls : list Listener) (e : CustomSSEEvent) : list CustomSSEEvent :=
  match ls with
  | [] => []
  | l :: rest => invoke l e :: events_after rest (invoke l e)
  end.

(** The position of the first listener that leaves the event
    default-prevented. *)
Definition first_prevented (ls : list Listener) (e : CustomSSEEvent) : option nat :=
  fst <$> list_find (fun e' => ev_defaultPrevented e' = true) (events_after ls e).

(** The listeners in registration order, up to and including the first that
    leaves the event default-prevented. *)
Definition delivered (ls : list Listener) (e : CustomSSEEvent) : list Listener :=
  match first_prevented ls e with
  | Some k => take (S k) ls
  | None => ls
  end.

(** The event as the listeners receive it: after the handler in the own
    property 'on' + type, if there is one. *)
Definition after_handler (s : SSE) (e : CustomSSEEvent) : CustomSSEEvent :=
  match handlers s !! ev_type e with
  | Some h => invoke h e
  | None => e
  end.

Definition handler_call (s : SSE) (e : CustomSSEEvent) : list Effect :=
  match handlers s !! ev_type e with
  | Some h => [Call h e]
  | None => []
  end.

(** ** Sessions and inputs used below *)

Definition fresh : SSE := construct "http://localhost/events" no_options.

(** A listener that sets [e.defaultPrevented], and one that does nothing. *)
Definition preventing : Listener := {| lid := 1; on_event := Prevent |}.
Definition passive : Listener := {| lid := 2; on_event := Leave |}.

Definition two_listeners : SSE :=
  addEventListener "message" passive (addEventListener "message" preventing fresh).

(** Two records, as one piece and cut between the two line breaks that end
    the first record. *)
Definition two_records_whole : list string :=
  ["data: a" +:+ Js.LF +:+ Js.LF +:+ "data: b" +:+ Js.LF +:+ Js.LF].

Definition two_records_cut : list string :=
  ["data: a" +:+ Js.LF; Js.LF +:+ "data: b" +:+ Js.LF +:+ Js.LF].

(** One record, with a piece that is a single space. *)
Definition spaced_record_whole : list string :=
  ["data: a b" +:+ Js.LF +:+ Js.LF].

Definition spaced_record_cut : list string :=
  ["data: a"; " "; "b" +:+ Js.LF +:+ Js.LF].

Definition ping_record : string :=
  "event: ping" +:+ Js.LF +:+ "id: 7" +:+ Js.LF +:+ "data: a" +:+ Js.LF
    +:+ "data: b" +:+ Js.LF +:+ Js.LF.

(** A response with status 500 and body "oops". *)
Definition failed_response : Xhr :=
  {| status := 500; responseText := "oops"; response := "oops"; xhr_readyState := 3 |}.

(** The transport reports DONE before any data notification, then load. *)
Definition done_then_load : list Op :=
  [OStream;
   ONotify NReadyStateChange (received ("data: x" +:+ Js.LF +:+ Js.LF));
   ONotify NLoad (received ("data: x" +:+ Js.LF +:+ Js.LF))].

(** ** The registry of listeners *)

(** Every array in [this.listeners] has an element and holds no callback
    twice. *)
Definition registry_ok (s : SSE) : Prop :=
  forall (type : string) (ls : list Listener),
    listeners s !! type = Some ls -> ls <> [] /\ NoDup ls.

(** The callbacks of [dispatchEvent(e)] in the order they are called: the
    handler, then the listeners up to the first that prevents. *)
Definition callbacks (s : SSE) (e : CustomSSEEvent) : list Listener :=
  match handlers s !! ev_type e with
  | Some h =>
      h :: (if ev_defaultPrevented (invoke h e) then []
            else delivered (default [] (listeners s !! ev_type e)) (invoke h e))
  | None => delivered (default [] (listeners s !! ev_type e)) e
  end.

(** The event after the callbacks [ls] have been called on it in turn. *)
Definition event_after (ls : list Listener) (e : CustomSSEEvent) : CustomSSEEvent :=
  fold_left (fun e l => invoke l e) ls e.

(** ** The session and its transport *)

(** [readyState] is one of the four constants; a session that is
    INITIALIZING holds no transport, one that is CONNECTING or OPEN holds
    one. *)
Definition transport_ok (s : SSE) : Prop :=
  (readyState s = INITIALIZING \/ readyState s = CONNECTING
   \/ readyState s = OPEN \/ readyState s = CLOSED)
  /\ (readyState s = INITIALIZING -> live s = false)
  /\ (readyState s = CONNECTING \/ readyState s = OPEN -> live s = true).

(** The notifications whose handlers start with [if (!this.xhr) return]. *)
Definition guarded (op : Op) : bool :=
  match op with
  | ONotify NProgress _ | ONotify NReadyStateChange _ => true
  | _ => false
  end.

(** ** Increments of the response text *)

(** The record separator matches at no position of [r] when [r] is followed
    by [t]. *)
Fixpoint unbroken (r t : string) : bool :=
  match r with
  | EmptyString => true
  | String _ r' =>
      match Js.record_separator (r +:+ t) with
      | Some _ => false
      | None => unbroken r' t
      end
  end.

(** White space only. *)
Fixpoint blank (s : string) : bool :=
  match s with
  | EmptyString => true
  | String c r => Js.isWhiteSpace c && blank r
  end.

(** The line breaks of the record separator. *)
Definition line_breaks : list string := [Js.CRLF; Js.CR; Js.LF].

(** What the session has after the guards of _onStreamProgress and the
    dispatch of 'open': the events dispatched there. *)
Definition opening (s : SSE) : list (Site * CustomSSEEvent) :=
  if readyState s =? CONNECTING
  then [(AtOpen, new_CustomSSEEvent "open");
        (AtSetOpen, with_readyState OPEN (new_CustomSSEEvent "readystatechange"))]
  else [].

(** The dispatch of a parsed record, if the parser gave one. *)
Definition record_dispatch (e : option CustomSSEEvent) : list (Site * CustomSSEEvent) :=
  match e with
  | Some e => [(AtRecord, e)]
  | None => []
  end.

(** The three members of [e] that make the event hold trimmed strings. *)
Definition fields_trimmed (e : Fields) : Prop :=
  Js.trim (f_event e) = f_event e
  /\ Js.trim (f_data e) = f_data e
  /\ forall v, f_id e = Some v -> Js.trim v = v.

(** ** The session with its callbacks and its transport at work

    The definitions above follow the class for callbacks that only touch the
    flag of their event, for event types that are no member names of
    [Object.prototype] and for a transport that fires nothing inside
    [abort].  Module [Live] follows it without the three conditions:
    - a callback may call [this.close()];
    - [this.listeners[type]] also finds the members that the object
      inherits from [Object.prototype], on which [every], [indexOf] and
      [forEach] are undefined, so that the call throws a TypeError;
    - [abort] on a request in flight fires readystatechange, with the
      transport DONE, and abort, before it returns: the session's handlers of
      the two run inside [close], while [this.xhr] is still set. *)

Module Live.

(** [this.listeners[type]] finds an inherited member. *)
Definition inherited (type : string) : bool :=
  bool_decide (type ∈ Object_prototype_names).

(** The same for the event of a record, if the parser gave one. *)
Definition inherited_event (e : option CustomSSEEvent) : bool :=
  match e with
  | Some e => inherited (ev_type e)
  | None => false
  end.

(** The request has been sent and is not DONE: OPENED, HEADERS_RECEIVED or
    LOADING. *)
Definition in_flight (x : Xhr) : bool :=
  (1 <=? xhr_readyState x) && (xhr_readyState x <=? 3).

(** The transport as [abort] leaves it for the handlers it calls: DONE,
    with the response of a network error. *)
Definition aborted : Xhr :=
  {| status := 0; responseText := ""; response := ""; xhr_readyState := DONE |}.

Section Session.

(** The callbacks that call [this.close()]. *)
Variable closing : Listener -> bool.

(** [this.close], as the methods and the callbacks reach it. *)
Variable this_close : SSE -> Completion.

(** [callback(e)], for a handler or a listener: the call is recorded, and a
    closing callback calls close(); what the callback does to the flag of
    [e] is [invoke]. *)
Definition call (callback : Listener) (e : CustomSSEEvent) (s : SSE) : Completion :=
  let s := emit [Call callback e] s in
  if closing callback then this_close s else Returns s.

(** [array.every(function(callback) { callback(e); return !e.defaultPrevented; })];
    an exception in a callback ends the iteration. *)
Fixpoint every_callback (ls : list Listener) (e : CustomSSEEvent) (s : SSE)
  : Completion * bool :=
  match ls with
  | [] => (Returns s, true)
  | callback :: rest =>
      match call callback e s with
      | Throws s => (Throws s, false)
      | Returns s =>
          let e := invoke callback e in
          if ev_defaultPrevented e then (Returns s, false)
          else every_callback rest e s
      end
  end.

(** [dispatchEvent(e)] and its result (of no account when it throws). *)
Definition dispatchEvent (site : Site) (e : option CustomSSEEvent) (s : SSE)
  : Completion * bool :=
  match e with
  | None => (Returns s, true)
  | Some e =>
      let s := emit [Dispatch site e] s in
      let '(c, e, handled) :=
        match handlers s !! ev_type e with
        | Some h => (call h e s, invoke h e, true)
        | None => (Returns s, e, false)
        end in
      match c with
      | Throws s => (Throws s, false)
      | Returns s =>
          if handled && ev_defaultPrevented e then (Returns s, false)
          else
            match listeners s !! ev_type e with
            | Some ls => every_callback ls e s
            | None =>
                if inherited (ev_type e) then (Throws s, false)  (* .every is undefined *)
                else (Returns s, true)
            end
      end
  end.

(** [this.dispatchEvent(e);] as a statement. *)
Definition dispatch (site : Site) (e : option CustomSSEEvent) (s : SSE) : Completion :=
  fst (dispatchEvent site e s).

Definition _setReadyState (site : Site) (state : Z) (s : SSE) : Completion :=
  let event := with_readyState state (new_CustomSSEEvent "readystatechange") in
  let s := set_readyState state s in
  dispatch site (Some event) s.

Definition _onStreamFailure (e : Xhr) (s : SSE) : Completion :=
  let event := with_data (Text (response e)) (new_CustomSSEEvent "error") in
  and_then (dispatch AtError (Some event) s) this_close.

Definition _onStreamAbort (e : Xhr) (s : SSE) : Completion :=
  and_then (dispatch AtAbort (Some (new_CustomSSEEvent "abort")) s) this_close.

Definition _checkStreamClosed (s : SSE) : Completion :=
  match xhr s with
  | None => Returns s
  | Some x =>
      if xhr_readyState x =? DONE then _setReadyState AtCheckClosed CLOSED s
      else Returns s
  end.

(** [this.xhr.abort()] on the transport [x]: for a request in flight the
    transport becomes DONE and calls the handlers that stream() registered
    for readystatechange and for abort, in this order; an exception in a
    handler does not reach the caller of [abort]. *)
Definition xhr_abort (x : Xhr) (s : SSE) : SSE :=
  let s := emit [XhrAbort] s in
  if in_flight x then
    let s := set_xhr (Some aborted) s in
    let s := state_of (_checkStreamClosed s) in
    state_of (_onStreamAbort aborted s)
  else s.

Definition close (s : SSE) : Completion :=
  if readyState s =? CLOSED then Returns s
  else
    match xhr s with
    | None => Throws s                       (* this.xhr.abort() on null *)
    | Some x =>
        let s := xhr_abort x s in
        let s := set_xhr None s in
        _setReadyState AtClose CLOSED s
    end.

(** The body of the [forEach] over the parts of the new data; an exception
    ends the iteration. *)
Definition on_part (c : Completion) (part : string) : Completion :=
  and_then c (fun s =>
    if Js.length (Js.trim part) =? 0 then
      and_then (dispatch AtRecord (_parseEventChunk (Js.trim (chunk s))) s)
               (fun s => Returns (set_chunk "" s))
    else Returns (set_chunk (chunk s +:+ part) s)).

Definition _onStreamProgress (e : Xhr) (s : SSE) : Completion :=
  match xhr s with
  | None => Returns s
  | Some x =>
      if negb (status x =? 200) then _onStreamFailure e s
      else
        let c := if readyState s =? CONNECTING then
                   and_then (dispatch AtOpen (Some (new_CustomSSEEvent "open")) s)
                            (_setReadyState AtSetOpen OPEN)
                 else Returns s in
        and_then c (fun s =>
          match xhr s with
          | None => Throws s                 (* this.xhr.responseText on null *)
          | Some x =>
              let data := Js.substring (responseText x) (progress s) None in
              let s := set_progress (progress s + Js.length data) s in
              fold_left on_part (Js.split Js.record_separator data) (Returns s)
          end)
  end.

Definition _onStreamLoaded (e : Xhr) (s : SSE) : Completion :=
  and_then (_onStreamProgress e s) (fun s =>
    and_then (dispatch AtLastChunk (_parseEventChunk (chunk s)) s)
             (fun s => Returns (set_chunk "" s))).

Definition stream (s : SSE) : Completion :=
  and_then (_setReadyState AtStream CONNECTING s) (fun s =>
    let s := set_xhr (Some new_XMLHttpRequest) s in
    let s := emit [XhrOpen (method s) (url s)] s in
    let s := fold_left (fun s header => emit [XhrSetRequestHeader (fst header) (snd header)] s)
                       (headers s) s in
    let s := emit [XhrSetWithCredentials (withCredentials s)] s in
    Returns (emit [XhrSend (payload s)] s)).

(** [addEventListener] and [removeEventListener]: where the type has no
    entry of its own and is an inherited name, [this.listeners[type]] is not
    undefined, and [indexOf] and [forEach] are undefined on it. *)
Definition addEventListener (type : string) (listener : Listener) (s : SSE) : Completion :=
  match listeners s !! type with
  | None => if inherited type then Throws s
            else Returns (addEventListener type listener s)
  | Some _ => Returns (addEventListener type listener s)
  end.

Definition removeEventListener (type : string) (listener : Listener) (s : SSE)
  : Completion :=
  match listeners s !! type with
  | None => if inherited type then Throws s
            else Returns (removeEventListener type listener s)
  | Some _ => Returns (removeEventListener type listener s)
  end.

Definition notify (n : Notification) (x : Xhr) (s : SSE) : Completion :=
  let s := observe x s in
  match n with
  | NProgress => _onStreamProgress x s
  | NLoad => _onStreamLoaded x s
  | NReadyStateChange => _checkStreamClosed s
  | NError => _onStreamFailure x s
  | NAbort => _onStreamAbort x s
  end.

Definition step (op : Op) (s : SSE) : Completion :=
  match op with
  | OAddEventListener type l => addEventListener type l s
  | ORemoveEventListener type l => removeEventListener type l s
  | OSetHandler type (Some h) => Returns (set_handlers (<[type := h]> (handlers s)) s)
  | OSetHandler type None => Returns (set_handlers (delete type (handlers s)) s)
  | ODispatchEvent e => dispatch AtCaller e s
  | OStream => stream s
  | OClose => close s
  | ONotify n x => notify n x s
  end.

End Session.

(** [this.close] with the calls of close() that it contains nested to a
    depth: at depth 0 no call is left. *)
Fixpoint close_at (closing : Listener -> bool) (depth : nat) (s : SSE) : Completion :=
  match depth with
  | O => Throws s
  | S d => close closing (close_at closing d) s
  end.

(** Two levels are all that a call of close() needs (lemma
    [close_at_enough]): the calls inside a call that takes effect find the
    session CLOSED. *)
Definition this_close (closing : Listener -> bool) : SSE -> Completion :=
  close_at closing 2.

(** An operation on the session, with [this.close] bound. *)
Definition perform (closing : Listener -> bool) (op : Op) (s : SSE) : Completion :=
  step closing (this_close closing) op s.

(** A run: the operations one after the other; an operation that throws
    leaves the session as it was at the throw. *)
Definition run (closing : Listener -> bool) (ops : list Op) (s : SSE) : SSE :=
  fold_left (fun s op => state_of (perform closing op s)) ops s.

(** No callback calls close(). *)
Definition none : Listener -> bool := fun _ => false.

End Live.

(** ** Conditions on a session at work *)

(** [c], standing for close(), returns at once on a CLOSED session. *)
Definition returns_when_closed (c : SSE -> Completion) : Prop :=
  forall s : SSE, readyState s = CLOSED -> c s = Returns s.

(** On [s], and on [s] with more effects recorded, the callbacks that call
    close() find nothing to do. *)
Definition undisturbed (closing : Listener -> bool) (c : SSE -> Completion) (s : SSE)
  : Prop :=
  forall (t : list Effect) (l : Listener),
    closing l = true -> c (emit t s) = Returns (emit t s).

(** close() does not throw on [s]. *)
Definition closable (s : SSE) : Prop := readyState s = CLOSED \/ live s = true.

(** The events that [abort] makes the session dispatch. *)
Definition abort_dispatches (x : Xhr) : list (Site * CustomSSEEvent) :=
  if Live.in_flight x
  then [(AtCheckClosed, with_readyState CLOSED (new_CustomSSEEvent "readystatechange"));
        (AtAbort, new_CustomSSEEvent "abort")]
  else [].

(** What a call of close() that takes effect makes of [s]; [x] is the
    transport. *)
Definition closed_from (x : Xhr) (s : SSE) : SSE :=
  let s := emit [XhrAbort] s in
  let s := if Live.in_flight x then
             let s := set_xhr (Some Live.aborted) s in
             let s := _setReadyState AtCheckClosed CLOSED s in
             dispatch AtAbort (Some (new_CustomSSEEvent "abort")) s
           else s in
  _setReadyState AtClose CLOSED (set_xhr None s).

(** [s'] is [s] after callbacks were called: unchanged but for the effects
    recorded, or closed by one of the callbacks. *)
Definition called_back (s s' : SSE) : Prop :=
  exists t : list Effect,
    out s' = out s ++ t
    /\ chunk s' = chunk s /\ progress s' = progress s
    /\ ((readyState s' = readyState s /\ xhr s' = xhr s /\ dispatched t = [])
        \/ (readyState s <> CLOSED /\ readyState s' = CLOSED /\ xhr s' = None
            /\ XhrAbort ∈ t
            /\ exists x : Xhr,
                xhr s = Some x
                /\ dispatched t
                   = abort_dispatches x
                     ++ [(AtClose,
                          with_readyState CLOSED (new_CustomSSEEvent "readystatechange"))])).

(** What an operation other than stream() does to [readyState] and to the
    transport when no callback calls close(): nothing, or the session
    becomes CLOSED, or it goes from CONNECTING to OPEN. *)
Definition settles (s s' : SSE) : Prop :=
  (readyState s' = readyState s /\ live s' = live s)
  \/ (live s = true /\ readyState s' = CLOSED)
  \/ (live s = true /\ live s' = true
      /\ readyState s = CONNECTING /\ readyState s' = OPEN).

(** A listener that calls close(), registered for 'open'. *)
Definition closer : Listener := {| lid := 3; on_event := Leave |}.

Definition only_closer (l : Listener) : bool := bool_decide (l = closer).

Definition closes_on_open : SSE := addEventListener "open" closer fresh.

(** The first data notification, with one record. *)
Definition first_data : Op :=
  ONotify NProgress (receiving ("data: x" +:+ Js.LF +:+ Js.LF)).

(** A record whose type is a member name of [Object.prototype]. *)
Definition inherited_record : string :=
  "event: constructor" +:+ Js.LF +:+ "data: x".

(** ** Checks of the string primitives *)

Example split_two_records :
  Js.split Js.record_separator ("data: a" +:+ Js.LF +:+ Js.LF +:+ "data: b" +:+ Js.LF +:+ Js.LF)
  = ["data: a"; Js.LF; "data: b"; Js.LF; ""].
Proof. reflexivity. Qed.

Example split_crlf_alone :
  Js.split Js.record_separator ("a" +:+ Js.CRLF +:+ "b") = ["a"; Js.LF; "b"].
Proof. reflexivity. Qed.

Example split_empty : Js.split Js.record_separator "" = [""].
Proof. reflexivity. Qed.

Example split_lines_mixed :
  Js.split Js.line_break ("a" +:+ Js.CRLF +:+ "b" +:+ Js.CR +:+ "c" +:+ Js.LF)
  = ["a"; "b"; "c"; ""].
Proof. reflexivity. Qed.


(** ** Strings *)

Lemma append_nil_r (s : string) : s +:+ "" = s.
Proof.
  induction s as [|c s IH]; [reflexivity|].
  change (String c (s +:+ "") = String c s). now rewrite IH.
Qed.

Lemma append_assoc (a b c : string) : (a +:+ b) +:+ c = a +:+ (b +:+ c).
Proof.
  induction a as [|x a IH]; [reflexivity|].
  change (String x ((a +:+ b) +:+ c) = String x (a +:+ (b +:+ c))). now rewrite IH.
Qed.

Lemma foldr_append_app (l1 l2 : list string) :
  foldr String.append "" (l1 ++ l2) = foldr String.append "" l1 +:+ foldr String.append "" l2.
Proof.
  induction l1 as [|x l1 IH]; [reflexivity|].
  simpl. now rewrite IH, append_assoc.
Qed.

(** ** The record parser *)

Section Parser.

Local Open Scope string_scope.

Lemma in_fields_own (field : string) :
  field ∈ ["id"; "retry"; "data"; "event"] -> in_fields field = true.
Proof.
  intros H. unfold in_fields. apply bool_decide_eq_true.
  apply elem_of_app. now left.
Qed.

(** The four own names are not among the inherited ones. *)
Lemma in_fields_inherited (field : string) :
  in_fields field = true -> field ∉ ["id"; "retry"; "data"; "event"] ->
  field ∈ Object_prototype_names.
Proof.
  unfold in_fields. intros H Hn. apply bool_decide_eq_true in H.
  apply elem_of_app in H. destruct H; [contradiction | assumption].
Qed.

(** Assigning an inherited name leaves the four members as they are. *)
Lemma assign_field_other (field value : string) (e : Fields) :
  field ∉ ["id"; "retry"; "data"; "event"] -> assign_field field value e = e.
Proof.
  intros Hn. unfold assign_field.
  repeat match goal with
         | |- context [String.eqb field ?k] =>
             destruct (String.eqb_spec field k) as [->|_];
             [exfalso; apply Hn; set_solver|]
         end.
  reflexivity.
Qed.

(** One step of the loop, through the classification of the line. *)
Lemma parse_line_spec (e : Fields) (line : string) :
  parse_line FIELD_SEPARATOR e line =
  match Spec.field_of_line line with
  | None => e
  | Some (name, value) =>
      if String.eqb name "data" then assign_field "data" (f_data e +:+ value) e
      else assign_field name value e
  end.
Proof.
  unfold parse_line, Spec.field_of_line, FIELD_SEPARATOR.
  set (l := Js.trimRight line). set (index := Js.indexOf l ":").
  destruct (Z.leb_spec index 0) as [Hle|Hgt].
  - rewrite bool_decide_eq_true_2 by lia. reflexivity.
  - rewrite bool_decide_eq_false_2 by lia.
    set (field := Js.substring l 0 (Some index)).
    set (value := Js.trimLeft (Js.substring l (index + 1) None)).
    destruct (decide (field ∈ ["id"; "retry"; "data"; "event"])) as [Hin|Hout].
    + rewrite (in_fields_own _ Hin), (bool_decide_eq_true_2 _ Hin). simpl.
      destruct (String.eqb_spec field "data") as [->|_]; reflexivity.
    + rewrite (bool_decide_eq_false_2 _ Hout).
      destruct (in_fields field); simpl; [|reflexivity].
      destruct (String.eqb_spec field "data") as [Hd|_].
      * exfalso. apply Hout. rewrite Hd. set_solver.
      * now apply assign_field_other.
Qed.

(** The members of [e] after the loop, from the recognised lines. *)
Lemma fold_parse_line (lines : list string) (e : Fields) :
  let fields := omap Spec.field_of_line lines in
  let r := fold_left (parse_line FIELD_SEPARATOR) lines e in
  f_event r = default (f_event e) (last (Spec.values_of "event" fields))
  /\ f_id r = match last (Spec.values_of "id" fields) with
              | Some v => Some v
              | None => f_id e
              end
  /\ f_data r = f_data e +:+ fold_right String.append "" (Spec.values_of "data" fields).
Proof.
  cbv zeta. induction lines as [|line lines IH] using rev_ind.
  - simpl. now rewrite append_nil_r.
  - rewrite fold_left_app, omap_app. simpl.
    destruct IH as (IHe & IHi & IHd).
    rewrite parse_line_spec.
    set (fs := omap _ lines) in *.
    set (r := fold_left _ lines e) in *.
    destruct (Spec.field_of_line line) as [[name value]|] eqn:Hl.
    2: { rewrite app_nil_r. auto. }
    assert (Hname : name ∈ ["id"; "retry"; "data"; "event"]).
    { unfold Spec.field_of_line in Hl.
      destruct (bool_decide (_ ∨ _)); [discriminate|].
      destruct (decide (Js.substring (Js.trimRight line) 0
                          (Some (Js.indexOf (Js.trimRight line) ":"))
                        ∈ ["id"; "retry"; "data"; "event"])) as [Hin|Hout].
      - rewrite (bool_decide_eq_true_2 _ Hin) in Hl. now inversion Hl; subst.
      - rewrite (bool_decide_eq_false_2 _ Hout) in Hl. discriminate. }
    assert (Hcases : name = "id" \/ name = "retry" \/ name = "data" \/ name = "event").
    { rewrite !elem_of_cons, elem_of_nil in Hname. tauto. }
    unfold Spec.values_of in *. rewrite !filter_app, !map_app.
    rewrite foldr_append_app.
    destruct Hcases as [-> | [-> | [-> | ->]]]; vm_compute filter at 2 4 6;
      simpl; rewrite ?app_nil_r, ?last_snoc, ?append_nil_r; simpl.
      all: rewrite ?IHd, ?append_assoc; auto.
Qed.

End Parser.

(** ** dispatchEvent *)

Section Dispatch.

Lemma invoke_type (l : Listener) (e : CustomSSEEvent) :
  ev_type (invoke l e) = ev_type e.
Proof. unfold invoke. now destruct (on_event l). Qed.

(** [every] calls exactly the listeners of [delivered], and answers
    whether none of them left the event default-prevented. *)
Lemma every_callback_delivered (ls : list Listener) (e : CustomSSEEvent) :
  called (fst (fst (every_callback ls e))) = delivered ls e
  /\ snd (every_callback ls e) = bool_decide (first_prevented ls e = None).
Proof.
  unfold delivered, first_prevented.
  revert e. induction ls as [|l ls IH]; intros e; simpl.
  - split; reflexivity.
  - specialize (IH (invoke l e)).
    destruct (ev_defaultPrevented (invoke l e)) eqn:Hp; simpl.
    + rewrite take_0. split; reflexivity.
    + destruct (every_callback ls (invoke l e)) as [[t e''] b]. simpl in *.
      destruct IH as [IHc IHb]. rewrite IHc, IHb.
      destruct (list_find _ (events_after ls (invoke l e))) as [[k e1]|]; simpl;
        split; reflexivity.
Qed.

Lemma dispatch_out (site : Site) (e : CustomSSEEvent) (s : SSE) :
  dispatchEvent site (Some e) s
  = (emit (Dispatch site e :: fst (dispatchEvent_calls s e)) s,
     snd (dispatchEvent_calls s e)).
Proof. unfold dispatchEvent. now destruct (dispatchEvent_calls s e). Qed.

End Dispatch.

(** C3, as the code has it: when [dispatchEvent] reaches the listeners of
    the event's type (there is no handler for the type, or the handler left
    the event not default-prevented), it calls them in registration order,
    each once, up to and including the first listener that leaves the event
    default-prevented; the listeners after that one are not called.  The
    result is true exactly when no listener called left the event
    default-prevented. *)
Theorem C3_listeners_called_until_prevented
    (site : Site) (e : CustomSSEEvent) (s : SSE) (ls : list Listener) :
  listeners s !! ev_type e = Some ls ->
  ev_defaultPrevented (after_handler s e) = false \/ handlers s !! ev_type e = None ->
  exists t,
    fst (dispatchEvent site (Some e) s)
      = emit (Dispatch site e :: handler_call s e ++ t) s
    /\ called t = delivered ls (after_handler s e)
    /\ snd (dispatchEvent site (Some e) s)
       = bool_decide (first_prevented ls (after_handler s e) = None).
Proof.
  intros Hls Hh. rewrite dispatch_out. simpl.
  unfold dispatchEvent_calls, after_handler, handler_call in *.
  destruct (handlers s !! ev_type e) as [h|] eqn:Hhd.
  - destruct Hh as [Hh|Hh]; [|discriminate]. rewrite Hh. simpl.
    rewrite invoke_type, Hls.
    pose proof (every_callback_delivered ls (invoke h e)) as [Hc Hb].
    destruct (every_callback ls (invoke h e)) as [[t e'] b]. simpl in *.
    exists t. auto.
  - simpl. rewrite Hls.
    pose proof (every_callback_delivered ls e) as [Hc Hb].
    destruct (every_callback ls e) as [[t e'] b]. simpl in *.
    exists t. auto.
Qed.

Lemma C3_witness :
  exists t,
    fst (dispatchEvent AtCaller (Some (message "message" None "x")) two_listeners)
      = emit (Dispatch AtCaller (message "message" None "x")
                :: handler_call two_listeners (message "message" None "x") ++ t)
             two_listeners
    /\ called t = delivered [preventing; passive]
                    (after_handler two_listeners (message "message" None "x"))
    /\ snd (dispatchEvent AtCaller (Some (message "message" None "x")) two_listeners)
       = bool_decide (first_prevented [preventing; passive]
                        (after_handler two_listeners (message "message" None "x")) = None).
Proof.
  apply (C3_listeners_called_until_prevented AtCaller (message "message" None "x")
           two_listeners [preventing; passive]).
  - vm_compute. reflexivity.
  - right. vm_compute. reflexivity.
Defined.

(** C3 as the specification states it fails: with two listeners registered
    for 'message', of which the first sets [defaultPrevented], the second
    is registered and is not called. *)
Lemma C3_counterexample :
  listeners two_listeners !! "message" = Some [preventing; passive]
  /\ handlers two_listeners !! "message" = None
  /\ called (out (fst (dispatchEvent AtCaller (Some (message "message" None "x"))
                         two_listeners)))
     = [preventing]
  /\ snd (dispatchEvent AtCaller (Some (message "message" None "x")) two_listeners) = false.
Proof. vm_compute. repeat split; reflexivity. Qed.

(** ** The constructor *)

(** C10: without an options object (the argument omitted, or null) the
    constructor throws; the defaults are applied to the members that an
    options object leaves out: no headers, the empty string as payload, POST
    when the payload is truthy and GET otherwise, no credentials. *)
Theorem C10_constructor_needs_options (u : string) :
  new_SSE u Omitted = TypeError
  /\ new_SSE u Null = TypeError
  /\ (forall o : SSEOptions, exists s : SSE,
        new_SSE u (Given o) = Constructed s
        /\ headers s = default [] (opt_headers o)
        /\ payload s = default (PString "") (opt_payload o)
        /\ method s = default (if truthy (payload s) then POST else GET) (opt_method o)
        /\ withCredentials s = default false (opt_withCredentials o)
        /\ xhr s = None /\ readyState s = INITIALIZING)
  /\ (exists s : SSE,
        new_SSE u (Given no_options) = Constructed s
        /\ headers s = [] /\ payload s = PString "" /\ method s = GET
        /\ withCredentials s = false).
Proof.
  repeat split.
  - intros o. exists (construct u o). simpl.
    destruct (opt_headers o), (opt_payload o), (opt_method o), (opt_withCredentials o);
      repeat split; reflexivity.
  - exists (construct u no_options). repeat split; reflexivity.
Qed.

(** ** close before stream *)

(** C9 fails on the code: on a session on which stream() has not been
    called, [this.xhr] is null and [readyState] is INITIALIZING, so close()
    reaches [this.xhr.abort()] and throws. *)
Theorem C9_close_before_stream_throws (u : string) (o : SSEOptions) :
  close (construct u o) = Throws (construct u o)
  /\ step OClose (construct u o) = Throws (construct u o).
Proof. split; reflexivity. Qed.

(** ** Delivery in pieces *)

(** C1 fails on the code: cut between the two line breaks that end the
    first record, two records are dispatched as one event whose data is
    "ab"; delivered whole, they are dispatched as two events. *)
Theorem C1_cut_at_boundary_merges_records :
  whole two_records_cut = whole two_records_whole
  /\ record_events (run (deliver true two_records_whole) fresh)
     = [message "message" None "a"; message "message" None "b"]
  /\ record_events (run (deliver true two_records_cut) fresh)
     = [message "message" None "ab"]
  /\ record_events (run (deliver false two_records_cut) fresh)
     = [message "message" None "ab"].
Proof. vm_compute. repeat split; reflexivity. Qed.

(** A piece of white space only is taken for a record boundary: the record
    is dispatched early, without the rest of its data, and the rest is
    dispatched as a record of its own. *)
Example blank_piece_cuts_a_record :
  whole spaced_record_cut = whole spaced_record_whole
  /\ record_events (run (deliver true spaced_record_whole) fresh)
     = [message "message" None "a b"]
  /\ record_events (run (deliver true spaced_record_cut) fresh)
     = [message "message" None "a"; message "message" None ""].
Proof. vm_compute. repeat split; reflexivity. Qed.

(** The second example of the specification: a cut inside a value is
    harmless. *)
Example cut_inside_a_value :
  record_events (run (deliver true ["data: he"; "llo" +:+ Js.LF +:+ Js.LF]) fresh)
  = record_events (run (deliver true ["data: hello" +:+ Js.LF +:+ Js.LF]) fresh).
Proof. vm_compute. reflexivity. Qed.

(** ** What the operations change *)

Section Frame.

Lemma emit_nil (s : SSE) : emit [] s = s.
Proof. destruct s. unfold emit. simpl. now rewrite app_nil_r. Qed.

Lemma dispatch_emit (site : Site) (e : option CustomSSEEvent) (s : SSE) :
  dispatch site e s = emit (dispatch_effects site e s) s.
Proof.
  unfold dispatch. destruct e as [e|]; simpl.
  - now destruct (dispatchEvent_calls s e).
  - now rewrite emit_nil.
Qed.

Lemma dispatched_app (t1 t2 : list Effect) :
  dispatched (t1 ++ t2) = dispatched t1 ++ dispatched t2.
Proof. apply omap_app. Qed.

Lemma dispatched_every_callback (ls : list Listener) (e : CustomSSEEvent) :
  dispatched (fst (fst (every_callback ls e))) = [].
Proof.
  revert e. induction ls as [|l ls IH]; intros e; simpl; [reflexivity|].
  destruct (ev_defaultPrevented (invoke l e)); [reflexivity|].
  specialize (IH (invoke l e)).
  now destruct (every_callback ls (invoke l e)) as [[t e''] b].
Qed.

Lemma dispatched_calls (s : SSE) (e : CustomSSEEvent) :
  dispatched (fst (dispatchEvent_calls s e)) = [].
Proof.
  unfold dispatchEvent_calls.
  destruct (handlers s !! ev_type e) as [h|]; simpl.
  - destruct (ev_defaultPrevented (invoke h e)); [reflexivity|].
    destruct (listeners s !! ev_type (invoke h e)) as [ls|]; [|reflexivity].
    pose proof (dispatched_every_callback ls (invoke h e)) as H.
    now destruct (every_callback ls (invoke h e)) as [[t e''] b].
  - destruct (listeners s !! ev_type e) as [ls|]; [|reflexivity].
    pose proof (dispatched_every_callback ls e) as H.
    now destruct (every_callback ls e) as [[t e''] b].
Qed.

(** A dispatch adds itself, and nothing else, to the dispatches. *)
Lemma dispatched_dispatch (site : Site) (e : option CustomSSEEvent) (s : SSE) :
  dispatched (out (dispatch site e s))
  = dispatched (out s) ++ match e with Some e => [(site, e)] | None => [] end.
Proof.
  rewrite dispatch_emit. simpl. rewrite dispatched_app. f_equal.
  destruct e as [e|]; simpl; [|reflexivity].
  now rewrite dispatched_calls.
Qed.

Lemma sites_dispatch (site : Site) (e : option CustomSSEEvent) (s : SSE) :
  sites (dispatch site e s)
  = sites s ++ match e with Some _ => [site] | None => [] end.
Proof.
  unfold sites. rewrite dispatched_dispatch, map_app. now destruct e.
Qed.

Lemma readyState_dispatch site e s : readyState (dispatch site e s) = readyState s.
Proof. now rewrite dispatch_emit. Qed.
Lemma xhr_dispatch site e s : xhr (dispatch site e s) = xhr s.
Proof. now rewrite dispatch_emit. Qed.
Lemma chunk_dispatch site e s : chunk (dispatch site e s) = chunk s.
Proof. now rewrite dispatch_emit. Qed.
Lemma progress_dispatch site e s : progress (dispatch site e s) = progress s.
Proof. now rewrite dispatch_emit. Qed.
Lemma listeners_dispatch site e s : listeners (dispatch site e s) = listeners s.
Proof. now rewrite dispatch_emit. Qed.
Lemma handlers_dispatch site e s : handlers (dispatch site e s) = handlers s.
Proof. now rewrite dispatch_emit. Qed.

Lemma sites_setReadyState site st s :
  sites (_setReadyState site st s) = sites s ++ [site].
Proof. unfold _setReadyState. now rewrite sites_dispatch. Qed.
Lemma readyState_setReadyState site st s : readyState (_setReadyState site st s) = st.
Proof. unfold _setReadyState. now rewrite readyState_dispatch. Qed.
Lemma xhr_setReadyState site st s : xhr (_setReadyState site st s) = xhr s.
Proof. unfold _setReadyState. now rewrite xhr_dispatch. Qed.
Lemma chunk_setReadyState site st s : chunk (_setReadyState site st s) = chunk s.
Proof. unfold _setReadyState. now rewrite chunk_dispatch. Qed.
Lemma progress_setReadyState site st s : progress (_setReadyState site st s) = progress s.
Proof. unfold _setReadyState. now rewrite progress_dispatch. Qed.
Lemma listeners_setReadyState site st s :
  listeners (_setReadyState site st s) = listeners s.
Proof. unfold _setReadyState. now rewrite listeners_dispatch. Qed.
Lemma handlers_setReadyState site st s :
  handlers (_setReadyState site st s) = handlers s.
Proof. unfold _setReadyState. now rewrite handlers_dispatch. Qed.

Lemma live_dispatch site e s : live (dispatch site e s) = live s.
Proof. unfold live. now rewrite xhr_dispatch. Qed.
Lemma live_setReadyState site st s : live (_setReadyState site st s) = live s.
Proof. unfold live. now rewrite xhr_setReadyState. Qed.
Lemma live_emit t s : live (emit t s) = live s.
Proof. reflexivity. Qed.
Lemma live_set_chunk v s : live (set_chunk v s) = live s.
Proof. reflexivity. Qed.
Lemma live_set_progress v s : live (set_progress v s) = live s.
Proof. reflexivity. Qed.
Lemma live_set_readyState v s : live (set_readyState v s) = live s.
Proof. reflexivity. Qed.
Lemma live_set_listeners v s : live (set_listeners v s) = live s.
Proof. reflexivity. Qed.
Lemma live_set_handlers v s : live (set_handlers v s) = live s.
Proof. reflexivity. Qed.

Lemma sites_emit (t : list Effect) (s : SSE) :
  sites (emit t s) = sites s ++ map fst (dispatched t).
Proof. unfold sites. simpl. now rewrite dispatched_app, map_app. Qed.
Lemma sites_set_xhr v s : sites (set_xhr v s) = sites s.
Proof. reflexivity. Qed.
Lemma sites_set_chunk v s : sites (set_chunk v s) = sites s.
Proof. reflexivity. Qed.
Lemma sites_set_progress v s : sites (set_progress v s) = sites s.
Proof. reflexivity. Qed.
Lemma sites_set_readyState v s : sites (set_readyState v s) = sites s.
Proof. reflexivity. Qed.
Lemma sites_set_listeners v s : sites (set_listeners v s) = sites s.
Proof. reflexivity. Qed.
Lemma sites_set_handlers v s : sites (set_handlers v s) = sites s.
Proof. reflexivity. Qed.

End Frame.

Create Rewrite HintDb sse.

#[local] Hint Rewrite sites_dispatch readyState_dispatch xhr_dispatch chunk_dispatch
  progress_dispatch listeners_dispatch handlers_dispatch
  sites_setReadyState readyState_setReadyState xhr_setReadyState chunk_setReadyState
  progress_setReadyState listeners_setReadyState handlers_setReadyState
  sites_emit sites_set_xhr sites_set_chunk sites_set_progress sites_set_readyState
  sites_set_listeners sites_set_handlers
  live_dispatch live_setReadyState live_emit live_set_chunk live_set_progress
  live_set_readyState live_set_listeners live_set_handlers : sse.

(** ** Every operation as a sequence of moves *)

Section Moves.

Lemma move_same (s s' : SSE) :
  readyState s' = readyState s -> live s' = live s -> chunk s' = chunk s ->
  sites s' = sites s -> move s s'.
Proof.
  intros. apply (move_quiet s s' []); auto. now rewrite app_nil_r.
Qed.

Lemma parts_summary (parts : list string) (s : SSE) :
  readyState (fold_left on_part parts s) = readyState s
  /\ xhr (fold_left on_part parts s) = xhr s
  /\ progress (fold_left on_part parts s) = progress s
  /\ exists n, sites (fold_left on_part parts s) = sites s ++ replicate n AtRecord.
Proof.
  revert s. induction parts as [|part parts IH]; intros s; simpl.
  - repeat split. exists 0%nat. simpl. now rewrite app_nil_r.
  - destruct (IH (on_part s part)) as (Hr & Hx & Hp & n & Hs).
    rewrite Hr, Hx, Hp, Hs. unfold on_part.
    destruct (Js.length (Js.trim part) =? 0); simpl.
    + autorewrite with sse. repeat split.
      destruct (_parseEventChunk (Js.trim (chunk s))).
      * exists (S n). now rewrite <- app_assoc.
      * exists n. now rewrite app_nil_r.
    + repeat split. exists n. reflexivity.
Qed.

Lemma close_moves (s : SSE) : rtc move s (state_of (close s)).
Proof.
  unfold close. destruct (Z.eqb_spec (readyState s) CLOSED) as [Hc|Hc]; simpl.
  - apply rtc_refl.
  - destruct (xhr s) as [x|] eqn:Hx; simpl; [|apply rtc_refl].
    apply rtc_once. apply move_close; autorewrite with sse; simpl; auto.
    all: try (unfold live; now rewrite Hx).
    now rewrite app_nil_r.
Qed.

Lemma dispatch_moves (site : Site) (e : option CustomSSEEvent) (s : SSE) :
  is_quiet_site site = true -> rtc move s (dispatch site e s).
Proof.
  intros Hq. apply rtc_once.
  apply (move_quiet _ _ (match e with Some _ => [site] | None => [] end));
    autorewrite with sse; auto.
  destruct e; simpl; [now rewrite Hq | reflexivity].
Qed.

Lemma failure_moves (e : Xhr) (s : SSE) : rtc move s (state_of (_onStreamFailure e s)).
Proof.
  unfold _onStreamFailure.
  eapply rtc_trans; [apply dispatch_moves | apply close_moves]. reflexivity.
Qed.

Lemma abort_moves (e : Xhr) (s : SSE) : rtc move s (state_of (_onStreamAbort e s)).
Proof.
  unfold _onStreamAbort.
  eapply rtc_trans; [apply dispatch_moves | apply close_moves]. reflexivity.
Qed.

Lemma progress_moves (e : Xhr) (s : SSE) :
  rtc move s (state_of (_onStreamProgress e s)).
Proof.
  unfold _onStreamProgress. destruct (xhr s) as [x|] eqn:Hx; [|apply rtc_refl].
  destruct (status x =? 200); simpl; [|apply failure_moves].
  set (s1 := if readyState s =? CONNECTING then _ else s).
  assert (H1 : readyState s1 = (if readyState s =? CONNECTING then OPEN else readyState s)
               /\ xhr s1 = xhr s
               /\ sites s1 = sites s ++ (if readyState s =? CONNECTING
                                          then [AtOpen; AtSetOpen] else [])).
  { subst s1. destruct (readyState s =? CONNECTING); autorewrite with sse; simpl.
    - now rewrite <- app_assoc.
    - now rewrite app_nil_r. }
  clearbody s1. destruct H1 as (Hr1 & Hx1 & Hs1).
  match goal with |- context [fold_left on_part ?p ?s0] =>
    destruct (parts_summary p s0) as (Hr & Hxx & _ & n & Hs) end.
  apply rtc_once. apply (move_data _ _ n).
  - unfold live. now rewrite Hx.
  - unfold live. rewrite Hxx. simpl. now rewrite Hx1, Hx.
  - rewrite Hr. simpl. exact Hr1.
  - rewrite Hs. autorewrite with sse. rewrite Hs1. now rewrite <- app_assoc.
Qed.

Lemma progress_returns (e : Xhr) (s : SSE) :
  _onStreamProgress e s = Returns (state_of (_onStreamProgress e s)).
Proof.
  unfold _onStreamProgress. destruct (xhr s) as [x|] eqn:Hx; [|reflexivity].
  destruct (status x =? 200); simpl; [reflexivity|].
  unfold _onStreamFailure, close. autorewrite with sse. rewrite Hx.
  now destruct (readyState s =? CLOSED).
Qed.

Lemma flush_moves (s : SSE) :
  rtc move s (set_chunk "" (dispatch AtLastChunk (_parseEventChunk (chunk s)) s)).
Proof.
  apply rtc_once. apply move_flush; simpl; autorewrite with sse; auto.
  unfold _parseEventChunk.
    now destruct (String.eqb (chunk s) "").
Qed.

Lemma loaded_moves (e : Xhr) (s : SSE) : rtc move s (state_of (_onStreamLoaded e s)).
Proof.
  unfold _onStreamLoaded. rewrite progress_returns. simpl.
  eapply rtc_trans; [apply progress_moves | apply flush_moves].
Qed.

Lemma observe_moves (x : Xhr) (s : SSE) : rtc move s (observe x s).
Proof.
  apply rtc_once. apply move_same; unfold observe, live;
    destruct (xhr s) eqn:Hx; simpl; rewrite ?Hx; reflexivity.
Qed.

Lemma addEventListener_moves type l s : rtc move s (addEventListener type l s).
Proof.
  apply rtc_once. apply move_same; unfold addEventListener, live;
    destruct (listeners s !! type); simpl;
    repeat match goal with |- context [bool_decide ?P] =>
             destruct (bool_decide P) end; reflexivity.
Qed.

Lemma removeEventListener_moves type l s : rtc move s (removeEventListener type l s).
Proof.
  apply rtc_once. apply move_same; unfold removeEventListener, live;
    destruct (listeners s !! type) as [ls|]; simpl; try reflexivity;
    destruct (filter _ ls); reflexivity.
Qed.

(** Every operation except stream() and a readystatechange notification. *)
Lemma step_moves (op : Op) (s : SSE) :
  is_stream op = false ->
  (forall x, op <> ONotify NReadyStateChange x) ->
  rtc move s (state_of (step op s)).
Proof.
  intros Hs Hn. destruct op as [type l|type l|type [h|]|e| | |n x]; simpl in *.
  - apply addEventListener_moves.
  - apply removeEventListener_moves.
  - apply rtc_once. now apply move_same.
  - apply rtc_once. now apply move_same.
  - now apply dispatch_moves.
  - discriminate.
  - apply close_moves.
  - unfold notify.
    eapply rtc_trans; [apply (observe_moves x)|].
    destruct n.
    + apply progress_moves.
    + apply loaded_moves.
    + now destruct (Hn x).
    + apply failure_moves.
    + apply abort_moves.
Qed.

End Moves.

(** ** Counting and ordering the dispatches *)

Section Sites.

Lemma count_app (x : Site) (l1 l2 : list Site) :
  count x (l1 ++ l2) = (count x l1 + count x l2)%nat.
Proof. unfold count. now rewrite filter_app, length_app. Qed.

Lemma count_replicate_ne (x y : Site) (n : nat) :
  x <> y -> count x (replicate n y) = 0%nat.
Proof.
  intros Hne. unfold count. induction n as [|n IH]; simpl; [reflexivity|].
  rewrite filter_cons. destruct (decide (y = x)); [congruence | exact IH].
Qed.

Lemma count_quiet (x : Site) (l : list Site) :
  is_quiet_site x = false -> forallb is_quiet_site l = true -> count x l = 0%nat.
Proof.
  intros Hx. unfold count. induction l as [|y l IH]; simpl; [reflexivity|].
  intros [Hy Hl]%andb_true_iff. rewrite filter_cons.
  destruct (decide (y = x)) as [->|_]; [congruence | auto].
Qed.

Lemma records_after_open_nil : records_after_open [].
Proof. intros before after x H. now destruct before. Qed.

(** Dispatches that are not of records keep the order. *)
Lemma records_after_open_app (l l' : list Site) :
  records_after_open l -> forallb (fun x => negb (is_record_site x)) l' = true ->
  records_after_open (l ++ l').
Proof.
  intros Hl Hl' before after x Heq Hx.
  assert (Hnot : x ∉ l').
  { intros Hin. rewrite forallb_forall in Hl'.
    apply list_elem_of_In, Hl' in Hin. now rewrite Hx in Hin. }
  apply app_eq_inv in Heq as [(k & -> & Hk) | (k & -> & Hk)].
  - destruct k as [|y k]; simpl in Hk.
    + exfalso. apply Hnot. rewrite <- Hk. left.
    + injection Hk as Hxy Hafter. subst y. now apply (Hl before k x).
  - exfalso. apply Hnot. rewrite Hk. apply elem_of_app. right. left.
Qed.

(** Once 'open' has been dispatched, anything may follow. *)
Lemma records_after_open_opened (l l' : list Site) :
  records_after_open l -> AtOpen ∈ l -> records_after_open (l ++ l').
Proof.
  intros Hl Hopen before after x Heq Hx.
  apply app_eq_inv in Heq as [(k & -> & Hk) | (k & -> & Hk)].
  - destruct k as [|y k]; simpl in Hk.
    + now rewrite app_nil_r in Hopen.
    + injection Hk as Hxy Hafter. subst y. now apply (Hl before k x).
  - apply elem_of_app. now left.
Qed.

Lemma quiet_not_record (l : list Site) :
  forallb is_quiet_site l = true ->
  forallb (fun x => negb (is_record_site x)) l = true.
Proof.
  induction l as [|x l IH]; simpl; [reflexivity|].
  intros [Hx Hl]%andb_true_iff. rewrite IH by assumption.
  now destruct x.
Qed.

End Sites.

(** ** Invariants of the moves *)

Section Invariants.

Lemma move_open_budget (s s' : SSE) : move s s' -> (open_budget s' <= open_budget s)%nat.
Proof.
  unfold open_budget.
  intros [l Hr Hl Hc Hs Hq | Hn Hl Hr Hl' Hc Hs | n Hl Hl' Hr Hs | Hr Hl Hc Hs];
    rewrite Hs, Hr, !count_app.
  - rewrite (count_quiet AtOpen l) by auto. lia.
  - change (count AtOpen [AtClose]) with 0%nat. simpl.
    destruct (readyState s =? CONNECTING); lia.
  - rewrite (count_replicate_ne AtOpen AtRecord) by discriminate.
    destruct (readyState s =? CONNECTING) eqn:Hcn.
    + change (count AtOpen [AtOpen; AtSetOpen]) with 1%nat. simpl. lia.
    + rewrite Hcn. change (count AtOpen []) with 0%nat. lia.
  - destruct (String.eqb (chunk s) "").
    + change (count AtOpen []) with 0%nat. lia.
    + change (count AtOpen [AtLastChunk]) with 0%nat. lia.
Qed.

Lemma move_close_budget (s s' : SSE) :
  move s s' -> (close_budget s' <= close_budget s)%nat.
Proof.
  unfold close_budget.
  intros [l Hr Hl Hc Hs Hq | Hn Hl Hr Hl' Hc Hs | n Hl Hl' Hr Hs | Hr Hl Hc Hs];
    rewrite Hs, ?Hl', ?Hl, !count_app.
  - rewrite (count_quiet AtClose l) by auto. lia.
  - change (count AtClose [AtClose]) with 1%nat. lia.
  - rewrite (count_replicate_ne AtClose AtRecord) by discriminate.
    destruct (readyState s =? CONNECTING).
    + change (count AtClose [AtOpen; AtSetOpen]) with 0%nat. lia.
    + change (count AtClose []) with 0%nat. lia.
  - destruct (String.eqb (chunk s) "").
    + change (count AtClose []) with 0%nat. lia.
    + change (count AtClose [AtLastChunk]) with 0%nat. lia.
Qed.

(** Before stream(): INITIALIZING and no transport. *)
Lemma move_initializing (s s' : SSE) :
  move s s' -> readyState s = INITIALIZING /\ live s = false ->
  readyState s' = INITIALIZING /\ live s' = false.
Proof.
  intros [l Hr Hl Hc Hs Hq | Hn Hl Hr Hl' Hc Hs | n Hl Hl' Hr Hs | Hr Hl Hc Hs]
         [Hi Hd]; try congruence.
  all: now rewrite Hr, Hl.
Qed.

Lemma move_closed (s s' : SSE) :
  move s s' -> readyState s = CLOSED -> readyState s' = CLOSED.
Proof.
  intros [l Hr Hl Hc Hs Hq | Hn Hl Hr Hl' Hc Hs | n Hl Hl' Hr Hs | Hr Hl Hc Hs] Hcl;
    try congruence.
  rewrite Hr, Hcl. reflexivity.
Qed.

Lemma move_opened_before_data (s s' : SSE) :
  move s s' -> opened_before_data s -> opened_before_data s'.
Proof.
  unfold opened_before_data.
  intros [l Hr Hl Hc Hs Hq | Hn Hl Hr Hl' Hc Hs | n Hl Hl' Hr Hs | Hr Hl Hc Hs]
         (Ho & Hk & Hch); rewrite Hs.
  - rewrite Hr, Hl, Hc. repeat split.
    + apply records_after_open_app; auto using quiet_not_record.
    + intros H. destruct (Hk H); [now left | right; apply elem_of_app; now left].
    + intros H. apply elem_of_app. left. auto.
  - rewrite Hl', Hc. repeat split.
    + now apply records_after_open_app.
    + discriminate.
    + intros H. apply elem_of_app. left. auto.
  - assert (Hopen : AtOpen ∈ sites s ++ (if readyState s =? CONNECTING
                                           then [AtOpen; AtSetOpen] else [])).
    { destruct (Z.eqb_spec (readyState s) CONNECTING) as [Hcn|Hcn].
      - apply elem_of_app. right. left.
      - rewrite app_nil_r. destruct (Hk Hl); [contradiction | assumption]. }
    rewrite app_assoc. repeat split.
    + apply records_after_open_opened; [|assumption].
      apply records_after_open_app; [assumption|].
      now destruct (readyState s =? CONNECTING).
    + intros _. right. apply elem_of_app. now left.
    + intros _. apply elem_of_app. now left.
  - rewrite Hr, Hl, Hc. repeat split.
    + destruct (String.eqb_spec (chunk s) "") as [He|He].
      * now rewrite app_nil_r.
      * apply records_after_open_opened; auto.
    + intros H. destruct (Hk H); [now left | right; apply elem_of_app; now left].
    + congruence.
Qed.

(** The invariants along a sequence of moves. *)
Lemma moves_preserve (P : SSE -> Prop) :
  (forall s s', move s s' -> P s -> P s') ->
  forall s s', rtc move s s' -> P s -> P s'.
Proof. intros Hstep s s' Hrtc. induction Hrtc; eauto. Qed.

Lemma moves_open_budget (s s' : SSE) :
  rtc move s s' -> (open_budget s' <= open_budget s)%nat.
Proof.
  intros H. induction H as [|s s1 s' Hm _ IH]; [lia|].
  apply move_open_budget in Hm. lia.
Qed.

Lemma moves_close_budget (s s' : SSE) :
  rtc move s s' -> (close_budget s' <= close_budget s)%nat.
Proof.
  intros H. induction H as [|s s1 s' Hm _ IH]; [lia|].
  apply move_close_budget in Hm. lia.
Qed.

End Invariants.

(** ** stream() and the readystatechange notification *)

Section Steps.

Lemma emit_emit (t1 t2 : list Effect) (s : SSE) : emit t2 (emit t1 s) = emit (t1 ++ t2) s.
Proof. unfold emit. simpl. now rewrite app_assoc. Qed.

Lemma set_headers_emit (hs : list (string * string)) (s : SSE) :
  fold_left (fun s header => emit [XhrSetRequestHeader (fst header) (snd header)] s) hs s
  = emit (map (fun header => XhrSetRequestHeader (fst header) (snd header)) hs) s.
Proof.
  revert s. induction hs as [|h hs IH]; intros s; simpl.
  - now rewrite emit_nil.
  - now rewrite IH, emit_emit.
Qed.

Lemma dispatched_set_headers (hs : list (string * string)) :
  dispatched (map (fun header => XhrSetRequestHeader (fst header) (snd header)) hs) = [].
Proof. induction hs as [|h hs IH]; [reflexivity | exact IH]. Qed.

Lemma stream_summary (s : SSE) :
  readyState (stream s) = CONNECTING
  /\ xhr (stream s) = Some new_XMLHttpRequest
  /\ chunk (stream s) = chunk s
  /\ progress (stream s) = progress s
  /\ listeners (stream s) = listeners s
  /\ handlers (stream s) = handlers s
  /\ dispatched (out (stream s))
     = dispatched (out s)
       ++ [(AtStream, with_readyState CONNECTING (new_CustomSSEEvent "readystatechange"))].
Proof.
  unfold stream. rewrite set_headers_emit. simpl.
  autorewrite with sse. repeat split.
  rewrite !dispatched_app, dispatched_set_headers. simpl. rewrite !app_nil_r.
  unfold _setReadyState. now rewrite dispatched_dispatch.
Qed.

Lemma sites_stream (s : SSE) : sites (stream s) = sites s ++ [AtStream].
Proof.
  unfold sites. destruct (stream_summary s) as (_ & _ & _ & _ & _ & _ & ->).
  now rewrite map_app.
Qed.

Lemma live_stream (s : SSE) : live (stream s) = true.
Proof. unfold live. now destruct (stream_summary s) as (_ & -> & _). Qed.

(** The readystatechange notification: either the session holds the
    transport and the transport is DONE, and the session becomes CLOSED
    and keeps the transport, or nothing changes but what the session sees
    of the transport. *)
Lemma check_summary (x : Xhr) (s : SSE) :
  let s' := _checkStreamClosed (observe x s) in
  (live s = true /\ xhr_readyState x = DONE /\ readyState s' = CLOSED /\ live s' = true
   /\ chunk s' = chunk s /\ sites s' = sites s ++ [AtCheckClosed])
  \/ (readyState s' = readyState s /\ live s' = live s /\ chunk s' = chunk s
      /\ sites s' = sites s).
Proof.
  unfold _checkStreamClosed, observe, live. destruct (xhr s) as [x0|] eqn:Hx; simpl.
  - destruct (Z.eqb_spec (xhr_readyState x) DONE) as [Hd|Hd].
    + left. autorewrite with sse. simpl. repeat split; auto.
    + right. simpl. repeat split; auto.
  - rewrite Hx. right. rewrite Hx. repeat split; auto.
Qed.

Lemma op_cases (op : Op) :
  op = OStream
  \/ (exists x, op = ONotify NReadyStateChange x)
  \/ (is_stream op = false /\ forall x, op <> ONotify NReadyStateChange x).
Proof.
  destruct op as [type l|type l|type h|e| | |[] x]; eauto;
    right; right; split; try reflexivity; intros; discriminate.
Qed.

Lemma step_open_budget (op : Op) (s : SSE) :
  (open_budget (state_of (step op s))
   <= open_budget s + (if is_stream op then 1 else 0))%nat.
Proof.
  destruct (op_cases op) as [-> | [[x ->] | [Hs Hn]]].
  - simpl. unfold open_budget. rewrite sites_stream, count_app.
    destruct (stream_summary s) as (-> & _).
    change (count AtOpen [AtStream]) with 0%nat. simpl.
    destruct (readyState s =? CONNECTING); lia.
  - simpl. unfold notify, open_budget. simpl.
    destruct (check_summary x s) as [(_ & _ & Hr & _ & _ & Hsi) | (Hr & _ & _ & Hsi)];
      rewrite Hr, Hsi.
    + rewrite count_app. change (count AtOpen [AtCheckClosed]) with 0%nat. simpl.
      destruct (readyState s =? CONNECTING); lia.
    + lia.
  - rewrite Hs. pose proof (moves_open_budget _ _ (step_moves op s Hs Hn)). lia.
Qed.

Lemma step_close_budget (op : Op) (s : SSE) :
  (close_budget (state_of (step op s))
   <= close_budget s + (if is_stream op then 1 else 0))%nat.
Proof.
  destruct (op_cases op) as [-> | [[x ->] | [Hs Hn]]].
  - simpl. unfold close_budget. rewrite sites_stream, count_app, live_stream.
    change (count AtClose [AtStream]) with 0%nat. destruct (live s); lia.
  - simpl. unfold notify, close_budget. simpl.
    destruct (check_summary x s) as [(Hl & _ & _ & Hl' & _ & Hsi) | (_ & Hl & _ & Hsi)];
      rewrite ?Hl', ?Hl, Hsi.
    + rewrite count_app. change (count AtClose [AtCheckClosed]) with 0%nat. lia.
    + lia.
  - rewrite Hs. pose proof (moves_close_budget _ _ (step_moves op s Hs Hn)). lia.
Qed.

Lemma run_cons (op : Op) (ops : list Op) (s : SSE) :
  run (op :: ops) s = run ops (state_of (step op s)).
Proof. reflexivity. Qed.

Lemma run_app (ops1 ops2 : list Op) (s : SSE) :
  run (ops1 ++ ops2) s = run ops2 (run ops1 s).
Proof. unfold run. apply fold_left_app. Qed.

Lemma streams_cons (op : Op) (ops : list Op) :
  streams (op :: ops) = ((if is_stream op then 1 else 0) + streams ops)%nat.
Proof. unfold streams. simpl. now destruct (is_stream op). Qed.

Lemma streams_app (ops1 ops2 : list Op) :
  streams (ops1 ++ ops2) = (streams ops1 + streams ops2)%nat.
Proof. unfold streams. now rewrite List.filter_app, length_app. Qed.

Lemma streams_closes (n : nat) : streams (replicate n OClose) = 0%nat.
Proof. induction n as [|n IH]; [reflexivity | exact IH]. Qed.

Lemma run_open_budget (ops : list Op) (s : SSE) :
  (open_budget (run ops s) <= open_budget s + streams ops)%nat.
Proof.
  revert s. induction ops as [|op ops IH]; intros s.
  - simpl. lia.
  - rewrite run_cons, streams_cons.
    pose proof (IH (state_of (step op s))). pose proof (step_open_budget op s). lia.
Qed.

Lemma run_close_budget (ops : list Op) (s : SSE) :
  (close_budget (run ops s) <= close_budget s + streams ops)%nat.
Proof.
  revert s. induction ops as [|op ops IH]; intros s.
  - simpl. lia.
  - rewrite run_cons, streams_cons.
    pose proof (IH (state_of (step op s))). pose proof (step_close_budget op s). lia.
Qed.

(** Without stream(), a session stays INITIALIZING and without transport. *)
Lemma run_initializing (ops : list Op) (s : SSE) :
  streams ops = 0%nat -> readyState s = INITIALIZING -> live s = false ->
  readyState (run ops s) = INITIALIZING /\ live (run ops s) = false.
Proof.
  revert s. induction ops as [|op ops IH]; intros s Hn Hi Hl; [now split|].
  rewrite run_cons. rewrite streams_cons in Hn.
  destruct (op_cases op) as [-> | [[x ->] | [Hs Hx]]].
  - simpl in Hn. lia.
  - simpl in *. unfold notify. simpl.
    destruct (check_summary x s) as [(Hl' & _) | (Hr' & Hl' & _)]; [congruence|].
    apply IH; [lia | congruence | congruence].
  - destruct (moves_preserve _ move_initializing _ _ (step_moves op s Hs Hx)
                (conj Hi Hl)) as [Hi' Hl'].
    apply IH; [rewrite Hs in Hn; lia | assumption | assumption].
Qed.

(** Without stream(), a session that is CLOSED stays CLOSED. *)
Lemma run_closed (ops : list Op) (s : SSE) :
  streams ops = 0%nat -> readyState s = CLOSED -> readyState (run ops s) = CLOSED.
Proof.
  revert s. induction ops as [|op ops IH]; intros s Hn Hc; [assumption|].
  rewrite run_cons. rewrite streams_cons in Hn.
  destruct (op_cases op) as [-> | [[x ->] | [Hs Hx]]].
  - simpl in Hn. lia.
  - simpl in *. unfold notify. simpl.
    destruct (check_summary x s) as [(_ & _ & Hr' & _) | (Hr' & _)];
      apply IH; try lia; congruence.
  - apply IH; [rewrite Hs in Hn; lia|].
    exact (moves_preserve _ move_closed _ _ (step_moves op s Hs Hx) Hc).
Qed.

Lemma step_opened_before_data (op : Op) (s : SSE) :
  reports_done op && (readyState s =? CONNECTING) = false ->
  opened_before_data s -> opened_before_data (state_of (step op s)).
Proof.
  intros Hd Hinv.
  destruct (op_cases op) as [-> | [[x ->] | [Hs Hx]]].
  - simpl. destruct Hinv as (Ho & Hk & Hch). unfold opened_before_data.
    rewrite sites_stream.
    destruct (stream_summary s) as (Hr & _ & Hc & _). rewrite Hr, Hc.
    repeat split.
    + now apply records_after_open_app.
    + now left.
    + intros H. apply elem_of_app. left. auto.
  - simpl in *. unfold notify. simpl.
    destruct Hinv as (Ho & Hk & Hch). unfold opened_before_data.
    destruct (check_summary x s)
      as [(Hl & Hdone & Hr' & Hl' & Hc' & Hsi) | (Hr' & Hl' & Hc' & Hsi)];
      rewrite Hsi, ?Hr', ?Hl', ?Hc'.
    + assert (Hopen : AtOpen ∈ sites s).
      { destruct (Hk Hl) as [Hcn|]; [|assumption].
        rewrite Hdone, Hcn in Hd. discriminate. }
      repeat split.
      * now apply records_after_open_app.
      * intros _. right. apply elem_of_app. now left.
      * intros _. apply elem_of_app. now left.
    + repeat split; assumption.
  - exact (moves_preserve _ move_opened_before_data _ _ (step_moves op s Hs Hx) Hinv).
Qed.

Lemma run_opened_before_data (ops : list Op) (s : SSE) :
  data_before_done ops s = true ->
  opened_before_data s -> opened_before_data (run ops s).
Proof.
  revert s. induction ops as [|op ops IH]; intros s Hd Hinv; [assumption|].
  rewrite run_cons. simpl in Hd. apply andb_true_iff in Hd as [Hd1 Hd2].
  apply negb_true_iff in Hd1.
  apply IH; [assumption|]. now apply step_opened_before_data.
Qed.

End Steps.

(** ** Runs from a new session *)

Section Sessions.

Variable u : string.
Variable o : SSEOptions.

Lemma construct_open_budget : open_budget (construct u o) = 0%nat.
Proof. reflexivity. Qed.

Lemma construct_close_budget : close_budget (construct u o) = 0%nat.
Proof. reflexivity. Qed.

Lemma construct_opened_before_data : opened_before_data (construct u o).
Proof.
  repeat split.
  - apply records_after_open_nil.
  - discriminate.
  - intros H. now contradiction H.
Qed.

(** A session that has left INITIALIZING has been started. *)
Lemma closed_after_stream (ops : list Op) :
  readyState (run ops (construct u o)) = CLOSED -> (1 <= streams ops)%nat.
Proof.
  intros Hc. destruct (streams ops) as [|n] eqn:Hn; [|lia].
  destruct (run_initializing ops (construct u o) Hn) as [Hi _]; try reflexivity.
  rewrite Hi in Hc. discriminate.
Qed.

End Sessions.

(** C6, as the code has it: in a run with at most one call of stream() in
    which the transport does not report DONE while the session is still
    CONNECTING, the 'open' event is dispatched at most once and every
    dispatch of a parsed record comes after it. *)
Theorem C6_open_once_before_records (u : string) (o : SSEOptions) (ops : list Op) :
  (streams ops <= 1)%nat ->
  data_before_done ops (construct u o) = true ->
  (count AtOpen (sites (run ops (construct u o))) <= 1)%nat
  /\ records_after_open (sites (run ops (construct u o))).
Proof.
  intros Hs Hd. split.
  - pose proof (run_open_budget ops (construct u o)) as H.
    rewrite construct_open_budget in H. unfold open_budget in H. lia.
  - now apply run_opened_before_data, construct_opened_before_data.
Qed.

Lemma C6_witness :
  (count AtOpen (sites (run (deliver true two_records_whole) fresh)) <= 1)%nat
  /\ records_after_open (sites (run (deliver true two_records_whole) fresh)).
Proof.
  apply (C6_open_once_before_records "http://localhost/events" no_options
           (deliver true two_records_whole)).
  - vm_compute. lia.
  - vm_compute. reflexivity.
Defined.

(** C6 as the specification states it fails: when the transport reports
    DONE before any data notification, the session is CLOSED and still holds
    the transport; the load notification then dispatches the record, and no
    'open' has been or will be dispatched. *)
Lemma C6_counterexample :
  (streams done_then_load <= 1)%nat
  /\ sites (run done_then_load fresh) = [AtStream; AtCheckClosed; AtRecord]
  /\ record_events (run done_then_load fresh) = [message "message" None "x"]
  /\ ~ records_after_open (sites (run done_then_load fresh)).
Proof.
  split; [vm_compute; lia|]. split; [vm_compute; reflexivity|].
  split; [vm_compute; reflexivity|].
  intros H.
  assert (Hs : sites (run done_then_load fresh) = [AtStream; AtCheckClosed] ++ AtRecord :: [])
    by (vm_compute; reflexivity).
  specialize (H _ _ _ Hs eq_refl).
  rewrite !elem_of_cons, elem_of_nil in H. intuition discriminate.
Qed.

(** ** The record parser against the specification *)

(** C2: for a record text that is not empty, _parseEventChunk gives the
    event that the rules of the specification describe: the lines are split
    on any line break, trailing white space is stripped, a line without ':'
    or with ':' first is ignored, as is a line whose field is not one of id,
    retry, data and event; the values of the 'data' lines, leading white
    space stripped, are concatenated with nothing between them; the type is
    the last 'event' value ("message" without one) and the id the last 'id'
    value (null without one).  On the record of the example the event
    {type: "ping", id: "7", data: "ab"} is dispatched. *)
Theorem C2_parseEventChunk_rules :
  (forall chunk : string,
      chunk <> "" -> _parseEventChunk chunk = Some (Spec.event_of_record chunk))
  /\ _parseEventChunk ping_record = Some (message "ping" (Some "7") "ab")
  /\ record_events (run (deliver false [ping_record]) fresh)
     = [message "ping" (Some "7") "ab"].
Proof.
  split; [|split; vm_compute; reflexivity].
  intros chunk Hne. unfold _parseEventChunk.
  destruct (String.eqb_spec chunk "") as [He|_]; [contradiction|].
  pose proof (fold_parse_line (Js.split Js.line_break chunk) initial_fields) as H.
  cbv zeta in H. destruct H as (He & Hi & Hd).
  unfold Spec.event_of_record, Spec.fields_of_record, message.
  unfold with_id, with_data, new_CustomSSEEvent. simpl.
  rewrite He, Hi, Hd. simpl.
  change ("" +:+ ?x) with x.
  now destruct (last (Spec.values_of "id" _)).
Qed.

Lemma C2_witness :
  _parseEventChunk "data: hello" = Some (Spec.event_of_record "data: hello").
Proof.
  apply (proj1 C2_parseEventChunk_rules "data: hello"). discriminate.
Defined.

(** ** The registry of listeners *)

Section Registry.

Lemma set_listeners_id (s : SSE) : set_listeners (listeners s) s = s.
Proof. now destruct s. Qed.

Lemma set_listeners_back (m : gmap string (list Listener)) (s : SSE) :
  set_listeners (listeners s) (set_listeners m s) = s.
Proof. now destruct s. Qed.

(** addEventListener as one update of the registry. *)
Lemma addEventListener_eq (type : string) (l : Listener) (s : SSE) :
  addEventListener type l s
  = set_listeners
      (<[type := if bool_decide (l ∈ default [] (listeners s !! type))
                 then default [] (listeners s !! type)
                 else default [] (listeners s !! type) ++ [l]]> (listeners s)) s.
Proof.
  unfold addEventListener. destruct (listeners s !! type) as [ls|] eqn:Hl; simpl.
  - rewrite Hl. simpl. destruct (bool_decide (l ∈ ls)); [|reflexivity].
    now rewrite insert_id, set_listeners_id.
  - rewrite lookup_insert_eq. simpl. now rewrite insert_insert_eq.
Qed.

Lemma filter_ne_absent (l : Listener) (ls : list Listener) :
  l ∉ ls -> filter (fun element => element ≠ l) ls = ls.
Proof.
  induction ls as [|x ls IH]; intros Hn; [reflexivity|].
  apply not_elem_of_cons in Hn as [Hx Hn].
  rewrite filter_cons, decide_True by congruence. now rewrite IH.
Qed.

Lemma filter_ne_snoc (l : Listener) (ls : list Listener) :
  l ∉ ls -> filter (fun element => element ≠ l) (ls ++ [l]) = ls.
Proof.
  intros Hn. rewrite filter_app, filter_ne_absent by assumption.
  rewrite filter_cons, decide_False by (intros H; now apply H).
  now rewrite filter_nil, app_nil_r.
Qed.

Lemma addEventListener_registry_ok (type : string) (l : Listener) (s : SSE) :
  registry_ok s -> registry_ok (addEventListener type l s).
Proof.
  intros Hok t ls. rewrite addEventListener_eq. simpl.
  destruct (decide (type = t)) as [->|Hne].
  - rewrite lookup_insert_eq. intros [= <-].
    destruct (listeners s !! t) as [ls0|] eqn:Hl; simpl.
    + destruct (Hok _ _ Hl) as [Hne Hnd].
      destruct (decide (l ∈ ls0)) as [Hin|Hin].
      * rewrite bool_decide_eq_true_2 by assumption. now split.
      * rewrite bool_decide_eq_false_2 by assumption. split.
        -- now destruct ls0.
        -- apply NoDup_app. repeat split; [assumption| |apply NoDup_singleton].
           intros x Hx Hx'. apply list_elem_of_singleton in Hx'. now subst.
    + split; [discriminate | apply NoDup_singleton].
  - rewrite lookup_insert_ne by assumption. apply Hok.
Qed.

Lemma removeEventListener_registry_ok (type : string) (l : Listener) (s : SSE) :
  registry_ok s -> registry_ok (removeEventListener type l s).
Proof.
  intros Hok t ls. unfold removeEventListener.
  destruct (listeners s !! type) as [ls0|] eqn:Hl; [|apply Hok].
  destruct (filter (fun element => element ≠ l) ls0) as [|x f] eqn:Hf; simpl.
  - destruct (decide (type = t)) as [->|Hne].
    + now rewrite lookup_delete_eq.
    + rewrite lookup_delete_ne by assumption. apply Hok.
  - destruct (decide (type = t)) as [->|Hne].
    + rewrite lookup_insert_eq. intros [= <-]. split; [discriminate|].
      rewrite <- Hf. apply NoDup_filter. now destruct (Hok _ _ Hl).
    + rewrite lookup_insert_ne by assumption. apply Hok.
Qed.

Lemma listeners_parts (parts : list string) (s : SSE) :
  listeners (fold_left on_part parts s) = listeners s
  /\ handlers (fold_left on_part parts s) = handlers s.
Proof.
  revert s. induction parts as [|part parts IH]; intros s; simpl; [now split|].
  destruct (IH (on_part s part)) as [-> ->]. unfold on_part.
  destruct (Js.length (Js.trim part) =? 0); simpl; now autorewrite with sse.
Qed.

Lemma listeners_close (s : SSE) : listeners (state_of (close s)) = listeners s.
Proof.
  unfold close. destruct (readyState s =? CLOSED); [reflexivity|].
  destruct (xhr s); simpl; now autorewrite with sse.
Qed.

Lemma listeners_progress (e : Xhr) (s : SSE) :
  listeners (state_of (_onStreamProgress e s)) = listeners s.
Proof.
  unfold _onStreamProgress. destruct (xhr s) as [x|]; [|reflexivity].
  destruct (status x =? 200); simpl.
  - rewrite (proj1 (listeners_parts _ _)). simpl.
    destruct (readyState s =? CONNECTING); now autorewrite with sse.
  - unfold _onStreamFailure. rewrite listeners_close. now autorewrite with sse.
Qed.

(** Only addEventListener and removeEventListener change the registry. *)
Lemma step_listeners (op : Op) (s : SSE) :
  (forall type l, op <> OAddEventListener type l) ->
  (forall type l, op <> ORemoveEventListener type l) ->
  listeners (state_of (step op s)) = listeners s.
Proof.
  intros Ha Hr. destruct op as [type l|type l|type [h|]|e| | |n x]; cbn [step state_of].
  - now destruct (Ha type l).
  - now destruct (Hr type l).
  - reflexivity.
  - reflexivity.
  - now autorewrite with sse.
  - now destruct (stream_summary s) as (_ & _ & _ & _ & -> & _).
  - apply listeners_close.
  - assert (Ho : listeners (observe x s) = listeners s)
      by (unfold observe; now destruct (xhr s)).
    unfold notify. destruct n.
    + now rewrite listeners_progress.
    + unfold _onStreamLoaded. rewrite progress_returns. simpl.
      autorewrite with sse. now rewrite listeners_progress.
    + cbn [state_of]. unfold _checkStreamClosed.
      destruct (xhr (observe x s)) as [x0|]; [|assumption].
      destruct (xhr_readyState x0 =? DONE); now autorewrite with sse.
    + unfold _onStreamFailure. rewrite listeners_close. now autorewrite with sse.
    + unfold _onStreamAbort. rewrite listeners_close. now autorewrite with sse.
Qed.

Lemma step_registry_ok (op : Op) (s : SSE) :
  registry_ok s -> registry_ok (state_of (step op s)).
Proof.
  intros Hok. destruct op as [type l|type l|type h|e| | |n x];
    try (intros t ls; rewrite step_listeners by (intros; discriminate); apply Hok).
  - now apply addEventListener_registry_ok.
  - now apply removeEventListener_registry_ok.
Qed.

Lemma run_registry_ok (u : string) (o : SSEOptions) (ops : list Op) :
  registry_ok (run ops (construct u o)).
Proof.
  assert (H : forall s, registry_ok s -> registry_ok (run ops s)).
  { induction ops as [|op ops IH]; intros s Hs; [assumption|].
    rewrite run_cons. apply IH. now apply step_registry_ok. }
  apply H. intros t ls. simpl. now rewrite lookup_empty.
Qed.

End Registry.

(** Registering a callback that is registered already changes nothing: the
    second of two equal calls of addEventListener is without effect. *)
Theorem addEventListener_idempotent (type : string) (l : Listener) (s : SSE) :
  addEventListener type l (addEventListener type l s) = addEventListener type l s.
Proof.
  rewrite (addEventListener_eq type l (addEventListener type l s)).
  rewrite (addEventListener_eq type l s). simpl. rewrite lookup_insert_eq. simpl.
  destruct (decide (l ∈ default [] (listeners s !! type))) as [Hin|Hin].
  - rewrite !(bool_decide_eq_true_2 _ Hin). now rewrite insert_insert_eq.
  - rewrite (bool_decide_eq_false_2 _ Hin).
    rewrite bool_decide_eq_true_2 by (apply elem_of_app; right; left).
    now rewrite insert_insert_eq.
Qed.

(** Whatever is done to a new session, no array of its registry is empty
    and none holds a callback twice. *)
Theorem registry_never_empty_nor_duplicate (u : string) (o : SSEOptions) (ops : list Op) :
  registry_ok (run ops (construct u o)).
Proof. apply run_registry_ok. Qed.

(** removeEventListener undoes addEventListener: for a callback that is not
    registered for the type, registering and then removing it gives the
    session back, with the entry of the type deleted again when the callback
    was the only one. *)
Theorem removeEventListener_undoes_add (type : string) (l : Listener) (s : SSE) :
  l ∉ default [] (listeners s !! type) ->
  listeners s !! type <> Some [] ->
  removeEventListener type l (addEventListener type l s) = s.
Proof.
  intros Hn Hne. rewrite addEventListener_eq.
  rewrite (bool_decide_eq_false_2 _ Hn).
  unfold removeEventListener. simpl. rewrite lookup_insert_eq.
  rewrite filter_ne_snoc by assumption.
  destruct (listeners s !! type) as [ls|] eqn:Hl; simpl.
  - destruct ls as [|x ls]; [now contradiction Hne|]. simpl.
    rewrite insert_insert_eq, insert_id by assumption. apply set_listeners_back.
  - simpl. rewrite delete_insert_eq, delete_id by assumption. apply set_listeners_back.
Qed.

Lemma removeEventListener_undoes_add_witness :
  removeEventListener "message" passive (addEventListener "message" passive fresh) = fresh.
Proof.
  apply (removeEventListener_undoes_add "message" passive fresh).
  - apply (bool_decide_eq_true_1 (passive ∉ default [] (listeners fresh !! "message"))).
    vm_compute. reflexivity.
  - vm_compute. discriminate.
Defined.

(** Removing a callback that is not registered for the type, or from a type
    that has no entry, changes nothing. *)
Theorem removeEventListener_not_registered (type : string) (l : Listener) (s : SSE) :
  l ∉ default [] (listeners s !! type) ->
  listeners s !! type <> Some [] ->
  removeEventListener type l s = s.
Proof.
  intros Hn Hne. unfold removeEventListener.
  destruct (listeners s !! type) as [ls|] eqn:Hl; [|reflexivity]. simpl in Hn.
  rewrite filter_ne_absent by assumption.
  destruct ls as [|x ls]; [now contradiction Hne|].
  rewrite insert_id by assumption. apply set_listeners_id.
Qed.

Lemma removeEventListener_not_registered_witness :
  removeEventListener "message" {| lid := 3; on_event := Leave |} two_listeners
  = two_listeners.
Proof.
  apply (removeEventListener_not_registered "message"
           {| lid := 3; on_event := Leave |} two_listeners).
  - apply (bool_decide_eq_true_1
             ({| lid := 3; on_event := Leave |}
                ∉ default [] (listeners two_listeners !! "message"))).
    vm_compute. reflexivity.
  - vm_compute. discriminate.
Defined.

(** ** Who is called by dispatchEvent, and what it returns *)

Section Callbacks.

Lemma called_app (t1 t2 : list Effect) : called (t1 ++ t2) = called t1 ++ called t2.
Proof. apply omap_app. Qed.

Lemma delivered_nil (e : CustomSSEEvent) : delivered [] e = [].
Proof. reflexivity. Qed.

Lemma delivered_subseteq (ls : list Listener) (e : CustomSSEEvent) : delivered ls e ⊆ ls.
Proof.
  unfold delivered. destruct (first_prevented ls e); [apply subseteq_take | reflexivity].
Qed.

Lemma delivered_NoDup (ls : list Listener) (e : CustomSSEEvent) :
  NoDup ls -> NoDup (delivered ls e).
Proof.
  intros Hnd. unfold delivered. destruct (first_prevented ls e) as [k|]; [|assumption].
  eapply sublist_NoDup; [exact Hnd | apply sublist_take].
Qed.

Lemma called_calls (s : SSE) (e : CustomSSEEvent) :
  called (fst (dispatchEvent_calls s e)) = callbacks s e.
Proof.
  unfold dispatchEvent_calls, callbacks.
  destruct (handlers s !! ev_type e) as [h|]; simpl.
  - destruct (ev_defaultPrevented (invoke h e)); [reflexivity|].
    rewrite invoke_type.
    destruct (listeners s !! ev_type e) as [ls|]; simpl; [|reflexivity].
    pose proof (every_callback_delivered ls (invoke h e)) as [Hc _].
    destruct (every_callback ls (invoke h e)) as [[t e'] b]. simpl in *.
    now rewrite Hc.
  - destruct (listeners s !! ev_type e) as [ls|]; simpl; [|reflexivity].
    pose proof (every_callback_delivered ls e) as [Hc _].
    now destruct (every_callback ls e) as [[t e'] b].
Qed.

(** The event that [every] leaves and its result, from the calls made. *)
Lemma every_callback_result (ls : list Listener) (e : CustomSSEEvent) :
  let '(t, e', b) := every_callback ls e in
  e' = event_after (called t) e
  /\ (called t = [] -> ls = [] /\ b = true)
  /\ (called t <> [] -> b = negb (ev_defaultPrevented e')).
Proof.
  revert e. induction ls as [|l ls IH]; intros e; simpl.
  - repeat split; auto. intros H. now contradiction H.
  - specialize (IH (invoke l e)).
    destruct (ev_defaultPrevented (invoke l e)) eqn:Hp; simpl.
    + repeat split; try discriminate. intros _. now rewrite Hp.
    + destruct (every_callback ls (invoke l e)) as [[t e''] b]. simpl.
      destruct IH as (He & Hnil & Hcons). repeat split; try discriminate; [assumption|].
      intros _. destruct (called t) as [|c cs] eqn:Hc.
      * destruct (Hnil eq_refl) as [_ ->]. rewrite He. simpl. now rewrite Hp.
      * apply Hcons. discriminate.
Qed.

End Callbacks.

(** dispatchEvent calls the handler in the own property 'on' + type first,
    if there is one; when the handler leaves the event default-prevented no
    listener is called; otherwise the listeners of the type are called in
    registration order up to and including the first that leaves the event
    default-prevented. *)
Theorem dispatchEvent_calls_handler_then_listeners
    (site : Site) (e : CustomSSEEvent) (s : SSE) :
  called (out (fst (dispatchEvent site (Some e) s))) = called (out s) ++ callbacks s e
  /\ dispatched (out (fst (dispatchEvent site (Some e) s)))
     = dispatched (out s) ++ [(site, e)].
Proof.
  rewrite dispatch_out. simpl. split.
  - rewrite called_app. simpl. now rewrite called_calls.
  - rewrite dispatched_app. simpl. now rewrite dispatched_calls.
Qed.

(** The result of [dispatchEvent]: true when no callback was called
    (whatever [e.defaultPrevented] was), and otherwise whether the event is
    not default-prevented after the last callback that was called. *)
Lemma dispatchEvent_snd (site : Site) (e : CustomSSEEvent) (s : SSE) :
  snd (dispatchEvent site (Some e) s)
  = match callbacks s e with
    | [] => true
    | ls => negb (ev_defaultPrevented (event_after ls e))
    end.
Proof.
  rewrite dispatch_out. simpl. unfold dispatchEvent_calls, callbacks.
  destruct (handlers s !! ev_type e) as [h|]; simpl.
  - destruct (ev_defaultPrevented (invoke h e)) eqn:Hp; simpl; [now rewrite Hp|].
    rewrite invoke_type.
    destruct (listeners s !! ev_type e) as [ls|]; simpl; [|now rewrite Hp].
    pose proof (every_callback_delivered ls (invoke h e)) as [Hc _].
    pose proof (every_callback_result ls (invoke h e)) as Hr.
    destruct (every_callback ls (invoke h e)) as [[t e'] b]. simpl in *.
    destruct Hr as (He & Hnil & Hcons). rewrite <- Hc.
    change (event_after (h :: called t) e) with (event_after (called t) (invoke h e)).
    rewrite <- He. destruct (called t) as [|c cs] eqn:Hcalled.
    + destruct (Hnil eq_refl) as [_ ->]. rewrite He. simpl. now rewrite Hp.
    + apply Hcons. discriminate.
  - destruct (listeners s !! ev_type e) as [ls|]; simpl; [|reflexivity].
    pose proof (every_callback_delivered ls e) as [Hc _].
    pose proof (every_callback_result ls e) as Hr.
    destruct (every_callback ls e) as [[t e'] b]. simpl in *.
    destruct Hr as (He & Hnil & Hcons). rewrite <- Hc.
    destruct (called t) as [|c cs] eqn:Hcalled.
    + now destruct (Hnil eq_refl) as [_ ->].
    + subst e'. apply Hcons. discriminate.
Qed.

(** After removeEventListener(type, l), an event of the type is not
    delivered to [l] any more, unless [l] is also the handler of the type. *)
Theorem removed_listener_not_called
    (site : Site) (e : CustomSSEEvent) (l : Listener) (s : SSE) :
  handlers s !! ev_type e <> Some l ->
  l ∉ called (dispatch_effects site (Some e) (removeEventListener (ev_type e) l s)).
Proof.
  intros Hh. simpl. rewrite called_calls. unfold callbacks.
  assert (Hhs : handlers (removeEventListener (ev_type e) l s) = handlers s).
  { unfold removeEventListener. destruct (listeners s !! ev_type e) as [ls|]; [|reflexivity].
    now destruct (filter _ ls). }
  assert (Hl : l ∉ default [] (listeners (removeEventListener (ev_type e) l s) !! ev_type e)).
  { unfold removeEventListener.
    destruct (listeners s !! ev_type e) as [ls|] eqn:Hls.
    - destruct (filter (fun element => element ≠ l) ls) as [|x f] eqn:Hf; simpl.
      + rewrite lookup_delete_eq. apply not_elem_of_nil.
      + rewrite lookup_insert_eq. simpl. rewrite <- Hf.
        rewrite list_elem_of_filter. intros [Hne _]. now apply Hne.
    - rewrite Hls. apply not_elem_of_nil. }
  rewrite Hhs.
  destruct (handlers s !! ev_type e) as [h|].
  - apply not_elem_of_cons. split; [congruence|].
    destruct (ev_defaultPrevented (invoke h e)); [apply not_elem_of_nil|].
    intros Hin. apply Hl. now apply (delivered_subseteq _ (invoke h e)).
  - intros Hin. apply Hl. now apply (delivered_subseteq _ e).
Qed.

Lemma removed_listener_not_called_witness :
  preventing
    ∉ called (dispatch_effects AtCaller (Some (message "message" None "x"))
                (removeEventListener (ev_type (message "message" None "x"))
                   preventing two_listeners)).
Proof.
  apply (removed_listener_not_called AtCaller (message "message" None "x")
           preventing two_listeners).
  vm_compute. discriminate.
Defined.

(** Whatever was done to a new session, in particular however often a
    callback was registered, an event whose type has no handler is delivered
    to each listener at most once. *)
Theorem listener_called_at_most_once
    (u : string) (o : SSEOptions) (ops : list Op) (site : Site) (e : CustomSSEEvent) :
  handlers (run ops (construct u o)) !! ev_type e = None ->
  NoDup (called (dispatch_effects site (Some e) (run ops (construct u o)))).
Proof.
  intros Hh. simpl. rewrite called_calls. unfold callbacks. rewrite Hh.
  apply delivered_NoDup.
  destruct (listeners (run ops (construct u o)) !! ev_type e) as [ls|] eqn:Hl; simpl.
  - now destruct (run_registry_ok u o ops _ _ Hl).
  - apply NoDup_nil_2.
Qed.

Lemma listener_called_at_most_once_witness :
  NoDup (called (dispatch_effects AtCaller (Some (message "message" None "x"))
                   (run [OAddEventListener "message" passive;
                         OAddEventListener "message" passive]
                        (construct "http://localhost/events" no_options)))).
Proof.
  apply (listener_called_at_most_once "http://localhost/events" no_options
           [OAddEventListener "message" passive; OAddEventListener "message" passive]
           AtCaller (message "message" None "x")).
  vm_compute. reflexivity.
Defined.

(** ** The session and its transport *)

Section Transport.

Lemma move_transport_ok (s s' : SSE) : move s s' -> transport_ok s -> transport_ok s'.
Proof.
  unfold transport_ok.
  intros [l Hr Hl Hc Hs Hq | Hn Hl Hr Hl' Hc Hs | n Hl Hl' Hr Hs | Hr Hl Hc Hs]
         (H4 & Hi & Ho); rewrite Hr, ?Hl', ?Hl; try (repeat split; assumption).
  - repeat split; auto; try discriminate. intros [H|H]; discriminate.
  - destruct (Z.eqb_spec (readyState s) CONNECTING) as [Hcn|Hcn].
    + repeat split; auto; discriminate.
    + repeat split; auto. intros Hinit. specialize (Hi Hinit). congruence.
Qed.

Lemma step_transport_ok (op : Op) (s : SSE) :
  transport_ok s -> transport_ok (state_of (step op s)).
Proof.
  intros Hok. destruct (op_cases op) as [-> | [[x ->] | [Hs Hx]]].
  - cbn [step state_of]. unfold transport_ok. rewrite live_stream.
    destruct (stream_summary s) as (-> & _). repeat split; auto; discriminate.
  - cbn [step]. unfold notify. cbn [state_of]. unfold transport_ok.
    destruct (check_summary x s) as [(_ & _ & Hr & Hl & _) | (Hr & Hl & _)];
      rewrite Hr, Hl; [|exact Hok].
    repeat split; auto; discriminate.
  - exact (moves_preserve _ move_transport_ok _ _ (step_moves op s Hs Hx) Hok).
Qed.

Lemma run_transport_ok (u : string) (o : SSEOptions) (ops : list Op) :
  transport_ok (run ops (construct u o)).
Proof.
  assert (H : forall s, transport_ok s -> transport_ok (run ops s)).
  { induction ops as [|op ops IH]; intros s Hs; [assumption|].
    rewrite run_cons. apply IH. now apply step_transport_ok. }
  apply H. unfold transport_ok. simpl. repeat split; auto. intros [H0|H0]; discriminate.
Qed.

Lemma move_started (s s' : SSE) :
  move s s' -> readyState s <> INITIALIZING -> readyState s' <> INITIALIZING.
Proof.
  intros [l Hr Hl Hc Hs Hq | Hn Hl Hr Hl' Hc Hs | n Hl Hl' Hr Hs | Hr Hl Hc Hs] Hi;
    rewrite Hr; try assumption; try discriminate.
  now destruct (readyState s =? CONNECTING).
Qed.

Lemma step_started (op : Op) (s : SSE) :
  is_stream op = true \/ readyState s <> INITIALIZING ->
  readyState (state_of (step op s)) <> INITIALIZING.
Proof.
  intros H. destruct (op_cases op) as [-> | [[x ->] | [Hs Hx]]].
  - cbn [step state_of]. destruct (stream_summary s) as (-> & _). discriminate.
  - destruct H as [H|H]; [discriminate|].
    cbn [step]. unfold notify. cbn [state_of].
    destruct (check_summary x s) as [(_ & _ & Hr & _) | (Hr & _)]; rewrite Hr;
      [discriminate | assumption].
  - destruct H as [H|H]; [congruence|].
    exact (moves_preserve _ move_started _ _ (step_moves op s Hs Hx) H).
Qed.

Lemma run_started (ops : list Op) (s : SSE) :
  (1 <= streams ops)%nat \/ readyState s <> INITIALIZING ->
  readyState (run ops s) <> INITIALIZING.
Proof.
  revert s. induction ops as [|op ops IH]; intros s H.
  - destruct H as [H|H]; [unfold streams in H; simpl in H; lia | assumption].
  - rewrite run_cons. apply IH. rewrite streams_cons in H.
    destruct (is_stream op) eqn:Hop.
    + right. apply step_started. now left.
    + destruct H as [H|H]; [left; lia|]. right. apply step_started. now right.
Qed.


Lemma every_callback_calls (ls : list Listener) (e : CustomSSEEvent) (eff : Effect) :
  eff ∈ fst (fst (every_callback ls e)) -> exists l e', eff = Call l e'.
Proof.
  revert e. induction ls as [|l ls IH]; intros e; simpl.
  - intros H. now apply elem_of_nil in H.
  - destruct (ev_defaultPrevented (invoke l e)); simpl.
    + intros H. apply list_elem_of_singleton in H. eauto.
    + specialize (IH (invoke l e)).
      destruct (every_callback ls (invoke l e)) as [[t e''] b]. simpl in *.
      intros H. apply elem_of_cons in H as [H|H]; eauto.
Qed.

(** Apart from the record of the dispatch itself, a dispatch adds only
    calls of callbacks to [out]. *)
Lemma dispatchEvent_calls_calls (s : SSE) (e : CustomSSEEvent) (eff : Effect) :
  eff ∈ fst (dispatchEvent_calls s e) -> exists l e', eff = Call l e'.
Proof.
  unfold dispatchEvent_calls.
  destruct (handlers s !! ev_type e) as [h|]; simpl.
  - destruct (ev_defaultPrevented (invoke h e)); simpl.
    + intros H. apply list_elem_of_singleton in H. eauto.
    + destruct (listeners s !! ev_type (invoke h e)) as [ls|]; simpl.
      * pose proof (every_callback_calls ls (invoke h e) eff) as Hc.
        destruct (every_callback ls (invoke h e)) as [[t e''] b]. simpl in *.
        intros H. apply elem_of_cons in H as [H|H]; eauto.
      * intros H. apply list_elem_of_singleton in H. eauto.
  - destruct (listeners s !! ev_type e) as [ls|]; simpl.
    + pose proof (every_callback_calls ls e eff) as Hc.
      now destruct (every_callback ls e) as [[t e''] b].
    + intros H. now apply elem_of_nil in H.
Qed.


Lemma observe_dead (x : Xhr) (s : SSE) : xhr s = None -> observe x s = s.
Proof. intros H. unfold observe. now rewrite H. Qed.

End Transport.

(** What a new session sends when stream() is called: readystatechange with
    CONNECTING is dispatched first, then the transport is opened with the
    method (the given one, or POST for a truthy payload and GET otherwise)
    and the url, every header is set once, in order, the credentials flag
    is set, and the payload is sent last. *)
Theorem stream_sends_the_request (u : string) (o : SSEOptions) :
  out (stream (construct u o))
  = Dispatch AtStream (with_readyState CONNECTING (new_CustomSSEEvent "readystatechange"))
    :: XhrOpen (default (if truthy (default (PString "") (opt_payload o)) then POST else GET)
                  (opt_method o)) u
    :: map (fun header => XhrSetRequestHeader (fst header) (snd header))
         (default [] (opt_headers o))
    ++ [XhrSetWithCredentials (default false (opt_withCredentials o));
        XhrSend (default (PString "") (opt_payload o))]
  /\ readyState (stream (construct u o)) = CONNECTING
  /\ xhr (stream (construct u o)) = Some new_XMLHttpRequest.
Proof.
  split; [|now destruct (stream_summary (construct u o)) as (-> & -> & _)].
  unfold stream, _setReadyState. rewrite dispatch_emit, set_headers_emit. simpl.
  unfold dispatchEvent_calls. simpl. rewrite !lookup_empty. simpl.
  destruct (opt_headers o), (opt_payload o), (opt_method o), (opt_withCredentials o);
    simpl; rewrite <- ?app_assoc; reflexivity.
Qed.





(** When the transport reports DONE to a session that holds it, the session
    becomes CLOSED and dispatches readystatechange with CLOSED, but keeps
    the transport and does not abort it; a close() after that does
    nothing, so the transport is never aborted. *)
Theorem transport_done_closes_without_abort (x : Xhr) (s : SSE) :
  live s = true -> xhr_readyState x = DONE ->
  exists s',
    notify NReadyStateChange x s = Returns s'
    /\ readyState s' = CLOSED /\ xhr s' = Some x /\ chunk s' = chunk s
    /\ dispatched (out s')
       = dispatched (out s)
         ++ [(AtCheckClosed, with_readyState CLOSED (new_CustomSSEEvent "readystatechange"))]
    /\ (XhrAbort ∈ out s' -> XhrAbort ∈ out s)
    /\ close s' = Returns s'.
Proof.
  intros Hl Hd. unfold notify, _checkStreamClosed, observe, live in *.
  destruct (xhr s) as [x0|]; [|discriminate]. simpl.
  rewrite Hd. simpl. eexists. split; [reflexivity|].
  autorewrite with sse. simpl. repeat split.
  - unfold _setReadyState. now rewrite dispatched_dispatch.
  - unfold _setReadyState. rewrite dispatch_emit. simpl.
    rewrite elem_of_app. intros [H|H]; [assumption|].
    apply elem_of_cons in H as [H|H]; [discriminate|].
    apply dispatchEvent_calls_calls in H as (l & e' & H). discriminate.
  - unfold close. now autorewrite with sse.
Qed.

(** ** Late notifications *)

Section Late.

Lemma guarded_step (op : Op) (s : SSE) :
  xhr s = None -> guarded op = true -> step op s = Returns s.
Proof.
  intros Hx Hg. destruct op as [type l|type l|type h|e| | |[] x]; try discriminate;
    cbn [step]; unfold notify; rewrite (observe_dead x s Hx).
  - unfold _onStreamProgress. now rewrite Hx.
  - unfold _checkStreamClosed. now rewrite Hx.
Qed.

End Late.

(** After close() has dropped the transport, progress and readystatechange
    notifications that still arrive change nothing and dispatch nothing. *)
Theorem notifications_without_transport_ignored (ns : list Op) (s : SSE) :
  xhr s = None -> forallb guarded ns = true -> run ns s = s.
Proof.
  intros Hx. induction ns as [|op ns IH]; intros Hg; [reflexivity|].
  simpl in Hg. apply andb_true_iff in Hg as [Hop Hns].
  rewrite run_cons, (guarded_step op s Hx Hop). simpl. now apply IH.
Qed.

Lemma notifications_without_transport_ignored_witness :
  run [ONotify NProgress (receiving "data: late"); ONotify NReadyStateChange (received "")]
      (run [OStream; OClose] fresh)
  = run [OStream; OClose] fresh.
Proof.
  apply (notifications_without_transport_ignored
           [ONotify NProgress (receiving "data: late"); ONotify NReadyStateChange (received "")]
           (run [OStream; OClose] fresh)).
  - vm_compute. reflexivity.
  - reflexivity.
Defined.

(** ** Strings, continued *)

Section Text.

Lemma length_append (a b : string) :
  String.length (a +:+ b) = (String.length a + String.length b)%nat.
Proof.
  induction a as [|c a IH]; [reflexivity|].
  change (S (String.length (a +:+ b)) = S (String.length a + String.length b)).
  now rewrite IH.
Qed.

Lemma drop_chars_append (a b : string) : Js.drop_chars (String.length a) (a +:+ b) = b.
Proof. induction a as [|c a IH]; [now destruct b | exact IH]. Qed.

Lemma drop_chars_length (n : nat) (s : string) :
  String.length (Js.drop_chars n s) = (String.length s - n)%nat.
Proof.
  revert s. induction n as [|n IH]; intros [|c s]; simpl; auto.
Qed.

Lemma take_chars_all (n : nat) (s : string) :
  (String.length s <= n)%nat -> Js.take_chars n s = s.
Proof.
  revert s. induction n as [|n IH]; intros [|c s] H; simpl in *; try reflexivity; try lia.
  rewrite IH by lia. reflexivity.
Qed.

Lemma take_chars_0 (s : string) : Js.take_chars 0 s = "".
Proof. now destruct s. Qed.

(** [text.substring(p)] for a cursor inside the text. *)
Lemma substring_from (t : string) (p : Z) :
  0 <= p <= Js.length t -> Js.substring t p None = Js.drop_chars (Z.to_nat p) t.
Proof.
  intros Hp. unfold Js.substring, Js.length in *.
  rewrite (Z.min_l p) by lia. rewrite (Z.max_r 0 p) by lia.
  rewrite Z.min_l, Z.max_r by lia.
  apply take_chars_all. rewrite drop_chars_length. lia.
Qed.

Lemma substring_suffix (old new : string) :
  Js.substring (old +:+ new) (Js.length old) None = new.
Proof.
  rewrite substring_from.
  - unfold Js.length. rewrite Nat2Z.id. apply drop_chars_append.
  - unfold Js.length. rewrite length_append. lia.
Qed.

(** [text.substring(p)] for a cursor at or beyond the end. *)
Lemma substring_beyond (t : string) (p : Z) :
  Js.length t <= p -> Js.substring t p None = "".
Proof.
  intros Hp. unfold Js.substring, Js.length in *.
  rewrite (Z.min_r p) by lia. rewrite (Z.max_r 0) by lia.
  rewrite Z.min_id, Z.max_id, Z.sub_diag. apply take_chars_0.
Qed.


Lemma length_nonneg (s : string) : 0 <= Js.length s.
Proof. unfold Js.length. lia. Qed.

Lemma blank_append (a b : string) : blank (a +:+ b) = blank a && blank b.
Proof.
  induction a as [|c a IH]; [reflexivity|].
  change (Js.isWhiteSpace c && blank (a +:+ b)
          = Js.isWhiteSpace c && blank a && blank b).
  now rewrite IH, andb_assoc.
Qed.

Lemma blank_trimLeft (s : string) : blank (Js.trimLeft s) = blank s.
Proof.
  induction s as [|c s IH]; [reflexivity|]. simpl.
  destruct (Js.isWhiteSpace c) eqn:Hc; simpl; [assumption | now rewrite Hc].
Qed.

Lemma trimRight_empty (s : string) : Js.trimRight s = "" <-> blank s = true.
Proof.
  induction s as [|c s IH]; [now split|]. simpl.
  destruct (Js.trimRight s) as [|c' r'] eqn:Ht.
  - destruct (Js.isWhiteSpace c); simpl.
    + split; intros _; [now apply IH | reflexivity].
    + split; discriminate.
  - split; [discriminate|]. intros [_ Hb]%andb_true_iff.
    apply IH in Hb. discriminate.
Qed.

Lemma trim_empty (s : string) : Js.trim s = "" <-> blank s = true.
Proof. unfold Js.trim. now rewrite trimRight_empty, blank_trimLeft. Qed.

(** The test [part.trim().length === 0]. *)
Lemma trim_length_zero (s : string) : (Js.length (Js.trim s) =? 0) = blank s.
Proof.
  destruct (blank s) eqn:Hb.
  - apply trim_empty in Hb. now rewrite Hb.
  - destruct (Js.trim s) as [|c r] eqn:Ht.
    + apply trim_empty in Ht. congruence.
    + reflexivity.
Qed.

Lemma split_from_unbroken (r t piece : string) :
  unbroken r t = true ->
  Js.split_from Js.record_separator 0 piece (r +:+ t)
  = Js.split_from Js.record_separator 0 (piece +:+ r) t.
Proof.
  revert piece. induction r as [|c r IH]; intros piece Hu.
  - now rewrite append_nil_r.
  - simpl in Hu. change (String c r +:+ t) with (String c (r +:+ t)) in *.
    cbn [Js.split_from].
    destruct (Js.record_separator (String c (r +:+ t))); [discriminate|].
    rewrite IH by assumption. f_equal.
    rewrite append_assoc. reflexivity.
Qed.

Lemma split_from_skip (m : Js.Matcher) (piece s : string) :
  Js.split_from m (String.length s) piece s = [piece].
Proof. induction s as [|c s IH]; [reflexivity | exact IH]. Qed.

(** Two line breaks are matched as a whole, and what is captured is white
    space. *)
Lemma separator_matches (b1 b2 : string) :
  b1 ∈ line_breaks -> b2 ∈ line_breaks ->
  exists (c : ascii) (rest cap : string),
    b1 +:+ b2 = String c rest
    /\ Js.record_separator (b1 +:+ b2) = Some (S (String.length rest), [cap])
    /\ blank cap = true.
Proof.
  unfold line_breaks. rewrite !elem_of_cons, !elem_of_nil.
  intros [-> | [-> | [-> | []]]] [-> | [-> | [-> | []]]];
    do 3 eexists; (split; [reflexivity|]); split; reflexivity.
Qed.

(** A text without separator inside, followed by two line breaks, is split
    into the text, the captured line break and the empty string. *)
Lemma split_record (r b1 b2 : string) :
  b1 ∈ line_breaks -> b2 ∈ line_breaks -> unbroken r (b1 +:+ b2) = true ->
  exists cap, blank cap = true
    /\ Js.split Js.record_separator (r +:+ b1 +:+ b2) = [r; cap; ""].
Proof.
  intros H1 H2 Hu. destruct (separator_matches b1 b2 H1 H2) as (c & rest & cap & Hs & Hm & Hb).
  exists cap. split; [assumption|]. unfold Js.split.
  rewrite split_from_unbroken by assumption.
  rewrite Hs in *. cbn [Js.split_from]. rewrite Hm. simpl.
  now rewrite split_from_skip.
Qed.

Lemma split_partial (c : string) :
  unbroken c "" = true -> Js.split Js.record_separator c = [c].
Proof.
  intros Hu. unfold Js.split. rewrite <- (append_nil_r c) at 1.
  now rewrite split_from_unbroken.
Qed.

End Text.

(** ** Increments of the response text *)

Section Increments.

Lemma on_part_blank (s : SSE) (part : string) :
  blank part = true ->
  on_part s part
  = set_chunk "" (dispatch AtRecord (_parseEventChunk (Js.trim (chunk s))) s).
Proof. intros Hb. unfold on_part. now rewrite trim_length_zero, Hb. Qed.

Lemma on_part_text (s : SSE) (part : string) :
  blank part = false -> on_part s part = set_chunk (chunk s +:+ part) s.
Proof. intros Hb. unfold on_part. now rewrite trim_length_zero, Hb. Qed.

Lemma not_blank (s : string) : Js.trim s <> "" -> blank s = false.
Proof.
  intros H. destruct (blank s) eqn:Hb; [|reflexivity].
  now apply trim_empty in Hb.
Qed.

Lemma dispatched_record (e : option CustomSSEEvent) (s : SSE) :
  dispatched (out (dispatch AtRecord e s)) = dispatched (out s) ++ record_dispatch e.
Proof. rewrite dispatched_dispatch. now destruct e. Qed.

(** A progress notification that passes the two guards. *)
Lemma progress_accepted (x x0 : Xhr) (s : SSE) :
  xhr s = Some x0 -> status x = 200 ->
  exists s1,
    readyState s1 = (if readyState s =? CONNECTING then OPEN else readyState s)
    /\ xhr s1 = Some x /\ chunk s1 = chunk s /\ progress s1 = progress s
    /\ dispatched (out s1) = dispatched (out s) ++ opening s
    /\ notify NProgress x s
       = Returns (fold_left on_part
                    (Js.split Js.record_separator
                       (Js.substring (responseText x) (progress s) None))
                    (set_progress
                       (progress s
                        + Js.length (Js.substring (responseText x) (progress s) None))
                       s1)).
Proof.
  intros Hx Hst. unfold notify, observe, _onStreamProgress, opening. rewrite Hx. simpl.
  rewrite Hst. simpl.
  destruct (readyState s =? CONNECTING).
  - exists (_setReadyState AtSetOpen OPEN
              (dispatch AtOpen (Some (new_CustomSSEEvent "open")) (set_xhr (Some x) s))).
    autorewrite with sse. simpl. repeat split.
    unfold _setReadyState. rewrite dispatched_dispatch. simpl.
    rewrite dispatched_dispatch. simpl. now rewrite <- app_assoc.
  - exists (set_xhr (Some x) s). simpl. repeat split. now rewrite app_nil_r.
Qed.

(** An increment that ends a record: the text [r] of the record without
    separator inside, then two line breaks. *)
Lemma record_increment (x x0 : Xhr) (s : SSE) (old r b1 b2 : string) :
  xhr s = Some x0 -> status x = 200 ->
  progress s = Js.length old ->
  responseText x = old +:+ r +:+ b1 +:+ b2 ->
  b1 ∈ line_breaks -> b2 ∈ line_breaks ->
  unbroken r (b1 +:+ b2) = true ->
  Js.trim r <> "" ->
  exists s' e,
    notify NProgress x s = Returns s'
    /\ _parseEventChunk (Js.trim (chunk s +:+ r)) = Some e
    /\ dispatched (out s') = dispatched (out s) ++ opening s ++ [(AtRecord, e)]
    /\ chunk s' = ""
    /\ progress s' = Js.length (responseText x)
    /\ xhr s' = Some x
    /\ readyState s' = (if readyState s =? CONNECTING then OPEN else readyState s).
Proof.
  intros Hx Hst Hp Ht H1 H2 Hu Hr.
  destruct (progress_accepted x x0 s Hx Hst) as (s1 & Hr1 & Hx1 & Hc1 & Hp1 & Hd1 & Hn).
  rewrite Hp, Ht, substring_suffix in Hn.
  destruct (split_record r b1 b2 H1 H2 Hu) as (cap & Hcap & Hsplit).
  rewrite Hsplit in Hn. simpl in Hn.
  rewrite (on_part_text _ r (not_blank r Hr)) in Hn.
  rewrite (on_part_blank _ cap Hcap) in Hn.
  rewrite (on_part_blank _ "" eq_refl) in Hn. simpl in Hn.
  assert (He : exists e, _parseEventChunk (Js.trim (chunk s +:+ r)) = Some e).
  { unfold _parseEventChunk.
    destruct (String.eqb_spec (Js.trim (chunk s +:+ r)) "") as [Hb|_]; [|eauto].
    apply trim_empty in Hb. rewrite blank_append, (not_blank r Hr), andb_false_r in Hb.
    discriminate. }
  destruct He as [e He].
  eexists. exists e. split; [exact Hn|]. split; [assumption|].
  simpl. autorewrite with sse. simpl.
  rewrite Hx1, Hr1, Ht. repeat split.
  - rewrite dispatched_record. simpl.
    rewrite Hc1, He, Hd1. simpl. now rewrite <- app_assoc.
  - unfold Js.length. rewrite !length_append. lia.
Qed.

(** An increment that ends inside a record. *)
Lemma partial_increment (x x0 : Xhr) (s : SSE) (old c : string) :
  xhr s = Some x0 -> status x = 200 ->
  progress s = Js.length old ->
  responseText x = old +:+ c ->
  unbroken c "" = true ->
  Js.trim c <> "" ->
  exists s',
    notify NProgress x s = Returns s'
    /\ dispatched (out s') = dispatched (out s) ++ opening s
    /\ chunk s' = chunk s +:+ c
    /\ progress s' = Js.length (responseText x)
    /\ xhr s' = Some x
    /\ readyState s' = (if readyState s =? CONNECTING then OPEN else readyState s).
Proof.
  intros Hx Hst Hp Ht Hu Hc.
  destruct (progress_accepted x x0 s Hx Hst) as (s1 & Hr1 & Hx1 & Hc1 & Hp1 & Hd1 & Hn).
  rewrite Hp, Ht, substring_suffix, (split_partial c Hu) in Hn. simpl in Hn.
  rewrite (on_part_text _ c (not_blank c Hc)) in Hn. simpl in Hn.
  eexists. split; [exact Hn|]. simpl.
  rewrite Hx1, Hr1, Hc1, Hd1, Ht. repeat split.
  unfold Js.length. rewrite !length_append. lia.
Qed.

Lemma unbroken_suffix (c r t : string) :
  unbroken (c +:+ r) t = true -> unbroken r t = true.
Proof.
  induction c as [|a c IH]; [auto|].
  change (String a c +:+ r) with (String a (c +:+ r)). simpl.
  destruct (Js.record_separator _); [discriminate | exact IH].
Qed.

Lemma opening_after (s s' : SSE) :
  readyState s' = (if readyState s =? CONNECTING then OPEN else readyState s) ->
  opening s' = [].
Proof.
  intros Hr. unfold opening. rewrite Hr.
  destruct (Z.eqb_spec (readyState s) CONNECTING) as [H|H]; [reflexivity|].
  now rewrite (proj2 (Z.eqb_neq _ _) H).
Qed.

End Increments.

Section Cursor.

Lemma progress_close (s : SSE) : progress (state_of (close s)) = progress s.
Proof.
  unfold close. destruct (readyState s =? CLOSED); [reflexivity|].
  destruct (xhr s); simpl; now autorewrite with sse.
Qed.

Lemma progress_observe (x : Xhr) (s : SSE) : progress (observe x s) = progress s.
Proof. unfold observe. now destruct (xhr s). Qed.

Lemma progress_onStreamProgress (e : Xhr) (s : SSE) :
  progress s <= progress (state_of (_onStreamProgress e s)).
Proof.
  unfold _onStreamProgress. destruct (xhr s) as [x|]; [|simpl; lia].
  destruct (status x =? 200); simpl.
  - destruct (parts_summary
                (Js.split Js.record_separator
                   (Js.substring (responseText x)
                      (progress (if readyState s =? CONNECTING
                                 then _setReadyState AtSetOpen OPEN
                                        (dispatch AtOpen (Some (new_CustomSSEEvent "open")) s)
                                 else s)) None))
                (set_progress
                   (progress (if readyState s =? CONNECTING
                              then _setReadyState AtSetOpen OPEN
                                     (dispatch AtOpen (Some (new_CustomSSEEvent "open")) s)
                              else s)
                    + Js.length
                        (Js.substring (responseText x)
                           (progress (if readyState s =? CONNECTING
                                      then _setReadyState AtSetOpen OPEN
                                             (dispatch AtOpen
                                                (Some (new_CustomSSEEvent "open")) s)
                                      else s)) None))
                   (if readyState s =? CONNECTING
                    then _setReadyState AtSetOpen OPEN
                           (dispatch AtOpen (Some (new_CustomSSEEvent "open")) s)
                    else s))) as (_ & _ & -> & _).
    simpl. pose proof (length_nonneg
      (Js.substring (responseText x)
         (progress (if readyState s =? CONNECTING
                    then _setReadyState AtSetOpen OPEN
                           (dispatch AtOpen (Some (new_CustomSSEEvent "open")) s)
                    else s)) None)) as Hl.
    destruct (readyState s =? CONNECTING); autorewrite with sse in *; lia.
  - unfold _onStreamFailure. rewrite progress_close. autorewrite with sse. lia.
Qed.

Lemma step_progress (op : Op) (s : SSE) : progress s <= progress (state_of (step op s)).
Proof.
  destruct op as [type l|type l|type [h|]|e| | |n x]; cbn [step state_of].
  - rewrite addEventListener_eq. simpl. lia.
  - unfold removeEventListener. destruct (listeners s !! type) as [ls|]; [|lia].
    destruct (filter _ ls); simpl; lia.
  - simpl. lia.
  - simpl. lia.
  - autorewrite with sse. lia.
  - destruct (stream_summary s) as (_ & _ & _ & -> & _). lia.
  - rewrite progress_close. lia.
  - unfold notify. rewrite <- (progress_observe x s). destruct n.
    + apply progress_onStreamProgress.
    + unfold _onStreamLoaded. rewrite progress_returns. simpl. autorewrite with sse.
      apply progress_onStreamProgress.
    + cbn [state_of]. unfold _checkStreamClosed.
      destruct (xhr (observe x s)) as [x0|]; [|lia].
      destruct (xhr_readyState x0 =? DONE); autorewrite with sse; lia.
    + unfold _onStreamFailure. rewrite progress_close. autorewrite with sse. lia.
    + unfold _onStreamAbort. rewrite progress_close. autorewrite with sse. lia.
Qed.

End Cursor.

(** The cursor [progress] never moves back, whatever is done to a session
    and whatever the transport reports. *)
Theorem progress_never_decreases (ops : list Op) (s : SSE) :
  progress s <= progress (run ops s).
Proof.
  revert s. induction ops as [|op ops IH]; intros s; [simpl; lia|].
  rewrite run_cons. pose proof (step_progress op s). pose proof (IH (state_of (step op s))).
  lia.
Qed.





(** A record cut in two: when the text of a record arrives in two
    notifications, the cut inside the text (the separator matches nowhere in
    the first piece, nor in the record before its two final line breaks, and
    neither piece is white space only), the session dispatches the same
    events and ends in the same state as when the record arrives in one
    notification. *)
Theorem record_cut_in_two (x1 x2 x0 : Xhr) (s : SSE) (old c r b1 b2 : string) :
  xhr s = Some x0 -> status x1 = 200 -> status x2 = 200 ->
  progress s = Js.length old ->
  responseText x1 = old +:+ c ->
  responseText x2 = old +:+ c +:+ r +:+ b1 +:+ b2 ->
  b1 ∈ line_breaks -> b2 ∈ line_breaks ->
  unbroken c "" = true ->
  unbroken (c +:+ r) (b1 +:+ b2) = true ->
  Js.trim c <> "" -> Js.trim r <> "" ->
  dispatched (out (run [ONotify NProgress x1; ONotify NProgress x2] s))
  = dispatched (out (run [ONotify NProgress x2] s))
  /\ chunk (run [ONotify NProgress x1; ONotify NProgress x2] s)
     = chunk (run [ONotify NProgress x2] s)
  /\ progress (run [ONotify NProgress x1; ONotify NProgress x2] s)
     = progress (run [ONotify NProgress x2] s)
  /\ readyState (run [ONotify NProgress x1; ONotify NProgress x2] s)
     = readyState (run [ONotify NProgress x2] s)
  /\ xhr (run [ONotify NProgress x1; ONotify NProgress x2] s)
     = xhr (run [ONotify NProgress x2] s).
Proof.
  intros Hx Hst1 Hst2 Hp Ht1 Ht2 H1 H2 Hu1 Hu Hc Hr.
  destruct (partial_increment x1 x0 s old c Hx Hst1 Hp Ht1 Hu1 Hc)
    as (s1 & Hn1 & Hd1 & Hc1 & Hp1 & Hx1 & Hr1).
  destruct (record_increment x2 x1 s1 (old +:+ c) r b1 b2)
    as (s2 & e2 & Hn2 & He2 & Hd2 & Hc2 & Hp2 & Hx2 & Hr2); auto.
  { now rewrite Hp1, Ht1. }
  { now rewrite Ht2, append_assoc. }
  { now apply (unbroken_suffix c). }
  destruct (record_increment x2 x0 s old (c +:+ r) b1 b2)
    as (sw & ew & Hnw & Hew & Hdw & Hcw & Hpw & Hxw & Hrw); auto.
  { now rewrite Ht2, !append_assoc. }
  { intros Hb. apply trim_empty in Hb.
    rewrite blank_append, (not_blank c Hc) in Hb. discriminate. }
  cbn [run fold_left step]. rewrite Hn1. cbn [state_of]. rewrite Hn2, Hnw. cbn [state_of].
  rewrite Hd2, Hdw, Hd1, Hc2, Hcw, Hp2, Hpw, Hx2, Hxw, Hr2, Hrw, (opening_after s s1 Hr1).
  rewrite Hc1, append_assoc, Hew in He2. injection He2 as <-.
  repeat split.
  - simpl. now rewrite <- app_assoc.
  - rewrite Hr1. destruct (Z.eqb_spec (readyState s) CONNECTING) as [H|H]; [reflexivity|].
    now rewrite (proj2 (Z.eqb_neq _ _) H).
Qed.

Lemma record_cut_in_two_witness :
  dispatched (out (run [ONotify NProgress (receiving "data: he");
                        ONotify NProgress (receiving ("data: hello" +:+ Js.LF +:+ Js.LF))]
                       (stream fresh)))
  = dispatched (out (run [ONotify NProgress (receiving ("data: hello" +:+ Js.LF +:+ Js.LF))]
                         (stream fresh)))
  /\ chunk (run [ONotify NProgress (receiving "data: he");
                 ONotify NProgress (receiving ("data: hello" +:+ Js.LF +:+ Js.LF))]
                (stream fresh))
     = chunk (run [ONotify NProgress (receiving ("data: hello" +:+ Js.LF +:+ Js.LF))]
                  (stream fresh))
  /\ progress (run [ONotify NProgress (receiving "data: he");
                    ONotify NProgress (receiving ("data: hello" +:+ Js.LF +:+ Js.LF))]
                   (stream fresh))
     = progress (run [ONotify NProgress (receiving ("data: hello" +:+ Js.LF +:+ Js.LF))]
                     (stream fresh))
  /\ readyState (run [ONotify NProgress (receiving "data: he");
                      ONotify NProgress (receiving ("data: hello" +:+ Js.LF +:+ Js.LF))]
                     (stream fresh))
     = readyState (run [ONotify NProgress (receiving ("data: hello" +:+ Js.LF +:+ Js.LF))]
                       (stream fresh))
  /\ xhr (run [ONotify NProgress (receiving "data: he");
               ONotify NProgress (receiving ("data: hello" +:+ Js.LF +:+ Js.LF))]
              (stream fresh))
     = xhr (run [ONotify NProgress (receiving ("data: hello" +:+ Js.LF +:+ Js.LF))]
                (stream fresh)).
Proof.
  apply (record_cut_in_two (receiving "data: he")
           (receiving ("data: hello" +:+ Js.LF +:+ Js.LF)) new_XMLHttpRequest
           (stream fresh) "" "data: he" "llo" Js.LF Js.LF).
  - reflexivity.
  - reflexivity.
  - reflexivity.
  - reflexivity.
  - reflexivity.
  - reflexivity.
  - unfold line_breaks. repeat constructor.
  - unfold line_breaks. repeat constructor.
  - vm_compute. reflexivity.
  - vm_compute. reflexivity.
  - vm_compute. discriminate.
  - vm_compute. discriminate.
Defined.

Lemma transport_done_closes_without_abort_witness :
  exists s',
    notify NReadyStateChange (received "") (stream fresh) = Returns s'
    /\ readyState s' = CLOSED /\ xhr s' = Some (received "")
    /\ chunk s' = chunk (stream fresh)
    /\ dispatched (out s')
       = dispatched (out (stream fresh))
         ++ [(AtCheckClosed, with_readyState CLOSED (new_CustomSSEEvent "readystatechange"))]
    /\ (XhrAbort ∈ out s' -> XhrAbort ∈ out (stream fresh))
    /\ close s' = Returns s'.
Proof.
  apply (transport_done_closes_without_abort (received "") (stream fresh)).
  - reflexivity.
  - reflexivity.
Defined.

(** ** The values of the parsed fields *)

Section Trimmed.

Lemma trimLeft_head (s : string) (c : ascii) (r : string) :
  Js.trimLeft s = String c r -> Js.isWhiteSpace c = false.
Proof.
  induction s as [|c0 s IH]; [discriminate|]. simpl.
  destruct (Js.isWhiteSpace c0) eqn:Hc; [exact IH|].
  intros [= <- _]. exact Hc.
Qed.

Lemma trimLeft_trimLeft (s : string) : Js.trimLeft (Js.trimLeft s) = Js.trimLeft s.
Proof.
  induction s as [|c s IH]; [reflexivity|]. simpl.
  destruct (Js.isWhiteSpace c) eqn:Hc; [exact IH|]. simpl. now rewrite Hc.
Qed.

Lemma trimLeft_drop (s : string) : exists n, Js.trimLeft s = Js.drop_chars n s.
Proof.
  induction s as [|c s [n IH]]; [now exists 0%nat|]. simpl.
  destruct (Js.isWhiteSpace c); [now exists (S n) | now exists 0%nat].
Qed.

Lemma trimRight_trimRight (s : string) : Js.trimRight (Js.trimRight s) = Js.trimRight s.
Proof.
  induction s as [|c s IH]; [reflexivity|]. simpl.
  destruct (Js.trimRight s) as [|c' r'] eqn:Ht.
  - destruct (Js.isWhiteSpace c) eqn:Hc; [reflexivity|]. simpl. now rewrite Hc.
  - simpl in *. now rewrite IH.
Qed.

Lemma trimRight_tail (c : ascii) (r : string) :
  Js.trimRight (String c r) = String c r -> Js.trimRight r = r.
Proof.
  simpl. destruct (Js.trimRight r) as [|c' r'].
  - destruct (Js.isWhiteSpace c); [discriminate|]. now intros [= <-].
  - now intros [= <-].
Qed.

(** What is left of a right-trimmed string after dropping characters at
    the front is right-trimmed. *)
Lemma trimRight_drop (n : nat) (s : string) :
  Js.trimRight s = s -> Js.trimRight (Js.drop_chars n s) = Js.drop_chars n s.
Proof.
  revert s. induction n as [|n IH]; intros [|c r] H; simpl; auto.
  apply IH. now apply trimRight_tail in H.
Qed.

Lemma substring_drop (t : string) (p : Z) :
  exists n, Js.substring t p None = Js.drop_chars n t.
Proof.
  destruct (Z_lt_le_dec p 0) as [Hneg|Hpos].
  - exists 0%nat. unfold Js.substring.
    pose proof (length_nonneg t).
    rewrite (Z.min_l p) by lia. rewrite (Z.max_l 0 p) by lia.
    rewrite Z.min_l, Z.max_r by lia. rewrite Z.sub_0_r.
    unfold Js.length. rewrite Nat2Z.id. simpl.
    replace (Js.drop_chars 0 t) with t by now destruct t.
    now apply take_chars_all.
  - destruct (Z_le_gt_dec p (Js.length t)) as [Hin|Hout].
    + exists (Z.to_nat p). apply substring_from. lia.
    + exists (String.length t). rewrite substring_beyond by lia.
      symmetry. rewrite <- (append_nil_r t) at 2. apply drop_chars_append.
Qed.

(** The value of a field is trimmed on both sides. *)
Lemma value_trimmed (line : string) (index : Z) :
  Js.trim (Js.trimLeft (Js.substring (Js.trimRight line) (index + 1) None))
  = Js.trimLeft (Js.substring (Js.trimRight line) (index + 1) None).
Proof.
  unfold Js.trim. rewrite trimLeft_trimLeft.
  destruct (substring_drop (Js.trimRight line) (index + 1)) as [n ->].
  destruct (trimLeft_drop (Js.drop_chars n (Js.trimRight line))) as [m ->].
  apply trimRight_drop, trimRight_drop, trimRight_trimRight.
Qed.

Lemma trimRight_append (a b : string) :
  Js.trimRight b = b -> b <> "" -> Js.trimRight (a +:+ b) = a +:+ b.
Proof.
  intros Hb Hne. induction a as [|c a IH]; [exact Hb|].
  change (String c a +:+ b) with (String c (a +:+ b)). simpl. rewrite IH.
  destruct (a +:+ b) eqn:Hab; [|reflexivity].
  exfalso. apply (f_equal String.length) in Hab. rewrite length_append in Hab.
  destruct b; [now contradiction Hne|]. simpl in Hab. lia.
Qed.

Lemma trimRight_length (s : string) :
  (String.length (Js.trimRight s) <= String.length s)%nat.
Proof.
  induction s as [|c s IH]; [simpl; lia|]. simpl.
  destruct (Js.trimRight s); [destruct (Js.isWhiteSpace c)|]; simpl in *; lia.
Qed.

Lemma drop_chars_same_length (n : nat) (s : string) :
  String.length (Js.drop_chars n s) = String.length s -> Js.drop_chars n s = s.
Proof.
  destruct n as [|n]; [now destruct s|]. destruct s as [|c r]; [reflexivity|].
  simpl. rewrite drop_chars_length. lia.
Qed.

(** A string that trim leaves as it is is left as it is by trimLeft and by
    trimRight. *)
Lemma trim_fixed (s : string) :
  Js.trim s = s -> Js.trimLeft s = s /\ Js.trimRight s = s.
Proof.
  intros H. unfold Js.trim in H.
  assert (Hl : Js.trimLeft s = s).
  { destruct (trimLeft_drop s) as [n Hn]. rewrite Hn in *.
    apply drop_chars_same_length.
    pose proof (trimRight_length (Js.drop_chars n s)) as H1. rewrite H in H1.
    rewrite drop_chars_length in *. lia. }
  split; [assumption|]. now rewrite Hl in H.
Qed.

(** Two trimmed strings one after the other are a trimmed string. *)
Lemma trim_append (a b : string) :
  Js.trim a = a -> Js.trim b = b -> Js.trim (a +:+ b) = a +:+ b.
Proof.
  intros Ha Hb. destruct a as [|c a]; [exact Hb|].
  destruct b as [|d b]; [now rewrite append_nil_r|].
  destruct (trim_fixed _ Ha) as [Hla _]. destruct (trim_fixed _ Hb) as [_ Hrb].
  pose proof (trimLeft_head _ _ _ Hla) as Hc.
  unfold Js.trim.
  change (String c a +:+ String d b) with (String c (a +:+ String d b)).
  cbn [Js.trimLeft]. rewrite Hc.
  change (String c (a +:+ String d b)) with (String c a +:+ String d b).
  now apply trimRight_append.
Qed.

Lemma parse_line_trimmed (e : Fields) (line : string) :
  fields_trimmed e -> fields_trimmed (parse_line FIELD_SEPARATOR e line).
Proof.
  intros (He & Hd & Hi). unfold parse_line.
  destruct (Js.indexOf (Js.trimRight line) FIELD_SEPARATOR <=? 0); [now repeat split|].
  destruct (in_fields _); simpl; [|now repeat split].
  set (field := Js.substring (Js.trimRight line) 0 _).
  set (index := Js.indexOf (Js.trimRight line) FIELD_SEPARATOR).
  pose proof (value_trimmed line index) as Hv.
  destruct (String.eqb_spec field "data") as [->|Hnd].
  - unfold assign_field. simpl. repeat split; auto. now apply trim_append.
  - unfold assign_field.
    destruct (String.eqb field "id"); [repeat split; simpl; auto; now intros v [= <-]|].
    destruct (String.eqb field "retry"); [now repeat split|].
    destruct (String.eqb_spec field "data"); [contradiction|].
    destruct (String.eqb field "event"); now repeat split.
Qed.

Lemma fold_parse_line_trimmed (lines : list string) (e : Fields) :
  fields_trimmed e -> fields_trimmed (fold_left (parse_line FIELD_SEPARATOR) lines e).
Proof.
  revert e. induction lines as [|line lines IH]; intros e He; [assumption|].
  simpl. apply IH. now apply parse_line_trimmed.
Qed.

Lemma fold_ignored_lines (lines : list string) (e : Fields) :
  forallb (fun line => Js.indexOf (Js.trimRight line) FIELD_SEPARATOR <=? 0) lines = true ->
  fold_left (parse_line FIELD_SEPARATOR) lines e = e.
Proof.
  induction lines as [|line lines IH]; [reflexivity|]. simpl.
  intros [Hl Hr]%andb_true_iff. unfold parse_line at 2. rewrite Hl. now apply IH.
Qed.

End Trimmed.

(** The type, the id and the data of a parsed event carry no white space at
    either end: each value is taken from a right-trimmed line and
    left-trimmed, and the data is such values one after the other. *)
Theorem parsed_values_are_trimmed (chunk : string) (e : CustomSSEEvent) :
  _parseEventChunk chunk = Some e ->
  Js.trim (ev_type e) = ev_type e
  /\ (forall v, ev_id e = Some v -> Js.trim v = v)
  /\ (forall d, ev_data e = Text d -> Js.trim d = d).
Proof.
  unfold _parseEventChunk. destruct (String.eqb chunk ""); [discriminate|].
  intros [= <-]. simpl.
  destruct (fold_parse_line_trimmed (Js.split Js.line_break chunk) initial_fields)
    as (He & Hd & Hi).
  { repeat split. discriminate. }
  repeat split; auto. now intros d [= <-].
Qed.

Lemma parsed_values_are_trimmed_witness :
  Js.trim (ev_type (message "message" (Some "7") "x")) = ev_type (message "message" (Some "7") "x")
  /\ (forall v, ev_id (message "message" (Some "7") "x") = Some v -> Js.trim v = v)
  /\ (forall d, ev_data (message "message" (Some "7") "x") = Text d -> Js.trim d = d).
Proof.
  apply (parsed_values_are_trimmed ("id:  7  " +:+ Js.LF +:+ "data:   x ")
           (message "message" (Some "7") "x")).
  vm_compute. reflexivity.
Defined.

(** A record in which every line is empty, has no ':' or starts with ':' (a
    comment) gives a 'message' event with empty data and null id. *)
Theorem comment_lines_give_empty_message (chunk : string) :
  chunk <> "" ->
  forallb (fun line => Js.indexOf (Js.trimRight line) FIELD_SEPARATOR <=? 0)
          (Js.split Js.line_break chunk) = true ->
  _parseEventChunk chunk = Some (message "message" None "").
Proof.
  intros Hne Hl. unfold _parseEventChunk.
  destruct (String.eqb_spec chunk ""); [contradiction|].
  now rewrite fold_ignored_lines.
Qed.

Lemma comment_lines_give_empty_message_witness :
  _parseEventChunk (": keep-alive" +:+ Js.LF +:+ "no separator here" +:+ Js.LF)
  = Some (message "message" None "").
Proof.
  apply (comment_lines_give_empty_message
           (": keep-alive" +:+ Js.LF +:+ "no separator here" +:+ Js.LF)).
  - discriminate.
  - vm_compute. reflexivity.
Defined.

(** ** The session at work: dispatches *)

Section LiveDispatch.

Variable closing : Listener -> bool.
Variable c : SSE -> Completion.

Lemma undisturbed_emit (t : list Effect) (s : SSE) :
  undisturbed closing c s -> undisturbed closing c (emit t s).
Proof. intros H t' l Hl. rewrite emit_emit. exact (H _ l Hl). Qed.

Lemma undisturbed_closed (s : SSE) :
  returns_when_closed c -> readyState s = CLOSED -> undisturbed closing c s.
Proof. intros Hc Hs t l _. apply Hc. exact Hs. Qed.

Lemma call_undisturbed (l : Listener) (e : CustomSSEEvent) (s : SSE) :
  undisturbed closing c s -> Live.call closing c l e s = Returns (emit [Call l e] s).
Proof.
  intros H. unfold Live.call.
  destruct (closing l) eqn:Hl; [|reflexivity]. exact (H _ l Hl).
Qed.

(** With callbacks that find nothing to close, [every] is as above. *)
Lemma every_callback_undisturbed (ls : list Listener) (e : CustomSSEEvent) (s : SSE) :
  undisturbed closing c s ->
  Live.every_callback closing c ls e s
  = (Returns (emit (fst (fst (every_callback ls e))) s), snd (every_callback ls e)).
Proof.
  revert e s. induction ls as [|l ls IH]; intros e s H; simpl.
  - now rewrite emit_nil.
  - rewrite (call_undisturbed l e s H).
    destruct (ev_defaultPrevented (invoke l e)); [reflexivity|].
    rewrite (IH _ _ (undisturbed_emit _ _ H)), emit_emit.
    now destruct (every_callback ls (invoke l e)) as [[t e''] b].
Qed.

(** With callbacks that find nothing to close, a dispatch leaves the
    session as the dispatch above does, whether it returns or throws. *)
Lemma dispatch_undisturbed (site : Site) (e : option CustomSSEEvent) (s : SSE) :
  undisturbed closing c s ->
  state_of (Live.dispatch closing c site e s) = dispatch site e s.
Proof.
  intros H. destruct e as [e|]; [|reflexivity].
  unfold Live.dispatch, Live.dispatchEvent, dispatch, dispatchEvent, dispatchEvent_calls.
  change (handlers (emit [Dispatch site e] s)) with (handlers s).
  pose proof (undisturbed_emit [Dispatch site e] s H) as H1.
  destruct (handlers s !! ev_type e) as [h|]; simpl.
  - rewrite (call_undisturbed h e _ H1), emit_emit.
    destruct (ev_defaultPrevented (invoke h e)); [reflexivity|]. simpl.
    destruct (listeners s !! ev_type (invoke h e)) as [ls|].
    + rewrite every_callback_undisturbed by now apply undisturbed_emit.
      simpl. rewrite emit_emit.
      now destruct (every_callback ls (invoke h e)) as [[t e''] b].
    + now destruct (Live.inherited _).
  - destruct (listeners s !! ev_type e) as [ls|].
    + rewrite every_callback_undisturbed by assumption.
      simpl. rewrite emit_emit.
      now destruct (every_callback ls e) as [[t e''] b].
    + now destruct (Live.inherited _).
Qed.

(** It throws on an inherited name only. *)
Lemma dispatch_returns (site : Site) (e : option CustomSSEEvent) (s : SSE) :
  undisturbed closing c s ->
  (forall e', e = Some e' -> Live.inherited (ev_type e') = false) ->
  Live.dispatch closing c site e s = Returns (dispatch site e s).
Proof.
  intros H Hi. pose proof (dispatch_undisturbed site e s H) as Hs.
  destruct (Live.dispatch closing c site e s) as [s'|s'] eqn:Hd; simpl in Hs; [now subst|].
  exfalso. destruct e as [e|]; [|discriminate].
  specialize (Hi e eq_refl).
  unfold Live.dispatch, Live.dispatchEvent in Hd.
  pose proof (undisturbed_emit [Dispatch site e] s H) as H1.
  change (handlers (emit [Dispatch site e] s)) with (handlers s) in Hd.
  destruct (handlers s !! ev_type e) as [h|]; simpl in Hd.
  - rewrite (call_undisturbed h e _ H1) in Hd.
    destruct (ev_defaultPrevented (invoke h e)); [discriminate|]. simpl in Hd.
    rewrite invoke_type in Hd.
    destruct (listeners s !! ev_type e) as [ls|].
    + rewrite every_callback_undisturbed in Hd by now apply undisturbed_emit. discriminate.
    + rewrite Hi in Hd. discriminate.
  - destruct (listeners s !! ev_type e) as [ls|].
    + rewrite every_callback_undisturbed in Hd by assumption. discriminate.
    + rewrite Hi in Hd. discriminate.
Qed.

End LiveDispatch.

(** ** The session at work: close() *)

Section LiveClose.

Variable closing : Listener -> bool.

Lemma setReadyState_closed (c : SSE -> Completion) (site : Site) (s : SSE) :
  returns_when_closed c ->
  Live._setReadyState closing c site CLOSED s = Returns (_setReadyState site CLOSED s).
Proof.
  intros Hc. unfold Live._setReadyState, _setReadyState.
  apply dispatch_returns.
  - now apply undisturbed_closed.
  - now intros e' [= <-].
Qed.

Lemma close_closed (c : SSE -> Completion) (s : SSE) :
  readyState s = CLOSED -> Live.close closing c s = Returns s.
Proof. intros H. unfold Live.close. now rewrite H. Qed.

Lemma close_throws (c : SSE -> Completion) (s : SSE) :
  readyState s <> CLOSED -> xhr s = None -> Live.close closing c s = Throws s.
Proof.
  intros H Hx. unfold Live.close. now rewrite (proj2 (Z.eqb_neq _ _) H), Hx.
Qed.

(** A call that takes effect: the calls of close() inside it return at
    once, whatever the callbacks. *)
Lemma close_takes_effect (c : SSE -> Completion) (s : SSE) (x : Xhr) :
  returns_when_closed c -> readyState s <> CLOSED -> xhr s = Some x ->
  Live.close closing c s = Returns (closed_from x s).
Proof.
  intros Hc Hs Hx. unfold Live.close, closed_from, Live.xhr_abort.
  rewrite (proj2 (Z.eqb_neq _ _) Hs), Hx.
  destruct (Live.in_flight x); [|now apply setReadyState_closed].
  unfold Live._checkStreamClosed. simpl xhr. simpl (xhr_readyState _ =? _).
  cbv iota. rewrite !setReadyState_closed by assumption. simpl state_of.
  unfold Live._onStreamAbort.
  rewrite dispatch_returns.
  - simpl and_then. rewrite Hc by now autorewrite with sse.
    reflexivity.
  - apply undisturbed_closed; [assumption|]. now autorewrite with sse.
  - now intros e' [= <-].
Qed.

Lemma close_returns_when_closed (c : SSE -> Completion) :
  returns_when_closed (Live.close closing c).
Proof. intros s. apply close_closed. Qed.

Lemma close_agree (c1 c2 : SSE -> Completion) (s : SSE) :
  returns_when_closed c1 -> returns_when_closed c2 ->
  Live.close closing c1 s = Live.close closing c2 s.
Proof.
  intros H1 H2.
  destruct (Z.eq_dec (readyState s) CLOSED) as [Hs|Hs].
  - now rewrite !close_closed.
  - destruct (xhr s) as [x|] eqn:Hx.
    + now rewrite !(close_takes_effect _ s x).
    + now rewrite !close_throws.
Qed.

(** Two levels of close() are enough: deeper nesting changes nothing. *)
Lemma close_at_enough (d : nat) (s : SSE) :
  Live.close_at closing (2 + d) s = Live.close_at closing 2 s.
Proof.
  simpl. apply close_agree; apply close_returns_when_closed.
Qed.

Lemma this_close_returns_when_closed : returns_when_closed (Live.this_close closing).
Proof. apply close_returns_when_closed. Qed.

Lemma this_close_takes_effect (s : SSE) (x : Xhr) :
  readyState s <> CLOSED -> xhr s = Some x ->
  Live.this_close closing s = Returns (closed_from x s).
Proof. apply close_takes_effect, close_returns_when_closed. Qed.

Lemma this_close_throws (s : SSE) :
  readyState s <> CLOSED -> xhr s = None -> Live.this_close closing s = Throws s.
Proof. apply close_throws. Qed.

Lemma perform_close (s : SSE) :
  Live.perform closing OClose s = Live.this_close closing s.
Proof. exact (close_at_enough 1 s). Qed.

(** On a request that is not in flight, close() is the [close] of the
    first embedding, whatever the callbacks. *)
Lemma this_close_not_in_flight (s : SSE) :
  (forall x, xhr s = Some x -> Live.in_flight x = false) ->
  Live.this_close closing s = close s.
Proof.
  intros Hf. unfold close.
  destruct (Z.eqb_spec (readyState s) CLOSED) as [Hc|Hc].
  - now apply this_close_returns_when_closed.
  - destruct (xhr s) as [x|] eqn:Hx.
    + rewrite (this_close_takes_effect s x Hc Hx). unfold closed_from.
      now rewrite (Hf x eq_refl).
    + now apply this_close_throws.
Qed.

End LiveClose.

Lemma dispatched_cons (site : Site) (e : CustomSSEEvent) (t : list Effect) :
  dispatched (Dispatch site e :: t) = (site, e) :: dispatched t.
Proof. reflexivity. Qed.

Section ClosedFrom.

Variable x : Xhr.
Variable s : SSE.

Lemma readyState_closed_from : readyState (closed_from x s) = CLOSED.
Proof. unfold closed_from. now autorewrite with sse. Qed.

Lemma xhr_closed_from : xhr (closed_from x s) = None.
Proof. unfold closed_from. now autorewrite with sse. Qed.

Lemma chunk_closed_from : chunk (closed_from x s) = chunk s.
Proof.
  unfold closed_from. autorewrite with sse. simpl.
  destruct (Live.in_flight x); now autorewrite with sse.
Qed.

Lemma progress_closed_from : progress (closed_from x s) = progress s.
Proof.
  unfold closed_from. autorewrite with sse. simpl.
  destruct (Live.in_flight x); now autorewrite with sse.
Qed.

Lemma out_closed_from : exists t, out (closed_from x s) = out s ++ XhrAbort :: t
  /\ dispatched t
     = abort_dispatches x
       ++ [(AtClose, with_readyState CLOSED (new_CustomSSEEvent "readystatechange"))].
Proof.
  unfold closed_from, abort_dispatches, _setReadyState.
  destruct (Live.in_flight x); rewrite !dispatch_emit; simpl;
    rewrite <- !app_assoc; simpl; (eexists; split; [reflexivity|]).
  - now rewrite ?dispatched_cons, ?dispatched_app, ?dispatched_cons, ?dispatched_app,
      ?dispatched_cons, !dispatched_calls.
  - now rewrite dispatched_cons, dispatched_calls.
Qed.

Lemma dispatched_closed_from :
  dispatched (out (closed_from x s))
  = dispatched (out s) ++ abort_dispatches x
    ++ [(AtClose, with_readyState CLOSED (new_CustomSSEEvent "readystatechange"))].
Proof.
  destruct out_closed_from as (t & -> & Ht).
  rewrite dispatched_app. simpl. now rewrite Ht.
Qed.

End ClosedFrom.

(** ** The session at work: callbacks that close the session *)

Section CalledBack.

Variable closing : Listener -> bool.

Lemma called_back_emit (t : list Effect) (s : SSE) :
  dispatched t = [] -> called_back s (emit t s).
Proof. intros Ht. exists t. simpl. repeat split. left. now repeat split. Qed.

Lemma called_back_trans (s1 s2 s3 : SSE) :
  called_back s1 s2 -> called_back s2 s3 -> called_back s1 s3.
Proof.
  intros (t1 & Ho1 & Hc1 & Hp1 & H1) (t2 & Ho2 & Hc2 & Hp2 & H2).
  exists (t1 ++ t2). rewrite Ho2, Ho1, <- app_assoc, Hc2, Hc1, Hp2, Hp1.
  repeat split.
  destruct H1 as [(Hr1 & Hx1 & Hd1)|(Hn1 & Hr1 & Hx1 & Ha1 & x1 & Hs1 & Hd1)];
    destruct H2 as [(Hr2 & Hx2 & Hd2)|(Hn2 & Hr2 & Hx2 & Ha2 & x2 & Hs2 & Hd2)].
  - left. rewrite Hr2, Hr1, Hx2, Hx1, dispatched_app, Hd1, Hd2. now repeat split.
  - right. rewrite <- Hr1. repeat split; try assumption.
    + apply elem_of_app. now right.
    + exists x2. rewrite <- Hx1, dispatched_app, Hd1. now split.
  - right. rewrite Hr2, Hx2. repeat split; try assumption.
    + apply elem_of_app. now left.
    + exists x1. rewrite dispatched_app, Hd2, app_nil_r. now split.
  - contradiction.
Qed.

Lemma called_back_closable (s s' : SSE) :
  called_back s s' -> closable s -> closable s'.
Proof.
  intros (t & _ & _ & _ & [(Hr & Hx & _)|(_ & Hr & _)]) Hs; [|now left].
  unfold closable, live in *. now rewrite Hr, Hx.
Qed.

(** close() on a session on which it does not throw. *)
Lemma this_close_closable (s : SSE) :
  closable s ->
  exists s', Live.this_close closing s = Returns s'
             /\ readyState s' = CLOSED /\ called_back s s'.
Proof.
  intros Hs. destruct (Z.eq_dec (readyState s) CLOSED) as [Hc|Hc].
  - exists s. rewrite this_close_returns_when_closed by assumption.
    repeat split; [assumption|]. rewrite <- (emit_nil s) at 2. now apply called_back_emit.
  - destruct Hs as [Hs|Hs]; [contradiction|].
    unfold live in Hs. destruct (xhr s) as [x|] eqn:Hx; [|discriminate].
    exists (closed_from x s). rewrite (this_close_takes_effect closing s x Hc Hx).
    split; [reflexivity|]. split; [apply readyState_closed_from|].
    destruct (out_closed_from x s) as (t & Ho & Hd).
    exists (XhrAbort :: t). split; [assumption|].
    split; [apply chunk_closed_from|]. split; [apply progress_closed_from|].
    right. split; [assumption|]. split; [apply readyState_closed_from|].
    split; [apply xhr_closed_from|]. split; [left|].
    exists x. split; [assumption|]. exact Hd.
Qed.

Lemma call_closable (l : Listener) (e : CustomSSEEvent) (s : SSE) :
  closable s ->
  exists s', Live.call closing (Live.this_close closing) l e s = Returns s'
             /\ called_back s s'.
Proof.
  intros Hs. unfold Live.call.
  assert (H0 : called_back s (emit [Call l e] s)) by now apply called_back_emit.
  destruct (closing l).
  - destruct (this_close_closable (emit [Call l e] s)) as (s' & -> & _ & H1).
    + exact (called_back_closable _ _ H0 Hs).
    + exists s'. split; [reflexivity|]. exact (called_back_trans _ _ _ H0 H1).
  - now exists (emit [Call l e] s).
Qed.

Lemma every_callback_closable (ls : list Listener) (e : CustomSSEEvent) (s : SSE) :
  closable s ->
  exists s' b,
    Live.every_callback closing (Live.this_close closing) ls e s = (Returns s', b)
    /\ called_back s s'.
Proof.
  revert e s. induction ls as [|l ls IH]; intros e s Hs; simpl.
  - exists s, true. split; [reflexivity|].
    rewrite <- (emit_nil s) at 2. now apply called_back_emit.
  - destruct (call_closable l e s Hs) as (s1 & -> & H1).
    destruct (ev_defaultPrevented (invoke l e)); [now exists s1, false|].
    destruct (IH (invoke l e) s1 (called_back_closable _ _ H1 Hs)) as (s2 & b & -> & H2).
    exists s2, b. split; [reflexivity|]. exact (called_back_trans _ _ _ H1 H2).
Qed.

(** A dispatch on a session on which close() does not throw: it throws on
    an inherited name only, and leaves the session as it was or closed. *)
Lemma dispatch_closable (site : Site) (e : CustomSSEEvent) (s : SSE) :
  closable s ->
  called_back (emit [Dispatch site e] s)
              (state_of (Live.dispatch closing (Live.this_close closing) site (Some e) s))
  /\ (Live.inherited (ev_type e) = false ->
      exists s', Live.dispatch closing (Live.this_close closing) site (Some e) s
                 = Returns s').
Proof.
  intros Hs. unfold Live.dispatch, Live.dispatchEvent.
  set (s0 := emit [Dispatch site e] s).
  assert (H0 : closable s0) by exact Hs.
  assert (Hrefl : forall s1, called_back s1 s1).
  { intros s1. rewrite <- (emit_nil s1) at 2. now apply called_back_emit. }
  destruct (handlers s0 !! ev_type e) as [h|].
  - destruct (call_closable h e s0 H0) as (s1 & -> & H1).
    destruct (ev_defaultPrevented (invoke h e)); simpl; [eauto|].
    rewrite invoke_type.
    destruct (listeners s1 !! ev_type e) as [ls|].
    + destruct (every_callback_closable ls (invoke h e) s1
                  (called_back_closable _ _ H1 H0)) as (s2 & b & -> & H2).
      simpl. split; [exact (called_back_trans _ _ _ H1 H2) | eauto].
    + destruct (Live.inherited (ev_type e)); simpl; split; eauto. discriminate.
  - simpl. destruct (listeners s !! ev_type e) as [ls|].
    + destruct (every_callback_closable ls e s0 H0) as (s2 & b & -> & H2).
      simpl. eauto.
    + destruct (Live.inherited (ev_type e)); simpl; split; eauto. discriminate.
Qed.

End CalledBack.

(** ** A response that is not a success *)

Lemma progress_failure (closing : Listener -> bool) (c : SSE -> Completion)
  (x : Xhr) (s : SSE) :
  live s = true -> status x <> 200 ->
  Live.notify closing c NProgress x s
  = Live._onStreamFailure closing c x (set_xhr (Some x) s).
Proof.
  intros Hl Hst. unfold Live.notify, observe, Live._onStreamProgress.
  unfold live in Hl. destruct (xhr s); [|discriminate]. simpl.
  now rewrite (proj2 (Z.eqb_neq _ _) Hst).
Qed.

(** C5: a data notification (progress, or load) on which the session holds
    the transport and the status is not 200 (so, for every status that is
    not a success) returns, whatever the callbacks do, with the session
    CLOSED.  The first event it dispatches is 'error', with the response
    body as data; then comes close(), called by _onStreamFailure or, before
    that, by a callback: unless the session was CLOSED already, the
    transport is aborted and dropped, and the events after 'error' are those
    that [abort] fires on a request in flight (readystatechange with CLOSED,
    then 'abort') and the readystatechange with CLOSED of close() itself.
    The load notification goes on to dispatch what is left in [chunk], with
    the session still CLOSED. *)
Theorem C5_failure_status_closes (closing : Listener -> bool) (x : Xhr) (s : SSE) :
  live s = true -> status x <> 200 ->
  exists s' : SSE,
    Live.perform closing (ONotify NProgress x) s = Returns s'
    /\ readyState s' = CLOSED
    /\ dispatched (out s')
       = dispatched (out s)
         ++ (AtError, with_data (Text (response x)) (new_CustomSSEEvent "error"))
         :: (if readyState s =? CLOSED then []
             else abort_dispatches x
                  ++ [(AtClose,
                       with_readyState CLOSED (new_CustomSSEEvent "readystatechange"))])
    /\ (readyState s <> CLOSED -> xhr s' = None /\ XhrAbort ∈ out s')
    /\ exists c : Completion,
        Live.perform closing (ONotify NLoad x) s = c
        /\ readyState (state_of c) = CLOSED
        /\ dispatched (out (state_of c))
           = dispatched (out s')
             ++ match _parseEventChunk (chunk s) with
                | Some e => [(AtLastChunk, e)]
                | None => []
                end.
Proof.
  intros Hl Hst.
  unfold Live.perform, Live.step.
  assert (Hload : forall c, Live.notify closing c NLoad x s
                            = and_then (Live.notify closing c NProgress x s) (fun s =>
                                and_then (Live.dispatch closing c AtLastChunk
                                            (_parseEventChunk (chunk s)) s)
                                         (fun s => Returns (set_chunk "" s))))
    by reflexivity.
  rewrite Hload, (progress_failure _ _ x s Hl Hst). clear Hload.
  set (s0 := set_xhr (Some x) s).
  unfold Live._onStreamFailure.
  set (event := with_data (Text (response x)) (new_CustomSSEEvent "error")).
  assert (H0 : closable s0) by now right.
  destruct (dispatch_closable closing AtError event s0 H0) as [H1 Hret].
  destruct (Hret eq_refl) as [s1 Hs1]. rewrite Hs1 in *. simpl in H1. simpl and_then.
  destruct (this_close_closable closing s1) as (s2 & -> & Hr2 & H2).
  { exact (called_back_closable _ _ H1 H0). }
  pose proof (called_back_trans _ _ _ H1 H2) as (t & Ho & Hc & Hp & H).
  simpl in Ho, Hc, Hp.
  exists s2. split; [reflexivity|]. split; [assumption|].
  split; [|split].
  - rewrite Ho, <- app_assoc, dispatched_app. simpl. do 2 f_equal.
    destruct H as [(Hr & _ & Hd)|(Hn & _ & _ & _ & x1 & Hx1 & Hd)]; simpl in *.
    + rewrite <- Hr, Hr2. exact Hd.
    + rewrite (proj2 (Z.eqb_neq _ _) Hn). now injection Hx1 as <-.
  - intros Hn. destruct H as [(Hr & _)|(_ & _ & Hx2 & Ha & _)].
    + simpl in Hr. congruence.
    + split; [assumption|].
      rewrite Ho. apply elem_of_app. now right.
  - eexists. split; [reflexivity|]. simpl and_then.
    pose proof (dispatch_undisturbed closing (Live.this_close closing) AtLastChunk
                  (_parseEventChunk (chunk s2)) s2
                  (undisturbed_closed closing _ s2
                     (this_close_returns_when_closed closing) Hr2)) as Hd.
    rewrite Hc in *.
    destruct (Live.dispatch closing (Live.this_close closing) AtLastChunk
                (_parseEventChunk (chunk s)) s2) as [s3|s3];
      simpl in Hd; subst s3; simpl; autorewrite with sse;
      (split; [assumption|]); now rewrite dispatched_dispatch.
Qed.

Lemma C5_witness :
  exists s' : SSE,
    Live.perform Live.none (ONotify NProgress failed_response) (stream fresh) = Returns s'
    /\ readyState s' = CLOSED
    /\ dispatched (out s')
       = dispatched (out (stream fresh))
         ++ (AtError, with_data (Text (response failed_response))
                        (new_CustomSSEEvent "error"))
         :: (if readyState (stream fresh) =? CLOSED then []
             else abort_dispatches failed_response
                  ++ [(AtClose,
                       with_readyState CLOSED (new_CustomSSEEvent "readystatechange"))])
    /\ (readyState (stream fresh) <> CLOSED -> xhr s' = None /\ XhrAbort ∈ out s')
    /\ exists c : Completion,
        Live.perform Live.none (ONotify NLoad failed_response) (stream fresh) = c
        /\ readyState (state_of c) = CLOSED
        /\ dispatched (out (state_of c))
           = dispatched (out s')
             ++ match _parseEventChunk (chunk (stream fresh)) with
                | Some e => [(AtLastChunk, e)]
                | None => []
                end.
Proof.
  apply (C5_failure_status_closes Live.none failed_response (stream fresh)).
  - reflexivity.
  - discriminate.
Defined.

(** The example of the specification, with the request in flight: after
    'error', [abort] makes the session dispatch readystatechange with CLOSED
    and 'abort' before close() dispatches its own readystatechange. *)
Example failure_in_flight :
  dispatched (out (Live.run Live.none [OStream; ONotify NProgress failed_response] fresh))
  = [(AtStream, with_readyState CONNECTING (new_CustomSSEEvent "readystatechange"));
     (AtError, with_data (Text "oops") (new_CustomSSEEvent "error"));
     (AtCheckClosed, with_readyState CLOSED (new_CustomSSEEvent "readystatechange"));
     (AtAbort, new_CustomSSEEvent "abort");
     (AtClose, with_readyState CLOSED (new_CustomSSEEvent "readystatechange"))]
  /\ readyState (Live.run Live.none [OStream; ONotify NProgress failed_response] fresh)
     = CLOSED.
Proof. vm_compute. split; reflexivity. Qed.

(** ** close() on a request in flight *)

(** C8, as the code has it: one call of close() on a session that is not
    CLOSED and whose request is in flight returns with the session CLOSED
    and the transport dropped, and has dispatched readystatechange with
    CLOSED twice, once from _checkStreamClosed inside [abort] and once from
    close() itself, with 'abort' in between.  A second call does nothing. *)
Theorem C8_close_in_flight_dispatches_twice
  (closing : Listener -> bool) (s : SSE) (x : Xhr) :
  readyState s <> CLOSED -> xhr s = Some x -> Live.in_flight x = true ->
  exists s' : SSE,
    Live.perform closing OClose s = Returns s'
    /\ dispatched (out s')
       = dispatched (out s)
         ++ [(AtCheckClosed, with_readyState CLOSED (new_CustomSSEEvent "readystatechange"));
             (AtAbort, new_CustomSSEEvent "abort");
             (AtClose, with_readyState CLOSED (new_CustomSSEEvent "readystatechange"))]
    /\ readyState s' = CLOSED /\ xhr s' = None /\ XhrAbort ∈ out s'
    /\ Live.perform closing OClose s' = Returns s'.
Proof.
  intros Hs Hx Hf. exists (closed_from x s).
  rewrite !perform_close, (this_close_takes_effect closing s x Hs Hx).
  split; [reflexivity|]. split.
  { rewrite dispatched_closed_from. unfold abort_dispatches. now rewrite Hf. }
  split; [apply readyState_closed_from|]. split; [apply xhr_closed_from|]. split.
  - destruct (out_closed_from x s) as (t & -> & _). apply elem_of_app. right. left.
  - apply this_close_returns_when_closed, readyState_closed_from.
Qed.

Lemma C8_witness :
  exists s' : SSE,
    Live.perform Live.none OClose (stream fresh) = Returns s'
    /\ dispatched (out s')
       = dispatched (out (stream fresh))
         ++ [(AtCheckClosed, with_readyState CLOSED (new_CustomSSEEvent "readystatechange"));
             (AtAbort, new_CustomSSEEvent "abort");
             (AtClose, with_readyState CLOSED (new_CustomSSEEvent "readystatechange"))]
    /\ readyState s' = CLOSED /\ xhr s' = None /\ XhrAbort ∈ out s'
    /\ Live.perform Live.none OClose s' = Returns s'.
Proof.
  apply (C8_close_in_flight_dispatches_twice Live.none (stream fresh) new_XMLHttpRequest).
  - discriminate.
  - reflexivity.
  - reflexivity.
Defined.


(** ** close() called by a listener of 'open' *)

(** C7, as the code has it: with one call of stream() and a listener of
    'open' that calls close(), the first data notification sets [readyState]
    to CLOSED inside the dispatch of 'open' and then to OPEN; it ends with a
    TypeError, the session OPEN and without transport, on which close()
    throws. *)
Theorem C7_close_in_open_listener_reopens :
  streams [OStream; first_data] = 1%nat
  /\ called (out (Live.run only_closer [OStream; first_data] closes_on_open)) = [closer]
  /\ map (fun d => (fst d, ev_type (snd d), ev_readyState (snd d)))
         (dispatched (out (Live.run only_closer [OStream; first_data] closes_on_open)))
     = [(AtStream, "readystatechange", Some CONNECTING);
        (AtOpen, "open", None);
        (AtCheckClosed, "readystatechange", Some CLOSED);
        (AtAbort, "abort", None);
        (AtClose, "readystatechange", Some CLOSED);
        (AtSetOpen, "readystatechange", Some OPEN)]
  /\ readyState
       (state_of
          (Live.dispatch only_closer (Live.this_close only_closer) AtOpen
             (Some (new_CustomSSEEvent "open"))
             (observe (receiving ("data: x" +:+ Js.LF +:+ Js.LF))
                      (Live.run only_closer [OStream] closes_on_open))))
     = CLOSED
  /\ readyState (Live.run only_closer [OStream; first_data] closes_on_open) = OPEN
  /\ xhr (Live.run only_closer [OStream; first_data] closes_on_open) = None
  /\ Live.perform only_closer first_data (Live.run only_closer [OStream] closes_on_open)
     = Throws (Live.run only_closer [OStream; first_data] closes_on_open)
  /\ Live.perform only_closer OClose
       (Live.run only_closer [OStream; first_data] closes_on_open)
     = Throws (Live.run only_closer [OStream; first_data] closes_on_open).
Proof. vm_compute. repeat split; reflexivity. Qed.

(** ** The load notification and an inherited type name *)

(** C4, as the code has it: when the last record has a type that is a
    member name of [Object.prototype], the load notification throws in
    [dispatchEvent] and the buffer keeps its text, whether the text comes
    with the load notification or was buffered before.  On the text of the
    example, "data: tail", the one event {type: "message", data: "tail"} is
    dispatched. *)
Theorem C4_load_throws_on_inherited_type :
  (exists s' : SSE,
      Live.perform Live.none (ONotify NLoad (received inherited_record))
        (Live.run Live.none [OStream] fresh) = Throws s'
      /\ chunk s' = inherited_record
      /\ dispatched (out s')
         = dispatched (out (Live.run Live.none [OStream] fresh))
           ++ [(AtOpen, new_CustomSSEEvent "open");
               (AtSetOpen, with_readyState OPEN (new_CustomSSEEvent "readystatechange"));
               (AtLastChunk, message "constructor" None "x")])
  /\ (exists s' : SSE,
        Live.perform Live.none (ONotify NLoad (received inherited_record))
          (Live.run Live.none [OStream; ONotify NProgress (receiving inherited_record)] fresh)
        = Throws s'
        /\ chunk s' = inherited_record)
  /\ record_events
       (Live.run Live.none
          [OStream; ONotify NProgress (receiving "data: tail");
           ONotify NLoad (received "data: tail")] fresh)
     = [message "message" None "tail"].
Proof.
  split; [|split].
  - eexists. split; [vm_compute; reflexivity|]. split; vm_compute; reflexivity.
  - eexists. split; [vm_compute; reflexivity|]. vm_compute; reflexivity.
  - vm_compute. reflexivity.
Qed.

(** ** The session at work when no callback calls close() *)

Section NoClosing.

Variable c : SSE -> Completion.

Lemma none_undisturbed (s : SSE) : undisturbed Live.none c s.
Proof. intros t l H. discriminate. Qed.

Lemma none_dispatch_state (site : Site) (e : option CustomSSEEvent) (s : SSE) :
  state_of (Live.dispatch Live.none c site e s) = dispatch site e s.
Proof. apply dispatch_undisturbed, none_undisturbed. Qed.

Lemma none_dispatch_returns (site : Site) (e : option CustomSSEEvent) (s : SSE) :
  (forall e', e = Some e' -> Live.inherited (ev_type e') = false) ->
  Live.dispatch Live.none c site e s = Returns (dispatch site e s).
Proof. apply dispatch_returns, none_undisturbed. Qed.

Lemma none_setReadyState (site : Site) (state : Z) (s : SSE) :
  Live._setReadyState Live.none c site state s = Returns (_setReadyState site state s).
Proof.
  unfold Live._setReadyState, _setReadyState.
  apply none_dispatch_returns. now intros e' [= <-].
Qed.

Lemma none_stream (s : SSE) : Live.stream Live.none c s = Returns (stream s).
Proof. unfold Live.stream. now rewrite none_setReadyState. Qed.

(** The result of a dispatch on a name that is not inherited. *)
Lemma none_dispatchEvent (site : Site) (e : CustomSSEEvent) (s : SSE) :
  Live.inherited (ev_type e) = false ->
  Live.dispatchEvent Live.none c site (Some e) s
  = (Returns (fst (dispatchEvent site (Some e) s)), snd (dispatchEvent site (Some e) s)).
Proof.
  intros Hi.
  unfold Live.dispatchEvent, dispatchEvent, dispatchEvent_calls.
  change (handlers (emit [Dispatch site e] s)) with (handlers s).
  destruct (handlers s !! ev_type e) as [h|]; simpl.
  - destruct (ev_defaultPrevented (invoke h e)); [now rewrite emit_emit|]. simpl.
    rewrite invoke_type.
    destruct (listeners s !! ev_type e) as [ls|].
    + rewrite every_callback_undisturbed by apply none_undisturbed.
      rewrite !emit_emit. simpl.
      now destruct (every_callback ls (invoke h e)) as [[t e''] b].
    + now rewrite Hi, emit_emit.
  - destruct (listeners s !! ev_type e) as [ls|].
    + rewrite every_callback_undisturbed by apply none_undisturbed.
      rewrite emit_emit. simpl.
      now destruct (every_callback ls e) as [[t e''] b].
    + now rewrite Hi.
Qed.

(** One part of the new data. *)
Lemma none_on_part (s : SSE) (part : string) :
  (blank part = true ->
   forall e, _parseEventChunk (Js.trim (chunk s)) = Some e ->
             Live.inherited (ev_type e) = false) ->
  Live.on_part Live.none c (Returns s) part = Returns (on_part s part).
Proof.
  intros H. unfold Live.on_part, on_part. simpl and_then.
  rewrite trim_length_zero in *.
  destruct (blank part); [|reflexivity].
  now rewrite none_dispatch_returns by (apply H; reflexivity).
Qed.

Lemma fold_on_part_throws (parts : list string) (s : SSE) :
  fold_left (Live.on_part Live.none c) parts (Throws s) = Throws s.
Proof. induction parts as [|p parts IH]; simpl; auto. Qed.

(** The parts change [chunk] and the effects only. *)
Lemma fold_on_part_frame (parts : list string) (s : SSE) :
  let s' := state_of (fold_left (Live.on_part Live.none c) parts (Returns s)) in
  readyState s' = readyState s /\ xhr s' = xhr s /\ progress s' = progress s.
Proof.
  revert s. induction parts as [|p parts IH]; intros s; simpl; [auto|].
  destruct (Js.length (Js.trim p) =? 0).
  - pose proof (none_dispatch_state AtRecord (_parseEventChunk (Js.trim (chunk s))) s)
      as Hd.
    destruct (Live.dispatch Live.none c AtRecord _ s) as [s1|s1];
      simpl in Hd; subst s1; simpl.
    + destruct (IH (set_chunk "" (dispatch AtRecord (_parseEventChunk (Js.trim (chunk s))) s)))
        as (-> & -> & ->).
      simpl. now autorewrite with sse.
    + rewrite fold_on_part_throws. simpl. now autorewrite with sse.
  - now destruct (IH (set_chunk (chunk s +:+ p) s)) as (-> & -> & ->).
Qed.

(** A progress notification that passes the two guards, here and above. *)
Lemma none_progress_accepted (x x0 : Xhr) (s : SSE) :
  xhr s = Some x0 -> status x = 200 ->
  exists s1,
    readyState s1 = (if readyState s =? CONNECTING then OPEN else readyState s)
    /\ xhr s1 = Some x /\ chunk s1 = chunk s /\ progress s1 = progress s
    /\ dispatched (out s1) = dispatched (out s) ++ opening s
    /\ notify NProgress x s
       = Returns (fold_left on_part
                    (Js.split Js.record_separator
                       (Js.substring (responseText x) (progress s) None))
                    (set_progress
                       (progress s
                        + Js.length (Js.substring (responseText x) (progress s) None))
                       s1))
    /\ Live.notify Live.none c NProgress x s
       = fold_left (Live.on_part Live.none c)
           (Js.split Js.record_separator
              (Js.substring (responseText x) (progress s) None))
           (Returns (set_progress
                       (progress s
                        + Js.length (Js.substring (responseText x) (progress s) None))
                       s1)).
Proof.
  intros Hx Hst. unfold notify, Live.notify, observe, _onStreamProgress,
    Live._onStreamProgress, opening.
  rewrite Hx. simpl. rewrite Hst. simpl.
  destruct (readyState s =? CONNECTING).
  - exists (_setReadyState AtSetOpen OPEN
              (dispatch AtOpen (Some (new_CustomSSEEvent "open")) (set_xhr (Some x) s))).
    rewrite none_dispatch_returns by (now intros e' [= <-]). simpl and_then.
    rewrite none_setReadyState. simpl and_then.
    autorewrite with sse. simpl. repeat split.
    unfold _setReadyState. rewrite dispatched_dispatch. simpl.
    rewrite dispatched_dispatch. simpl. now rewrite <- app_assoc.
  - exists (set_xhr (Some x) s). simpl. repeat split. now rewrite app_nil_r.
Qed.

End NoClosing.

Section NoClosingSteps.

Lemma settles_same (s s' : SSE) :
  readyState s' = readyState s -> live s' = live s -> settles s s'.
Proof. intros. left. now split. Qed.

Lemma settles_trans (s1 s2 s3 : SSE) : settles s1 s2 -> settles s2 s3 -> settles s1 s3.
Proof.
  unfold settles.
  intros [(Hr1 & Hl1)|[(Hl1 & Hr1)|(Hl1 & Hl1' & Hr1 & Hr1')]]
         [(Hr2 & Hl2)|[(Hl2 & Hr2)|(Hl2 & Hl2' & Hr2 & Hr2')]];
    rewrite ?Hr2, ?Hl2, ?Hr1, ?Hl1 in *; try (now left); try (right; left; now split);
    try (right; right; now repeat split); try discriminate; try congruence.
Qed.

Lemma this_close_settles (s : SSE) :
  settles s (state_of (Live.this_close Live.none s)).
Proof.
  destruct (Z.eq_dec (readyState s) CLOSED) as [Hc|Hc].
  - rewrite this_close_returns_when_closed by assumption. now apply settles_same.
  - destruct (xhr s) as [x|] eqn:Hx.
    + rewrite (this_close_takes_effect _ s x Hc Hx). right. left. simpl.
      split; [unfold live; now rewrite Hx | apply readyState_closed_from].
    + rewrite this_close_throws by assumption. now apply settles_same.
Qed.

Lemma dispatch_settles (site : Site) (e : option CustomSSEEvent) (s : SSE) :
  settles s (state_of (Live.dispatch Live.none (Live.this_close Live.none) site e s)).
Proof. rewrite none_dispatch_state. apply settles_same; now autorewrite with sse. Qed.

Lemma and_then_settles (cpl : Completion) (k : SSE -> Completion) (s : SSE) :
  settles s (state_of cpl) -> (forall s1, settles s1 (state_of (k s1))) ->
  settles s (state_of (and_then cpl k)).
Proof.
  intros H Hk. destruct cpl as [s1|s1]; simpl in *; [|assumption].
  exact (settles_trans _ _ _ H (Hk s1)).
Qed.

Lemma failure_settles (x : Xhr) (s : SSE) :
  settles s (state_of (Live._onStreamFailure Live.none (Live.this_close Live.none) x s)).
Proof.
  unfold Live._onStreamFailure. apply and_then_settles;
    [apply dispatch_settles | apply this_close_settles].
Qed.

Lemma abort_settles (x : Xhr) (s : SSE) :
  settles s (state_of (Live._onStreamAbort Live.none (Live.this_close Live.none) x s)).
Proof.
  unfold Live._onStreamAbort. apply and_then_settles;
    [apply dispatch_settles | apply this_close_settles].
Qed.

Lemma check_settles (s : SSE) :
  settles s (state_of (Live._checkStreamClosed Live.none (Live.this_close Live.none) s)).
Proof.
  unfold Live._checkStreamClosed. destruct (xhr s) as [x|] eqn:Hx;
    [|now apply settles_same].
  destruct (xhr_readyState x =? DONE); [|now apply settles_same].
  rewrite none_setReadyState. right. left. simpl. autorewrite with sse.
  split; [unfold live; now rewrite Hx | reflexivity].
Qed.

Lemma progress_settles (x : Xhr) (s : SSE) :
  settles s (state_of (Live._onStreamProgress Live.none (Live.this_close Live.none) x s)).
Proof.
  unfold Live._onStreamProgress. destruct (xhr s) as [x1|] eqn:Hx;
    [|now apply settles_same].
  destruct (negb (status x1 =? 200)); [apply failure_settles|].
  assert (Hl : live s = true) by (unfold live; now rewrite Hx).
  assert (H1 : exists s1,
    (if readyState s =? CONNECTING
     then and_then (Live.dispatch Live.none (Live.this_close Live.none) AtOpen
                      (Some (new_CustomSSEEvent "open")) s)
                   (Live._setReadyState Live.none (Live.this_close Live.none) AtSetOpen OPEN)
     else Returns s) = Returns s1
    /\ xhr s1 = xhr s /\ settles s s1).
  { destruct (Z.eqb_spec (readyState s) CONNECTING) as [Hc|Hc].
    - rewrite none_dispatch_returns by (now intros e' [= <-]). simpl and_then.
      rewrite none_setReadyState. eexists. split; [reflexivity|].
      autorewrite with sse. split; [reflexivity|].
      right. right. autorewrite with sse. now repeat split.
    - exists s. split; [reflexivity|]. split; [reflexivity|]. now apply settles_same. }
  destruct H1 as (s1 & -> & Hx1 & H1). simpl and_then. rewrite Hx1, Hx.
  apply (settles_trans _ _ _ H1).
  match goal with
  | |- context [fold_left _ ?parts (Returns ?s2)] =>
      destruct (fold_on_part_frame (Live.this_close Live.none) parts s2) as (Hr & Hxf & _)
  end.
  cbv zeta in Hr, Hxf. apply settles_same.
  - now rewrite Hr.
  - unfold live. now rewrite Hxf.
Qed.

Lemma loaded_settles (x : Xhr) (s : SSE) :
  settles s (state_of (Live._onStreamLoaded Live.none (Live.this_close Live.none) x s)).
Proof.
  unfold Live._onStreamLoaded. apply and_then_settles; [apply progress_settles|].
  intros s1. apply and_then_settles; [apply dispatch_settles|].
  intros s2. now apply settles_same.
Qed.

Lemma observe_settles (x : Xhr) (s : SSE) : settles s (observe x s).
Proof.
  unfold observe. destruct (xhr s) eqn:Hx; apply settles_same; try reflexivity.
  unfold live. simpl. now rewrite Hx.
Qed.

(** An operation other than stream() when no callback calls close(). *)
Lemma perform_settles (op : Op) (s : SSE) :
  is_stream op = false -> settles s (state_of (Live.perform Live.none op s)).
Proof.
  intros Hop. destruct op as [type l|type l|type [h|]|e| | |n x]; try discriminate.
  - assert (H : settles s (addEventListener type l s)).
    { apply settles_same; unfold addEventListener;
        destruct (listeners s !! type); simpl; now destruct (bool_decide _). }
    unfold Live.perform, Live.step, Live.addEventListener.
    destruct (listeners s !! type); [exact H|].
    destruct (Live.inherited type); [now apply settles_same | exact H].
  - assert (H : settles s (removeEventListener type l s)).
    { apply settles_same; unfold removeEventListener;
        destruct (listeners s !! type); simpl; trivial; now destruct (filter _ _). }
    unfold Live.perform, Live.step, Live.removeEventListener.
    destruct (listeners s !! type); [exact H|].
    destruct (Live.inherited type); [now apply settles_same | exact H].
  - now apply settles_same.
  - now apply settles_same.
  - apply dispatch_settles.
  - rewrite perform_close. apply this_close_settles.
  - unfold Live.perform, Live.step, Live.notify.
    apply (settles_trans _ _ _ (observe_settles x s)).
    destruct n.
    + apply progress_settles.
    + apply loaded_settles.
    + apply check_settles.
    + apply failure_settles.
    + apply abort_settles.
Qed.

Lemma perform_stream (s : SSE) : Live.perform Live.none OStream s = Returns (stream s).
Proof. apply none_stream. Qed.

Lemma settles_transport_ok (s s' : SSE) :
  settles s s' -> transport_ok s -> transport_ok s'.
Proof.
  unfold settles, transport_ok.
  intros [(Hr & Hl)|[(Hl & Hr)|(Hl & Hl' & Hr & Hr')]] (H4 & Hi & Ho);
    rewrite ?Hr, ?Hl, ?Hr', ?Hl'; unfold INITIALIZING, CONNECTING, OPEN, CLOSED in *;
    repeat split; try tauto; try (intros; lia); intuition lia.
Qed.

Lemma live_run_cons (op : Op) (ops : list Op) (s : SSE) :
  Live.run Live.none (op :: ops) s
  = Live.run Live.none ops (state_of (Live.perform Live.none op s)).
Proof. reflexivity. Qed.

Lemma live_run_app (ops1 ops2 : list Op) (s : SSE) :
  Live.run Live.none (ops1 ++ ops2) s
  = Live.run Live.none ops2 (Live.run Live.none ops1 s).
Proof. apply fold_left_app. Qed.

Lemma live_run_transport_ok (ops : list Op) (s : SSE) :
  transport_ok s -> transport_ok (Live.run Live.none ops s).
Proof.
  revert s. induction ops as [|op ops IH]; intros s Hs; [assumption|].
  rewrite live_run_cons. apply IH.
  destruct (is_stream op) eqn:Hop.
  - destruct op; try discriminate. rewrite perform_stream. simpl.
    destruct (stream_summary s) as (Hr & Hx & _).
    unfold transport_ok, live. rewrite Hr, Hx.
    unfold INITIALIZING, CONNECTING, OPEN, CLOSED. repeat split; try tauto; intros; lia.
  - exact (settles_transport_ok _ _ (perform_settles op s Hop) Hs).
Qed.

Lemma live_run_initializing (ops : list Op) (s : SSE) :
  streams ops = 0%nat -> readyState s = INITIALIZING -> live s = false ->
  readyState (Live.run Live.none ops s) = INITIALIZING
  /\ live (Live.run Live.none ops s) = false.
Proof.
  revert s. induction ops as [|op ops IH]; intros s Hn Hr Hl; [auto|].
  rewrite streams_cons in Hn. destruct (is_stream op) eqn:Hop; [discriminate|].
  rewrite live_run_cons.
  destruct (perform_settles op s Hop) as [(Hr' & Hl')|[(Hl' & _)|(Hl' & _)]];
    try congruence.
  apply IH; [assumption | congruence | congruence].
Qed.

Lemma live_run_started (ops : list Op) (s : SSE) :
  readyState s <> INITIALIZING \/ (1 <= streams ops)%nat ->
  readyState (Live.run Live.none ops s) <> INITIALIZING.
Proof.
  revert s. induction ops as [|op ops IH]; intros s H.
  - destruct H as [H|H]; [assumption | unfold streams in H; simpl in H; lia].
  - rewrite live_run_cons. apply IH.
    destruct (is_stream op) eqn:Hop.
    + destruct op; try discriminate. rewrite perform_stream. cbn [state_of].
      destruct (stream_summary s) as (-> & _). left. discriminate.
    + rewrite streams_cons, Hop in H.
      destruct H as [H|H]; [left | right; exact H].
      destruct (perform_settles op s Hop) as [(Hr' & _)|[(_ & Hr')|(_ & _ & _ & Hr')]];
        rewrite Hr'; [assumption | discriminate | discriminate].
Qed.

Lemma live_run_closed (ops : list Op) (s : SSE) :
  streams ops = 0%nat -> readyState s = CLOSED ->
  readyState (Live.run Live.none ops s) = CLOSED.
Proof.
  revert s. induction ops as [|op ops IH]; intros s Hn Hr; [assumption|].
  rewrite streams_cons in Hn. destruct (is_stream op) eqn:Hop; [discriminate|].
  rewrite live_run_cons. apply IH; [assumption|].
  destruct (perform_settles op s Hop) as [(Hr' & _)|[(_ & Hr')|(_ & _ & Hc & _)]];
    [congruence | assumption | rewrite Hr in Hc; discriminate].
Qed.

End NoClosingSteps.

(** ** Properties of the session when no callback calls close() *)

Lemma none_inherited_event (e : option CustomSSEEvent) :
  Live.inherited_event e = false ->
  forall e', e = Some e' -> Live.inherited (ev_type e') = false.
Proof. now intros H e' ->. Qed.

(** The result of dispatchEvent for a type that is not an inherited name,
    when no callback calls close(): the call returns; the result is true
    when no callback was called (whatever [e.defaultPrevented] was), and
    otherwise whether the event is not default-prevented after the last
    callback that was called. *)
Theorem dispatchEvent_result (site : Site) (e : CustomSSEEvent) (s : SSE) :
  Live.inherited (ev_type e) = false ->
  Live.dispatchEvent Live.none (Live.this_close Live.none) site (Some e) s
  = (Returns (fst (dispatchEvent site (Some e) s)),
     match callbacks s e with
     | [] => true
     | ls => negb (ev_defaultPrevented (event_after ls e))
     end).
Proof.
  intros Hi. rewrite none_dispatchEvent by assumption.
  now rewrite dispatchEvent_snd.
Qed.

Lemma dispatchEvent_result_witness :
  Live.dispatchEvent Live.none (Live.this_close Live.none) AtCaller
    (Some (new_CustomSSEEvent "message")) two_listeners
  = (Returns (fst (dispatchEvent AtCaller (Some (new_CustomSSEEvent "message"))
                     two_listeners)),
     match callbacks two_listeners (new_CustomSSEEvent "message") with
     | [] => true
     | ls => negb (ev_defaultPrevented (event_after ls (new_CustomSSEEvent "message")))
     end).
Proof.
  apply (dispatchEvent_result AtCaller (new_CustomSSEEvent "message") two_listeners).
  reflexivity.
Defined.

(** Whatever is done to a new session none of whose callbacks calls
    close(), [readyState] is one of INITIALIZING, CONNECTING, OPEN and
    CLOSED; while it is INITIALIZING the session holds no transport, and
    while it is CONNECTING or OPEN it holds one. *)
Theorem readyState_and_transport (u : string) (o : SSEOptions) (ops : list Op) :
  (readyState (Live.run Live.none ops (construct u o)) = INITIALIZING
   \/ readyState (Live.run Live.none ops (construct u o)) = CONNECTING
   \/ readyState (Live.run Live.none ops (construct u o)) = OPEN
   \/ readyState (Live.run Live.none ops (construct u o)) = CLOSED)
  /\ (readyState (Live.run Live.none ops (construct u o)) = INITIALIZING ->
      xhr (Live.run Live.none ops (construct u o)) = None)
  /\ (readyState (Live.run Live.none ops (construct u o)) = CONNECTING
      \/ readyState (Live.run Live.none ops (construct u o)) = OPEN ->
      xhr (Live.run Live.none ops (construct u o)) <> None).
Proof.
  destruct (live_run_transport_ok ops (construct u o)) as (H4 & Hi & Ho).
  { unfold transport_ok. simpl. repeat split; try tauto.
    intros [H|H]; discriminate. }
  unfold live in *. split; [assumption|]. split.
  - intros H. specialize (Hi H). now destruct (xhr _).
  - intros H. specialize (Ho H). now destruct (xhr _).
Qed.

(** When no callback calls close(), close() throws exactly on the sessions
    on which stream() has not been called: after any run that contains a
    call of stream(), close() returns, with the session CLOSED. *)
Theorem close_throws_only_before_stream (u : string) (o : SSEOptions) (ops : list Op) :
  (streams ops = 0%nat ->
   Live.perform Live.none OClose (Live.run Live.none ops (construct u o))
   = Throws (Live.run Live.none ops (construct u o)))
  /\ ((1 <= streams ops)%nat ->
      exists s',
        Live.perform Live.none OClose (Live.run Live.none ops (construct u o))
        = Returns s'
        /\ readyState s' = CLOSED).
Proof.
  rewrite perform_close. split.
  - intros Hn.
    destruct (live_run_initializing ops (construct u o) Hn) as [Hi Hl]; try reflexivity.
    apply this_close_throws.
    + rewrite Hi. discriminate.
    + unfold live in Hl. now destruct (xhr _).
  - intros Hs.
    assert (Hst : readyState (Live.run Live.none ops (construct u o)) <> INITIALIZING)
      by (apply live_run_started; now right).
    destruct (live_run_transport_ok ops (construct u o)) as (H4 & Hi & Ho).
    { unfold transport_ok. simpl. repeat split; try tauto.
      intros [H|H]; discriminate. }
    destruct (this_close_closable Live.none (Live.run Live.none ops (construct u o)))
      as (s' & Hret & Hr & _); [|eauto].
    unfold closable. tauto.
Qed.

Lemma close_throws_only_before_stream_witness :
  exists s',
    Live.perform Live.none OClose
      (Live.run Live.none [OStream; ONotify NProgress (receiving "data: x")]
         (construct "http://localhost/events" no_options))
    = Returns s'
    /\ readyState s' = CLOSED.
Proof.
  apply (proj2 (close_throws_only_before_stream "http://localhost/events" no_options
                  [OStream; ONotify NProgress (receiving "data: x")])).
  vm_compute. lia.
Defined.

(** When no callback calls close(): in a run with at most one call of
    stream(), once [readyState] is CLOSED it is CLOSED after every further
    operation and notification. *)
Theorem closed_stays_closed (u : string) (o : SSEOptions) (before after : list Op) :
  (streams (before ++ after) <= 1)%nat ->
  readyState (Live.run Live.none before (construct u o)) = CLOSED ->
  readyState (Live.run Live.none (before ++ after) (construct u o)) = CLOSED.
Proof.
  intros Hs Hc. rewrite live_run_app. apply live_run_closed; [|assumption].
  rewrite streams_app in Hs.
  destruct (streams before) as [|n] eqn:Hn; [|lia].
  destruct (live_run_initializing before (construct u o) Hn) as [Hi _]; try reflexivity.
  rewrite Hi in Hc. discriminate.
Qed.

Lemma closed_stays_closed_witness :
  readyState (Live.run Live.none
                ([OStream; OClose]
                 ++ [ONotify NProgress (receiving "data: x"); OClose;
                     ONotify NReadyStateChange (received "data: x");
                     ONotify NLoad (received "data: x")])
                (construct "http://localhost/events" no_options)) = CLOSED.
Proof.
  apply (closed_stays_closed "http://localhost/events" no_options [OStream; OClose]).
  - vm_compute. lia.
  - vm_compute. reflexivity.
Defined.

(** The load notification has no guard on [this.xhr]: on a session without
    transport it still dispatches the event parsed from the buffered text
    and empties the buffer, whatever [readyState] is; the type of the event
    is not an inherited name. *)
Theorem load_without_transport_flushes (x : Xhr) (s : SSE) :
  xhr s = None ->
  Live.inherited_event (_parseEventChunk (chunk s)) = false ->
  exists s',
    Live.perform Live.none (ONotify NLoad x) s = Returns s'
    /\ chunk s' = "" /\ readyState s' = readyState s /\ xhr s' = None
    /\ dispatched (out s')
       = dispatched (out s)
         ++ match _parseEventChunk (chunk s) with
            | Some e => [(AtLastChunk, e)]
            | None => []
            end.
Proof.
  intros Hx Hi. unfold Live.perform, Live.step, Live.notify.
  rewrite (observe_dead x s Hx).
  unfold Live._onStreamLoaded, Live._onStreamProgress. rewrite Hx. simpl and_then.
  rewrite none_dispatch_returns by now apply none_inherited_event.
  eexists. split; [reflexivity|]. simpl. autorewrite with sse.
  repeat split; try assumption. now rewrite dispatched_dispatch.
Qed.

Lemma load_without_transport_flushes_witness :
  exists s',
    Live.perform Live.none (ONotify NLoad (received "data: he"))
      (run [OStream; ONotify NProgress (receiving "data: he"); OClose] fresh) = Returns s'
    /\ chunk s' = ""
    /\ readyState s'
       = readyState (run [OStream; ONotify NProgress (receiving "data: he"); OClose] fresh)
    /\ xhr s' = None
    /\ dispatched (out s')
       = dispatched (out (run [OStream; ONotify NProgress (receiving "data: he"); OClose]
                            fresh))
         ++ match _parseEventChunk
                    (chunk (run [OStream; ONotify NProgress (receiving "data: he"); OClose]
                              fresh)) with
            | Some e => [(AtLastChunk, e)]
            | None => []
            end.
Proof.
  apply (load_without_transport_flushes (received "data: he")
           (run [OStream; ONotify NProgress (receiving "data: he"); OClose] fresh)).
  - vm_compute. reflexivity.
  - vm_compute. reflexivity.
Defined.

(** The load notification, when its progress handling returns and the
    type of the last record is not an inherited name: it dispatches the
    event parsed from what is left in [chunk], if there is one, and empties
    [chunk]. *)
Theorem load_flushes_after_progress (x : Xhr) (s s1 : SSE) :
  Live.perform Live.none (ONotify NProgress x) s = Returns s1 ->
  Live.inherited_event (_parseEventChunk (chunk s1)) = false ->
  exists s2,
    Live.perform Live.none (ONotify NLoad x) s = Returns s2
    /\ chunk s2 = ""
    /\ dispatched (out s2)
       = dispatched (out s1)
         ++ match _parseEventChunk (chunk s1) with
            | Some e => [(AtLastChunk, e)]
            | None => []
            end
    /\ readyState s2 = readyState s1 /\ xhr s2 = xhr s1 /\ progress s2 = progress s1.
Proof.
  unfold Live.perform, Live.step, Live.notify, Live._onStreamLoaded.
  intros -> Hi. simpl and_then.
  rewrite none_dispatch_returns by now apply none_inherited_event.
  eexists. split; [reflexivity|]. simpl. autorewrite with sse.
  repeat split. now rewrite dispatched_dispatch.
Qed.

Lemma load_flushes_after_progress_witness :
  exists s2,
    Live.perform Live.none (ONotify NLoad (received "data: tail")) (stream fresh)
    = Returns s2
    /\ chunk s2 = ""
    /\ dispatched (out s2)
       = dispatched (out (run [ONotify NProgress (received "data: tail")] (stream fresh)))
         ++ match _parseEventChunk
                    (chunk (run [ONotify NProgress (received "data: tail")] (stream fresh)))
            with
            | Some e => [(AtLastChunk, e)]
            | None => []
            end
    /\ readyState s2
       = readyState (run [ONotify NProgress (received "data: tail")] (stream fresh))
    /\ xhr s2 = xhr (run [ONotify NProgress (received "data: tail")] (stream fresh))
    /\ progress s2
       = progress (run [ONotify NProgress (received "data: tail")] (stream fresh)).
Proof.
  apply (load_flushes_after_progress (received "data: tail") (stream fresh)
           (run [ONotify NProgress (received "data: tail")] (stream fresh))).
  - vm_compute. reflexivity.
  - vm_compute. reflexivity.
Defined.

Lemma none_record_increment (x x0 : Xhr) (s : SSE) (old r b1 b2 : string) :
  xhr s = Some x0 -> status x = 200 ->
  progress s = Js.length old ->
  responseText x = old +:+ r +:+ b1 +:+ b2 ->
  b1 ∈ line_breaks -> b2 ∈ line_breaks ->
  unbroken r (b1 +:+ b2) = true ->
  Js.trim r <> "" ->
  Live.inherited_event (_parseEventChunk (Js.trim (chunk s +:+ r))) = false ->
  Live.perform Live.none (ONotify NProgress x) s = notify NProgress x s.
Proof.
  intros Hx Hst Hp Ht H1 H2 Hu Hr Hi.
  unfold Live.perform, Live.step.
  destruct (none_progress_accepted (Live.this_close Live.none) x x0 s Hx Hst)
    as (s1 & Hr1 & Hx1 & Hc1 & Hp1 & _ & Hn & Hl).
  rewrite Hn, Hl. rewrite Hp, Ht, substring_suffix.
  destruct (split_record r b1 b2 H1 H2 Hu) as (cap & Hcap & ->).
  cbn [fold_left].
  rewrite none_on_part.
  2:{ intros Hb. rewrite (not_blank r Hr) in Hb. discriminate. }
  rewrite none_on_part.
  2:{ intros _. apply none_inherited_event.
      rewrite (on_part_text _ r (not_blank r Hr)). simpl. now rewrite Hc1. }
  rewrite none_on_part; [reflexivity|].
  intros _ e. rewrite (on_part_blank _ cap Hcap). simpl. discriminate.
Qed.

(** A record that arrives complete: when the new text is the text of a
    record, in which the separator matches nowhere and which is not white
    space only, followed by two line breaks, and the type of the record is
    not an inherited name, the session dispatches exactly one record event,
    parsed from the buffered text followed by the new text, and the buffer
    is empty afterwards. *)
Theorem record_in_one_notification (x x0 : Xhr) (s : SSE) (old r b1 b2 : string) :
  xhr s = Some x0 -> status x = 200 ->
  progress s = Js.length old ->
  responseText x = old +:+ r +:+ b1 +:+ b2 ->
  b1 ∈ line_breaks -> b2 ∈ line_breaks ->
  unbroken r (b1 +:+ b2) = true ->
  Js.trim r <> "" ->
  Live.inherited_event (_parseEventChunk (Js.trim (chunk s +:+ r))) = false ->
  exists s' e,
    Live.perform Live.none (ONotify NProgress x) s = Returns s'
    /\ _parseEventChunk (Js.trim (chunk s +:+ r)) = Some e
    /\ dispatched (out s') = dispatched (out s) ++ opening s ++ [(AtRecord, e)]
    /\ chunk s' = ""
    /\ progress s' = Js.length (responseText x)
    /\ xhr s' = Some x
    /\ readyState s' = (if readyState s =? CONNECTING then OPEN else readyState s).
Proof.
  intros Hx Hst Hp Ht H1 H2 Hu Hr Hi.
  rewrite (none_record_increment x x0 s old r b1 b2) by assumption.
  now apply (record_increment x x0 s old r b1 b2).
Qed.

Lemma record_in_one_notification_witness :
  exists s' e,
    Live.perform Live.none
      (ONotify NProgress (receiving ("data: hello" +:+ Js.LF +:+ Js.LF))) (stream fresh)
    = Returns s'
    /\ _parseEventChunk (Js.trim (chunk (stream fresh) +:+ "data: hello")) = Some e
    /\ dispatched (out s')
       = dispatched (out (stream fresh)) ++ opening (stream fresh) ++ [(AtRecord, e)]
    /\ chunk s' = ""
    /\ progress s'
       = Js.length (responseText (receiving ("data: hello" +:+ Js.LF +:+ Js.LF)))
    /\ xhr s' = Some (receiving ("data: hello" +:+ Js.LF +:+ Js.LF))
    /\ readyState s'
       = (if readyState (stream fresh) =? CONNECTING then OPEN
          else readyState (stream fresh)).
Proof.
  apply (record_in_one_notification (receiving ("data: hello" +:+ Js.LF +:+ Js.LF))
           new_XMLHttpRequest (stream fresh) "" "data: hello" Js.LF Js.LF).
  - reflexivity.
  - reflexivity.
  - reflexivity.
  - reflexivity.
  - unfold line_breaks. repeat constructor.
  - unfold line_breaks. repeat constructor.
  - vm_compute. reflexivity.
  - vm_compute. discriminate.
  - vm_compute. reflexivity.
Defined.

(** A progress notification that brings no new text (the cursor is at or
    beyond the end of the response text) is taken for a record boundary:
    the buffered text, if any, is dispatched as a record and the buffer is
    emptied; the type of the record is not an inherited name. *)
Theorem empty_increment_flushes (x x0 : Xhr) (s : SSE) :
  xhr s = Some x0 -> status x = 200 ->
  Js.length (responseText x) <= progress s ->
  Live.inherited_event (_parseEventChunk (Js.trim (chunk s))) = false ->
  exists s',
    Live.perform Live.none (ONotify NProgress x) s = Returns s'
    /\ dispatched (out s')
       = dispatched (out s) ++ opening s
         ++ record_dispatch (_parseEventChunk (Js.trim (chunk s)))
    /\ chunk s' = ""
    /\ progress s' = progress s.
Proof.
  intros Hx Hst Hp Hi. unfold Live.perform, Live.step.
  destruct (none_progress_accepted (Live.this_close Live.none) x x0 s Hx Hst)
    as (s1 & Hr1 & Hx1 & Hc1 & Hp1 & Hd1 & _ & ->).
  rewrite (substring_beyond _ _ Hp).
  change (Js.split Js.record_separator "") with [""]. cbn [fold_left].
  rewrite none_on_part.
  2:{ intros _. apply none_inherited_event. simpl. now rewrite Hc1. }
  rewrite (on_part_blank _ "" eq_refl).
  eexists. split; [reflexivity|]. simpl. autorewrite with sse. simpl.
  rewrite dispatched_record. simpl. rewrite Hc1, Hd1, <- app_assoc.
  repeat split. unfold Js.length. simpl. lia.
Qed.

Lemma empty_increment_flushes_witness :
  exists s',
    Live.perform Live.none (ONotify NProgress (receiving "data: he"))
      (run [OStream; ONotify NProgress (receiving "data: he")] fresh) = Returns s'
    /\ dispatched (out s')
       = dispatched (out (run [OStream; ONotify NProgress (receiving "data: he")] fresh))
         ++ opening (run [OStream; ONotify NProgress (receiving "data: he")] fresh)
         ++ record_dispatch
              (_parseEventChunk
                 (Js.trim (chunk (run [OStream; ONotify NProgress (receiving "data: he")]
                                      fresh))))
    /\ chunk s' = ""
    /\ progress s'
       = progress (run [OStream; ONotify NProgress (receiving "data: he")] fresh).
Proof.
  apply (empty_increment_flushes (receiving "data: he") (receiving "data: he")
           (run [OStream; ONotify NProgress (receiving "data: he")] fresh)).
  - vm_compute. reflexivity.
  - reflexivity.
  - vm_compute. discriminate.
  - vm_compute. reflexivity.
Defined.

(** The dispatch of an event whose type is a member name of
    [Object.prototype]: when the session has no 'on' + type handler and no
    entry of its own for the type, [dispatchEvent] throws, after the
    dispatch has been recorded and before any callback is called. *)
Theorem dispatchEvent_throws_on_inherited_type
  (closing : Listener -> bool) (site : Site) (e : CustomSSEEvent) (s : SSE) :
  Live.inherited (ev_type e) = true ->
  handlers s !! ev_type e = None ->
  listeners s !! ev_type e = None ->
  Live.dispatchEvent closing (Live.this_close closing) site (Some e) s
  = (Throws (emit [Dispatch site e] s), false).
Proof.
  intros Hi Hh Hl. unfold Live.dispatchEvent.
  change (handlers (emit [Dispatch site e] s)) with (handlers s).
  rewrite Hh.
  change (listeners (emit [Dispatch site e] s)) with (listeners s).
  cbn [andb]. now rewrite Hl, Hi.
Qed.

Lemma dispatchEvent_throws_on_inherited_type_witness :
  Live.dispatchEvent Live.none (Live.this_close Live.none) AtCaller
    (Some (message "toString" None "x")) fresh
  = (Throws (emit [Dispatch AtCaller (message "toString" None "x")] fresh), false).
Proof.
  apply (dispatchEvent_throws_on_inherited_type Live.none AtCaller
           (message "toString" None "x") fresh).
  - reflexivity.
  - reflexivity.
  - reflexivity.
Defined.
